(** * Personal expense tracker: validation, ledger, budget and CSV persistence

    A shallow embedding of [expense_tracker.py].  The program is a
    single-threaded console ledger; its functions are embedded as
    computations over an explicit [world] (the ledger list, the console and
    the disk) that either return a value or raise a Python exception.

    Conventions of the embedding:
    - a text of the console, of the ledger or of a file is a Rocq [string]
      read as a sequence of code points below 256; [is_valid_date] is
      embedded on every Python [str], a list of code points
      ([Unicode.text]), and a [string] is read as such a list where the
      program hands it one;
    - a Python [float] is an IEEE-754 binary64 value, [spec_float] with
      precision 53 and maximal exponent 1024;
    - the objects stored in an expense dictionary are [None], strings,
      integers, floats and the empty list;
    - a CSV file is the sequence of rows that [csv.reader] yields for it. *)

From Stdlib Require Import ZArith Lia Bool Ascii String List.
From Stdlib Require Import Floats.SpecFloat.
From stdpp Require Import gmap strings.

Local Open Scope Z_scope.

(** ** Exceptions and outcomes *)

Inductive exn_class :=
  | ValueError
  | TypeError
  | OverflowError
  | EOFError
  | OSError
  | KeyError
  | CsvError
  | UnicodeDecodeError.

(** An exception object: its class and the text [str(e)] gives. *)
Record exn := Exn { exn_type : exn_class; exn_text : string }.

Inductive outcome (A : Type) :=
  | Ok (a : A)
  | Raise (e : exn).
Arguments Ok {A} a.
Arguments Raise {A} e.

Definition exn_class_eqb (a b : exn_class) : bool :=
  match a, b with
  | ValueError, ValueError | TypeError, TypeError
  | OverflowError, OverflowError | EOFError, EOFError
  | OSError, OSError | KeyError, KeyError | CsvError, CsvError
  | UnicodeDecodeError, UnicodeDecodeError => true
  | _, _ => false
  end.

(** ** Text: the [str] methods the program uses *)

Module Text.

Definition code (c : ascii) : N := N_of_ascii c.

Definition is_digit (c : ascii) : bool :=
  ((48 <=? code c) && (code c <=? 57))%N.

Definition digit_value (c : ascii) : Z := Z.of_N (code c) - 48.

(** [str.isspace] on the code points below 256: TAB..CR, FS..US, space,
    NEL (0x85) and NBSP (0xA0). *)
Definition is_space (c : ascii) : bool :=
  let n := code c in
  (((9 <=? n) && (n <=? 13)) || ((28 <=? n) && (n <=? 32))
   || (n =? 133) || (n =? 160))%N.

(** The whitespace of C's [Py_ISSPACE], used by [float()] and [int()]. *)
Definition is_c_space (c : ascii) : bool :=
  let n := code c in
  (((9 <=? n) && (n <=? 13)) || (n =? 32))%N.

Fixpoint lstrip_by (p : ascii -> bool) (s : string) : string :=
  match s with
  | EmptyString => EmptyString
  | String c s' => if p c then lstrip_by p s' else s
  end.

Fixpoint rstrip_by (p : ascii -> bool) (s : string) : string :=
  match s with
  | EmptyString => EmptyString
  | String c s' =>
      match rstrip_by p s' with
      | EmptyString => if p c then EmptyString else String c EmptyString
      | t => String c t
      end
  end.

(** [s.strip()] *)
Definition strip (s : string) : string :=
  rstrip_by is_space (lstrip_by is_space s).

Definition is_empty (s : string) : bool :=
  match s with EmptyString => true | _ => false end.

(** Value of a run of decimal digits, most significant first. *)
Fixpoint digits_value_from (acc : Z) (s : string) : Z :=
  match s with
  | EmptyString => acc
  | String c s' => digits_value_from (10 * acc + digit_value c) s'
  end.

Definition digits_value (s : string) : Z := digits_value_from 0 s.

Definition all_digits (s : string) : bool :=
  forallb is_digit (list_ascii_of_string s).

(** Longest prefix of characters satisfying [p], and the rest. *)
Fixpoint span (p : ascii -> bool) (s : string) : string * string :=
  match s with
  | EmptyString => (EmptyString, EmptyString)
  | String c s' =>
      if p c then let '(a, b) := span p s' in (String c a, b)
      else (EmptyString, s)
  end.

Definition digit_char (d : Z) : ascii := ascii_of_N (Z.to_N (48 + d)).

(** Decimal numeral of a natural number, no leading zeros ([str(n)]). *)
Fixpoint decimal_from (fuel : nat) (n : Z) (acc : string) : string :=
  match fuel with
  | O => acc
  | S fuel' =>
      let acc' := String (digit_char (n mod 10)) acc in
      if n / 10 =? 0 then acc' else decimal_from fuel' (n / 10) acc'
  end.

Definition decimal (n : Z) : string :=
  decimal_from (S (Z.to_nat (Z.log2 n))) n EmptyString.

(** Two decimal digits, zero padded. *)
Definition two_digits (n : Z) : string :=
  String (digit_char (n / 10)) (String (digit_char (n mod 10)) EmptyString).

Definition lower (c : ascii) : ascii :=
  let n := code c in
  if ((65 <=? n) && (n <=? 90))%N then ascii_of_N (n + 32) else c.

Fixpoint lowercase (s : string) : string :=
  match s with
  | EmptyString => EmptyString
  | String c s' => String (lower c) (lowercase s')
  end.

Definition newline : string := String (ascii_of_N 10) EmptyString.

End Text.

(** ** Unicode text *)

Module Unicode.

(** A [str] in full: a sequence of code points. *)
Definition text : Type := list N.

(** The code points of a text of the console or of a file. *)
Fixpoint points (s : string) : text :=
  match s with
  | EmptyString => []
  | String c s' => Text.code c :: points s'
  end.

(** The digit zero of every script that has decimal digits (general
    category [Nd], Unicode 14.0 as in CPython 3.11): each is followed by
    the digits one to nine of its script. *)
Definition decimal_zeros : list N :=
  [48; 1632; 1776; 1984; 2406; 2534; 2662; 2790; 2918; 3046; 3174; 3302;
   3430; 3558; 3664; 3792; 3872; 4160; 4240; 6112; 6160; 6470; 6608; 6784;
   6800; 6992; 7088; 7232; 7248; 42528; 43216; 43264; 43472; 43504; 43600;
   44016; 65296; 66720; 68912; 69734; 69872; 69942; 70096; 70384; 70736;
   70864; 71248; 71360; 71472; 71904; 72016; 72784; 73040; 73120; 92768;
   92864; 93008; 120782; 120792; 120802; 120812; 120822; 123200; 123632;
   125264; 130032]%N.

(** The zero of the script of a decimal digit. *)
Definition decimal_zero (c : N) : option N :=
  List.find (fun z => (z <=? c) && (c <=? z + 9))%N decimal_zeros.

(** [c.isdecimal()], the class [\d] of [re] on a [str] pattern. *)
Definition is_decimal (c : N) : bool :=
  match decimal_zero c with Some _ => true | None => false end.

(** The value [int()] gives a decimal digit. *)
Definition decimal_value (c : N) : Z :=
  match decimal_zero c with
  | Some z => Z.of_N (c - z)
  | None => 0
  end.

(** Value of a run of decimal digits, most significant first. *)
Definition digits_value (t : text) : Z :=
  fold_left (fun acc c => 10 * acc + decimal_value c) t 0.

(** The space, U+0020. *)
Definition space : N := 32%N.

Fixpoint skip_spaces (t : text) : text :=
  match t with
  | c :: t' => if (c =? space)%N then skip_spaces t' else t
  | [] => []
  end.

End Unicode.

(** A text of the console or of a file is read as Unicode text where
    one is expected. *)
Coercion Unicode.points : string >-> Unicode.text.

(** ** Regular expressions: the backtracking matcher of [re.match] *)

Module Regex.

Inductive regex :=
  | Eps
  | Lit (c : N)
  | Class (p : N -> bool)
  | Cat (r1 r2 : regex)
  | Alt (r1 r2 : regex)
  | Group (r : regex).

(** [exec r s caps k]: match [r] at the start of [s], alternatives tried
    left to right, and hand the matched text, the unread rest and the
    captured groups to the continuation [k]; a failing continuation
    makes the matcher backtrack. *)
Fixpoint exec {R : Type} (r : regex) (s : Unicode.text) (caps : list Unicode.text)
    (k : Unicode.text -> Unicode.text -> list Unicode.text -> option R)
    : option R :=
  match r with
  | Eps => k [] s caps
  | Lit c =>
      match s with
      | c' :: s' => if (c =? c')%N then k [c'] s' caps else None
      | [] => None
      end
  | Class p =>
      match s with
      | c' :: s' => if p c' then k [c'] s' caps else None
      | [] => None
      end
  | Cat r1 r2 =>
      exec r1 s caps (fun m1 s1 caps1 =>
        exec r2 s1 caps1 (fun m2 s2 caps2 => k (m1 ++ m2) s2 caps2))
  | Alt r1 r2 =>
      match exec r1 s caps k with
      | Some x => Some x
      | None => exec r2 s caps k
      end
  | Group r' => exec r' s caps (fun m s' caps' => k m s' (caps' ++ [m]))
  end.

(** [re.match]: the groups of the first match and the unread rest. *)
Definition rmatch (r : regex) (s : Unicode.text)
    : option (list Unicode.text * Unicode.text) :=
  exec r s [] (fun _ rest caps => Some (caps, rest)).

(** The language of an expression: [matches r t caps caps'] when [r]
    can read exactly the text [t], taking the captured groups from
    [caps] to [caps']. *)
Inductive matches
    : regex -> Unicode.text -> list Unicode.text -> list Unicode.text -> Prop :=
  | m_eps caps : matches Eps [] caps caps
  | m_lit c caps : matches (Lit c) [c] caps caps
  | m_class (p : N -> bool) c caps :
      p c = true -> matches (Class p) [c] caps caps
  | m_cat r1 r2 t1 t2 c0 c1 c2 :
      matches r1 t1 c0 c1 -> matches r2 t2 c1 c2 ->
      matches (Cat r1 r2) (t1 ++ t2) c0 c2
  | m_alt_l r1 r2 t c0 c1 : matches r1 t c0 c1 -> matches (Alt r1 r2) t c0 c1
  | m_alt_r r1 r2 t c0 c1 : matches r2 t c0 c1 -> matches (Alt r1 r2) t c0 c1
  | m_group r t c0 c1 : matches r t c0 c1 -> matches (Group r) t c0 (c1 ++ [t]).

(** An ASCII character of the pattern. *)
Definition char (c : ascii) : regex := Lit (Text.code c).

(** A class [[lo-hi]] of the pattern. *)
Definition range (lo hi : ascii) : regex :=
  Class (fun c => ((Text.code lo <=? c) && (c <=? Text.code hi))%N).

End Regex.

(** ** [datetime.strptime(s, "%Y-%m-%d")] *)

Module Strptime.
Import Regex.

(** [\d]: on a [str] it takes the decimal digits of every script. *)
Definition digit : regex := Class Unicode.is_decimal.

(** [%Y]: [\d\d\d\d] *)
Definition re_Y : regex := Cat digit (Cat digit (Cat digit digit)).

(** [%m]: [1[0-2]|0[1-9]|[1-9]] *)
Definition re_m : regex :=
  Alt (Cat (char "1") (range "0" "2"))
    (Alt (Cat (char "0") (range "1" "9")) (range "1" "9")).

(** [%d]: [3[0-1]|[1-2]\d|0[1-9]|[1-9]| [1-9]] *)
Definition re_d : regex :=
  Alt (Cat (char "3") (range "0" "1"))
    (Alt (Cat (range "1" "2") digit)
      (Alt (Cat (char "0") (range "1" "9"))
        (Alt (range "1" "9") (Cat (char " ") (range "1" "9"))))).

Definition re_ymd : regex :=
  Cat (Group re_Y) (Cat (char "-") (Cat (Group re_m) (Cat (char "-") (Group re_d)))).

(** [int(text)] on the text of a group, which holds decimal digits
    after at most one space: the space is passed over and the digits
    are read by their decimal values. *)
Definition int_of_group (text : Unicode.text) : Z :=
  Unicode.digits_value (Unicode.skip_spaces text).

Definition is_leap (y : Z) : bool :=
  (y mod 4 =? 0) && (negb (y mod 100 =? 0) || (y mod 400 =? 0)).

Definition days_in_month (y m : Z) : Z :=
  if m =? 2 then (if is_leap y then 29 else 28)
  else if (m =? 4) || (m =? 6) || (m =? 9) || (m =? 11) then 30
  else 31.

(** The range checks of the [date] constructor (MINYEAR = 1,
    MAXYEAR = 9999). *)
Definition check_date_fields (y m d : Z) : bool :=
  (1 <=? y) && (y <=? 9999) && (1 <=? m) && (m <=? 12)
  && (1 <=? d) && (d <=? days_in_month y m).

Definition value_error (msg : string) : exn := Exn ValueError msg.

(** The format is matched from the start of the string; text left
    after the match, and field values that are not a date, raise
    [ValueError]. *)
Definition strptime_ymd (s : Unicode.text) : outcome (Z * Z * Z) :=
  match rmatch re_ymd s with
  | Some ([ty; tm; td], rest) =>
      match rest with
      | [] =>
          let y := int_of_group ty in
          let m := int_of_group tm in
          let d := int_of_group td in
          if check_date_fields y m d then Ok (y, m, d)
          else Raise (value_error "day is out of range for month")
      | _ :: _ => Raise (value_error "unconverted data remains")
      end
  | _ => Raise (value_error "time data does not match format")
  end.

End Strptime.

(** ** The validator *)

(** [is_valid_date]: [strptime] raises only [ValueError], which the
    [except] clause turns into [False]. *)
Definition is_valid_date (date_str : Unicode.text) : bool :=
  match Strptime.strptime_ymd date_str with
  | Ok _ => true
  | Raise _ => false
  end.

(** ** Binary64 floats: [float()], [round(x, 2)] and the [.2f] format *)

Module Float64.

Definition prec : Z := 53.
Definition emax : Z := 1024.
Definition emin : Z := -1074.

Abbreviation float := spec_float.

Definition valid (x : float) : bool := valid_binary prec emax x.

Definition add : float -> float -> float := SFadd prec emax.
Definition sub : float -> float -> float := SFsub prec emax.
Definition ltb : float -> float -> bool := SFltb.
Definition leb : float -> float -> bool := SFleb.

Definition zero : float := S754_zero false.

Definition is_finite (x : float) : bool :=
  match x with
  | S754_zero _ | S754_finite _ _ _ => true
  | _ => false
  end.

(** [a / b] rounded to the nearest integer, ties to even ([0 < b]). *)
Definition div_half_even (a b : Z) : Z :=
  let q := a / b in
  match 2 * (a mod b) ?= b with
  | Lt => q
  | Gt => q + 1
  | Eq => if Z.even q then q else q + 1
  end.

(** The integer [k] with [2^k <= p/q < 2^(k+1)], for [0 < p] and [0 < q]. *)
Definition floor_log2_ratio (p q : Z) : Z :=
  let k := Z.log2 p - Z.log2 q in
  if q * 2 ^ Z.max k 0 <=? p * 2 ^ Z.max (- k) 0 then k else k - 1.

(** The binary64 value nearest to [p/q] (ties to even) with sign [s], for
    [0 <= p] and [0 < q]: what a correctly rounded [strtod] returns.
    Too large a quotient gives an infinity, too small a one a zero. *)
Definition nearest (s : bool) (p q : Z) : float :=
  if p <=? 0 then S754_zero s
  else
    let e := Z.max (floor_log2_ratio p q - (prec - 1)) emin in
    let m := div_half_even (p * 2 ^ Z.max (- e) 0) (q * 2 ^ Z.max e 0) in
    if m =? 0 then S754_zero s
    else
      let '(m', e') := if m =? 2 ^ prec then (2 ^ (prec - 1), e + 1) else (m, e) in
      if e' <=? emax - prec then S754_finite s (Z.to_pos m') e'
      else S754_infinity s.

(** [x * 100] rounded to the nearest integer, ties to even, for the
    finite value [m * 2^e]: the digits [dtoa] produces in mode 3 with
    two decimals. *)
Definition hundredths (m : positive) (e : Z) : Z :=
  div_half_even (100 * Z.pos m * 2 ^ Z.max e 0) (2 ^ Z.max (- e) 0).

(** [round(x, 2)]: infinities and NaN round to themselves; a finite
    value is printed with two correctly rounded decimals and read back. *)
Definition round2 (x : float) : float :=
  match x with
  | S754_finite s m e => nearest s (hundredths m e) 100
  | _ => x
  end.

Definition sign_text (s : bool) : string := if s then "-" else "".

(** [format(x, ".2f")] *)
Definition format_2f (x : float) : string :=
  match x with
  | S754_nan => "nan"
  | S754_infinity s => sign_text s +:+ "inf"
  | S754_zero s => sign_text s +:+ "0.00"
  | S754_finite s m e =>
      let n := hundredths m e in
      sign_text s +:+ Text.decimal (n / 100) +:+ "." +:+ Text.two_digits (n mod 100)
  end.

(** [float(n)] for an integer: correctly rounded, [OverflowError] when
    the result would not be finite. *)
Definition of_int (n : Z) : outcome float :=
  match nearest (n <? 0) (Z.abs n) 1 with
  | S754_infinity _ => Raise (Exn OverflowError "int too large to convert to float")
  | x => Ok x
  end.

(** *** [float(s)] for a string *)

(** Code points from 127 on: a Unicode blank becomes a space, anything
    else a question mark that ends the text. *)
Fixpoint transform_to_ascii (s : string) : string :=
  match s with
  | EmptyString => EmptyString
  | String c s' =>
      if (Text.code c <? 127)%N then String c (transform_to_ascii s')
      else if Text.is_space c then String " " (transform_to_ascii s')
      else "?"
  end.

(** Underscores may only stand between two digits and are dropped. *)
Fixpoint remove_underscores_from (prev : ascii) (s : string) : option string :=
  match s with
  | EmptyString => if Ascii.eqb prev "_" then None else Some EmptyString
  | String c s' =>
      if Ascii.eqb c "_" then
        if Text.is_digit prev then remove_underscores_from c s' else None
      else if Ascii.eqb prev "_" && negb (Text.is_digit c) then None
      else option_map (String c) (remove_underscores_from c s')
  end.

Definition remove_underscores (s : string) : option string :=
  remove_underscores_from (ascii_of_N 0) s.

Definition parse_sign (s : string) : bool * string :=
  match s with
  | String "-" r => (true, r)
  | String "+" r => (false, r)
  | _ => (false, s)
  end.

(** The exponent part: [e] or [E], a sign, digits.  Without a digit
    there is no exponent and nothing is read. *)
Definition parse_exponent (s : string) : Z * string :=
  match s with
  | String c r =>
      if Ascii.eqb c "e" || Ascii.eqb c "E" then
        let '(neg, r1) := parse_sign r in
        let '(ds, r2) := Text.span Text.is_digit r1 in
        if Text.is_empty ds then (0, s)
        else ((if neg then - Text.digits_value ds else Text.digits_value ds), r2)
      else (0, s)
  | EmptyString => (0, s)
  end.

(** [strtod] on a decimal numeral: the value and the unread rest, or
    [None] when no digit was found. *)
Definition parse_decimal (s : string) : option (float * string) :=
  let '(neg, s1) := parse_sign s in
  let '(ip, s2) := Text.span Text.is_digit s1 in
  let '(fp, s3) :=
    match s2 with
    | String "." r => Text.span Text.is_digit r
    | _ => (EmptyString, s2)
    end in
  if Text.is_empty ip && Text.is_empty fp then None
  else
    let '(ex, s4) := parse_exponent s3 in
    let m := Text.digits_value (ip +:+ fp) in
    let e := ex - Z.of_nat (String.length fp) in
    Some (nearest neg (m * 10 ^ Z.max e 0) (10 ^ Z.max (- e) 0), s4).

Fixpoint strip_prefix (p s : string) : option string :=
  match p, s with
  | EmptyString, _ => Some s
  | String a p', String b s' => if Ascii.eqb a b then strip_prefix p' s' else None
  | _, _ => None
  end.

(** [inf], [infinity] or [nan] in any case, after an optional sign. *)
Definition parse_inf_or_nan (s : string) : option (float * string) :=
  let '(neg, s1) := parse_sign s in
  let low := Text.lowercase s1 in
  match strip_prefix "inf" low with
  | Some r =>
      match strip_prefix "inity" r with
      | Some r' => Some (S754_infinity neg, r')
      | None => Some (S754_infinity neg, r)
      end
  | None =>
      match strip_prefix "nan" low with
      | Some r => Some (S754_nan, r)
      | None => None
      end
  end.

Definition could_not_convert : exn :=
  Exn ValueError "could not convert string to float".

(** The numeral between the blanks must be read to its end. *)
Definition of_stripped (s : string) : outcome float :=
  let parsed :=
    match parse_decimal s with
    | Some r => Some r
    | None => parse_inf_or_nan s
    end in
  match parsed with
  | Some (x, EmptyString) => Ok x
  | _ => Raise could_not_convert
  end.

Definition of_string (s : string) : outcome float :=
  match remove_underscores (transform_to_ascii s) with
  | None => Raise could_not_convert
  | Some t =>
      let u := Text.rstrip_by Text.is_c_space (Text.lstrip_by Text.is_c_space t) in
      if Text.is_empty u then Raise could_not_convert else of_stripped u
  end.

End Float64.

Abbreviation float := spec_float.

(** ** Python objects and expense dictionaries *)

Inductive value :=
  | VNone
  | VStr (s : string)
  | VInt (n : Z)
  | VFloat (x : float)
  | VEmptyList.

(** [Expense = Dict[str, object]] *)
Abbreviation Expense := (gmap string value).

Definition CSV_HEADERS : list string :=
  ["date"; "category"; "amount"; "description"].

(** ** The world and the computations over it *)

(** A file on disk, seen through the [csv] module: the rows a reader
    yields, the exception (if any) that reading raises after the last of
    them, and the exceptions [open] raises for reading and for writing.
    An entry that is not [file_present] stands for a path that does not
    exist. *)
Record file := File {
  file_present : bool;
  file_rows : list (list string);
  file_fault : option exn;
  file_open_r : option exn;
  file_open_w : option exn
}.

(** [ledger] is the list object that [main] creates and passes to every
    operation as [expenses]; [stdin] holds the lines still to be typed,
    [stdout] what has been written to the console. *)
Record world := World {
  ledger : list Expense;
  stdin : list string;
  stdout : list string;
  disk : gmap string file
}.

Definition py (A : Type) : Type := world -> outcome A * world.

Definition ret {A} (a : A) : py A := fun w => (Ok a, w).

Definition bind {A B} (c : py A) (k : A -> py B) : py B :=
  fun w =>
    match c w with
    | (Ok a, w') => k a w'
    | (Raise e, w') => (Raise e, w')
    end.

Notation "x <- c ;; k" := (bind c (fun x => k))
  (at level 100, c at next level, right associativity).
Notation "c ;; k" := (bind c (fun _ => k))
  (at level 100, right associativity).

Definition raise {A} (e : exn) : py A := fun w => (Raise e, w).

Definition lift {A} (r : outcome A) : py A := fun w => (r, w).

Definition caught (classes : list exn_class) (e : exn) : bool :=
  existsb (exn_class_eqb (exn_type e)) classes.

(** [try: body / except classes: handler] *)
Definition try_except {A} (body : py A) (classes : list exn_class)
    (handler : exn -> py A) : py A :=
  fun w =>
    match body w with
    | (Ok a, w') => (Ok a, w')
    | (Raise e, w') => if caught classes e then handler e w' else (Raise e, w')
    end.

(** *** The console *)

Definition write_stdout (s : string) : py unit :=
  fun w => (Ok tt, World (ledger w) (stdin w) (stdout w ++ [s]) (disk w)).

Definition print (s : string) : py unit := write_stdout (s +:+ Text.newline).

Definition read_line : py string :=
  fun w =>
    match stdin w with
    | [] => (Raise (Exn EOFError "EOF when reading a line"), w)
    | l :: ls => (Ok l, World (ledger w) ls (stdout w) (disk w))
    end.

Definition input (prompt : string) : py string :=
  write_stdout prompt ;; read_line.

(** *** The ledger list *)

Definition get_ledger : py (list Expense) := fun w => (Ok (ledger w), w).

(** [expenses.append(expense)] *)
Definition append_expense (expense : Expense) : py unit :=
  fun w => (Ok tt, World (ledger w ++ [expense]) (stdin w) (stdout w) (disk w)).

(** *** The disk *)

Definition set_file (name : string) (f : file) : py unit :=
  fun w => (Ok tt, World (ledger w) (stdin w) (stdout w) (<[name := f]> (disk w))).

Definition get_file (name : string) : py (option file) :=
  fun w => (Ok (disk w !! name), w).

(** [os.path.exists(name)] *)
Definition path_exists (name : string) : py bool :=
  f <- get_file name ;;
  ret (match f with Some f => file_present f | None => false end).

(** [open(name, "w")]: the file is created or emptied. *)
Definition open_write (name : string) : py unit :=
  f <- get_file name ;;
  match f with
  | Some f =>
      match file_open_w f with
      | Some e => raise e
      | None => set_file name (File true [] None (file_open_r f) None)
      end
  | None => set_file name (File true [] None None None)
  end.

(** [writer.writerow(cells)] on a file opened by [open_write]. *)
Definition write_row (name : string) (cells : list string) : py unit :=
  f <- get_file name ;;
  match f with
  | Some f =>
      set_file name (File (file_present f) (file_rows f ++ [cells])
                       (file_fault f) (file_open_r f) (file_open_w f))
  | None => ret tt
  end.

(** [open(name, "r")] *)
Definition open_read (name : string) : py file :=
  f <- get_file name ;;
  match f with
  | Some f =>
      if file_present f then
        match file_open_r f with
        | Some e => raise e
        | None => ret f
        end
      else raise (Exn OSError "No such file or directory")
  | None => raise (Exn OSError "No such file or directory")
  end.

(** ** The [csv] module, row by row *)

Module Csv.

(** [csv.field_size_limit()] *)
Definition field_size_limit : Z := 131072.

Definition field_fits (cell : string) : bool :=
  Z.of_nat (String.length cell) <=? field_size_limit.

Definition field_too_large : exn :=
  Exn CsvError "field larger than field limit (131072)".

(** What iterating [csv.reader(f)] produces: rows, until a field is
    larger than the limit or the file cannot be read further. *)
Fixpoint reader (rows : list (list string)) (fault : option exn)
    : list (outcome (list string)) :=
  match rows with
  | [] => match fault with Some e => [Raise e] | None => [] end
  | row :: rest =>
      if forallb field_fits row then Ok row :: reader rest fault
      else [Raise field_too_large]
  end.

(** A row of [DictReader]: the cell, or [None], under each field name.
    (Surplus cells go under the key [None], which no string equals.) *)
Definition make_row (fieldnames row : list string) : gmap string (option string) :=
  let d := fold_left (fun d kv => <[kv.1 := Some kv.2]> d) (combine fieldnames row) ∅ in
  fold_left (fun d k => <[k := None]> d) (drop (length row) fieldnames) d.

(** [row.get(key) or ""] *)
Definition get_or_empty (row : gmap string (option string)) (key : string) : string :=
  match row !! key with
  | Some (Some s) => s
  | _ => EmptyString
  end.

End Csv.

(** ** Conversions of objects *)

Section Objects.

(** [repr] of a float, the shortest numeral that reads back as the
    float; the program never inspects its result. *)
Variable float_repr : float -> string.

(** [str(v)] *)
Definition py_str (v : value) : string :=
  match v with
  | VNone => "None"
  | VStr s => s
  | VInt n => (if n <? 0 then "-" else "") +:+ Text.decimal (Z.abs n)
  | VFloat x => float_repr x
  | VEmptyList => "[]"
  end.

(** The text [csv.writer] writes for a field: [None] gives the empty
    text, everything else its [str]. *)
Definition csv_cell (v : value) : string :=
  match v with
  | VNone => EmptyString
  | _ => py_str v
  end.

End Objects.

(** [float(v)] *)
Definition py_float (v : value) : outcome float :=
  match v with
  | VFloat x => Ok x
  | VInt n => Float64.of_int n
  | VStr s => Float64.of_string s
  | VNone | VEmptyList =>
      Raise (Exn TypeError "float() argument must be a string or a real number")
  end.

(** [format(v, ".2f")] *)
Definition py_format_2f (v : value) : outcome string :=
  match v with
  | VFloat x => Ok (Float64.format_2f x)
  | VInt n =>
      match Float64.of_int n with
      | Ok x => Ok (Float64.format_2f x)
      | Raise e => Raise e
      end
  | VStr _ => Raise (Exn ValueError "Unknown format code 'f' for object of type 'str'")
  | VNone | VEmptyList => Raise (Exn TypeError "unsupported format string passed to __format__")
  end.

(** [exp[key]] *)
Definition subscript (exp : Expense) (key : string) : outcome value :=
  match exp !! key with
  | Some v => Ok v
  | None => Raise (Exn KeyError key)
  end.

(** [v in (None, "", [])] *)
Definition is_sentinel (v : value) : bool :=
  match v with
  | VNone | VStr EmptyString | VEmptyList => true
  | _ => false
  end.

(** ** The program *)

Definition is_complete_expense (exp : Expense) : bool :=
  forallb
    (fun k => match exp !! k with
              | Some v => negb (is_sentinel v)
              | None => false
              end)
    ["date"; "category"; "amount"; "description"].

Definition make_expense (date category : string) (amount : float)
    (description : string) : Expense :=
  <["date" := VStr date]> (<["category" := VStr category]>
    (<["amount" := VFloat amount]> (<["description" := VStr description]> ∅))).

(** The [try] block of [add_expense] and [set_budget]: [None] stands for
    the [return] taken after a message was printed. *)
Definition read_positive_amount (amount_str non_positive not_a_number : string)
    : py (option float) :=
  try_except
    (amount <- lift (Float64.of_string amount_str) ;;
     if Float64.leb amount Float64.zero then
       print non_positive ;; ret None
     else ret (Some amount))
    [ValueError]
    (fun _ => print not_a_number ;; ret None).

Definition add_expense : py unit :=
  line <- input "Enter date (YYYY-MM-DD): " ;;
  let date := Text.strip line in
  if negb (is_valid_date date) then
    print "Invalid date format. Please use YYYY-MM-DD."
  else
    line <- input "Enter category (e.g., Food, Travel): " ;;
    let category := Text.strip line in
    if Text.is_empty category then print "Category cannot be empty."
    else
      line <- input "Enter amount spent: " ;;
      let amount_str := Text.strip line in
      parsed <- read_positive_amount amount_str
                  "Amount must be greater than 0."
                  "Amount must be a valid number." ;;
      match parsed with
      | None => ret tt
      | Some amount =>
          line <- input "Enter a brief description: " ;;
          let description := Text.strip line in
          if Text.is_empty description then print "Description cannot be empty."
          else
            append_expense
              (make_expense date category (Float64.round2 amount) description) ;;
            print "Expense added successfully."
      end.

(** The running sum of [total_expenses]. *)
Fixpoint total_loop (expenses : list Expense) (total : float) : py float :=
  match expenses with
  | [] => ret total
  | exp :: rest =>
      if is_complete_expense exp then
        total' <- try_except
                    (amount <- lift (subscript exp "amount") ;;
                     x <- lift (py_float amount) ;;
                     ret (Float64.add total x))
                    [ValueError; TypeError]
                    (fun _ => ret total) ;;
        total_loop rest total'
      else total_loop rest total
  end.

Definition total_expenses : py float :=
  expenses <- get_ledger ;;
  total <- total_loop expenses Float64.zero ;;
  ret (Float64.round2 total).

Definition set_budget : py (option float) :=
  line <- input "Enter monthly budget amount: " ;;
  let budget_str := Text.strip line in
  parsed <- read_positive_amount budget_str
              "Budget must be greater than 0."
              "Budget must be a valid number." ;;
  ret (option_map Float64.round2 parsed).

Definition track_budget (budget : option float) : py (option float) :=
  budget <- match budget with
            | None => print "No budget set yet." ;; set_budget
            | Some b => ret (Some b)
            end ;;
  match budget with
  | None => ret None
  | Some budget =>
      spent <- total_expenses ;;
      print ("Total spent so far: " +:+ Float64.format_2f spent) ;;
      print ("Monthly budget: " +:+ Float64.format_2f budget) ;;
      (if Float64.ltb budget spent then
         print "WARNING: You have exceeded your budget!"
       else
         let remaining := Float64.round2 (Float64.sub budget spent) in
         print ("You have " +:+ Float64.format_2f remaining +:+ " left for the month.")) ;;
      ret (Some budget)
  end.

(** The body of the loop of [load_expenses]: the record of an accepted
    row, [None] for a row passed over with [continue]. *)
Definition load_row (row : gmap string (option string)) : option Expense :=
  let date := Text.strip (Csv.get_or_empty row "date") in
  let category := Text.strip (Csv.get_or_empty row "category") in
  let amount_str := Text.strip (Csv.get_or_empty row "amount") in
  let description := Text.strip (Csv.get_or_empty row "description") in
  if negb (negb (Text.is_empty date) && negb (Text.is_empty category)
           && negb (Text.is_empty amount_str) && negb (Text.is_empty description))
  then None
  else if negb (is_valid_date date) then None
  else
    match Float64.of_string amount_str with
    | Raise _ => None
    | Ok amount =>
        Some (make_expense date category (Float64.round2 amount) description)
    end.

(** [for row in reader] over the rows after the header: the list built
    so far and the exception that ended the loop, if one did. *)
Fixpoint load_loop (fieldnames : list string)
    (rows : list (outcome (list string))) (expenses : list Expense)
    : list Expense * option exn :=
  match rows with
  | [] => (expenses, None)
  | Raise e :: _ => (expenses, Some e)
  | Ok [] :: rest => load_loop fieldnames rest expenses
  | Ok cells :: rest =>
      match load_row (Csv.make_row fieldnames cells) with
      | Some exp => load_loop fieldnames rest (expenses ++ [exp])
      | None => load_loop fieldnames rest expenses
      end
  end.

(** [csv.DictReader]: the first row gives the field names. *)
Definition load_rows (rows : list (outcome (list string)))
    : list Expense * option exn :=
  match rows with
  | [] => ([], None)
  | Raise e :: _ => ([], Some e)
  | Ok fieldnames :: rest => load_loop fieldnames rest []
  end.

Definition load_expenses (filename : string) : py (list Expense) :=
  found <- path_exists filename ;;
  if negb found then ret []
  else
    fun w =>
      match open_read filename w with
      | (Raise e, w') =>
          (print ("Failed to load expenses: " +:+ exn_text e) ;; ret []) w'
      | (Ok f, w') =>
          match load_rows (Csv.reader (file_rows f) (file_fault f)) with
          | (expenses, Some e) =>
              (print ("Failed to load expenses: " +:+ exn_text e) ;; ret expenses) w'
          | (expenses, None) => ret expenses w'
          end
      end.

Definition is_nil {A} (l : list A) : bool :=
  match l with [] => true | _ => false end.

Section Rendering.

Variable float_repr : float -> string.

(** The loop of [view_expenses]; returns [shown]. *)
Fixpoint view_loop (idx : Z) (expenses : list Expense) (shown : Z) : py Z :=
  match expenses with
  | [] => ret shown
  | exp :: rest =>
      if negb (is_complete_expense exp) then
        print ("Skipping incomplete entry at index " +:+ py_str float_repr (VInt idx) +:+ ".") ;;
        view_loop (idx + 1) rest shown
      else
        date <- lift (subscript exp "date") ;;
        category <- lift (subscript exp "category") ;;
        amount <- lift (subscript exp "amount") ;;
        amount_text <- lift (py_format_2f amount) ;;
        description <- lift (subscript exp "description") ;;
        print (py_str float_repr (VInt idx) +:+ ". Date: " +:+ py_str float_repr date
               +:+ " | Category: " +:+ py_str float_repr category
               +:+ " | Amount: " +:+ amount_text
               +:+ " | Description: " +:+ py_str float_repr description) ;;
        view_loop (idx + 1) rest (shown + 1)
  end.

Definition view_expenses : py unit :=
  expenses <- get_ledger ;;
  if is_nil expenses then print "No expenses recorded yet."
  else
    print (Text.newline +:+ "--- All Expenses ---") ;;
    shown <- view_loop 1 expenses 0 ;;
    if shown =? 0 then print "No complete expense entries to display."
    else ret tt.

(** The loop of [save_expenses]. *)
Fixpoint save_loop (filename : string) (expenses : list Expense) : py unit :=
  match expenses with
  | [] => ret tt
  | exp :: rest =>
      if negb (is_complete_expense exp) then save_loop filename rest
      else
        date <- lift (subscript exp "date") ;;
        category <- lift (subscript exp "category") ;;
        amount <- lift (subscript exp "amount") ;;
        x <- lift (py_float amount) ;;
        description <- lift (subscript exp "description") ;;
        write_row filename
          [csv_cell float_repr date; csv_cell float_repr category;
           Float64.format_2f x; csv_cell float_repr description] ;;
        save_loop filename rest
  end.

Definition save_expenses (filename : string) : py unit :=
  open_write filename ;;
  write_row filename CSV_HEADERS ;;
  expenses <- get_ledger ;;
  save_loop filename expenses ;;
  print ("Expenses saved to " +:+ filename).

End Rendering.

Definition show_menu : py unit :=
  print (Text.newline +:+ "=== Personal Expense Tracker ===") ;;
  print "1. Add expense" ;;
  print "2. View expenses" ;;
  print "3. Track budget" ;;
  print "4. Save expenses" ;;
  print "5. Exit".

(** [expenses = load_expenses(...)]: the loaded list becomes the ledger. *)
Definition set_ledger (expenses : list Expense) : py unit :=
  fun w => (Ok tt, World expenses (stdin w) (stdout w) (disk w)).

Section Main.

Variable float_repr : float -> string.

(** The branches of the menu: [None] after [break], otherwise the budget
    for the next pass. *)
Definition menu_choice (budget : option float) (choice : string)
    : py (option (option float)) :=
  if String.eqb choice "1" then add_expense ;; ret (Some budget)
  else if String.eqb choice "2" then view_expenses float_repr ;; ret (Some budget)
  else if String.eqb choice "3" then
    budget' <- track_budget budget ;; ret (Some budget')
  else if String.eqb choice "4" then
    save_expenses float_repr "expenses.csv" ;; ret (Some budget)
  else if String.eqb choice "5" then
    save_expenses float_repr "expenses.csv" ;; print "Goodbye!" ;; ret None
  else
    print "Invalid option. Please enter a number from 1 to 5." ;;
    ret (Some budget).

(** One pass through the body of [while True]. *)
Definition menu_pass (budget : option float) : py (option (option float)) :=
  show_menu ;;
  line <- input "Choose an option (1-5): " ;;
  menu_choice budget (Text.strip line).

(** [while True], bounded by [fuel] passes; [None] when the passes run
    out before the loop ends. *)
Fixpoint main_loop (fuel : nat) (budget : option float) (w : world)
    : option (outcome unit * world) :=
  match fuel with
  | O => None
  | S fuel' =>
      match menu_pass budget w with
      | (Ok None, w') => Some (Ok tt, w')
      | (Ok (Some budget'), w') => main_loop fuel' budget' w'
      | (Raise e, w') => Some (Raise e, w')
      end
  end.

(** [main]: every pass reads a line, so one pass more than there are
    lines to read is enough. *)
Definition main (w : world) : option (outcome unit * world) :=
  match (expenses <- load_expenses "expenses.csv" ;;
         set_ledger expenses ;;
         if is_nil expenses then ret tt
         else print ("Loaded " +:+ py_str float_repr (VInt (Z.of_nat (length expenses)))
                     +:+ " expense(s) from expenses.csv")) w with
  | (Ok _, w') => main_loop (S (length (stdin w'))) None w'
  | (Raise e, w') => Some (Raise e, w')
  end.

End Main.

(** * The claims, in the terms of the embedding *)

(** ** Dates *)

Module DateText.

(** The numerals [f lo], ..., [f hi]. *)
Definition numerals (f : Z -> string) (lo hi : Z) : list string :=
  map f (seqZ lo (hi - lo + 1)).

(** Months and days written with exactly two digits. *)
Definition months_two_digit : list string := numerals Text.two_digits 1 12.
Definition days_two_digit : list string := numerals Text.two_digits 1 31.

(** Months and days as [strptime] reads them: a leading zero is optional,
    and a day below ten may follow a blank. *)
Definition months_lenient : list string :=
  numerals Text.decimal 1 9 ++ months_two_digit.
Definition days_lenient : list string :=
  numerals Text.decimal 1 9
  ++ numerals (fun n => " " +:+ Text.decimal n) 1 9
  ++ days_two_digit.

(** The ASCII digits. *)
Definition ascii_digit (c : N) : bool := ((48 <=? c) && (c <=? 57))%N.

(** Four digits of the given kind. *)
Definition year_numeral (digit : N -> bool) (t : Unicode.text) : Prop :=
  length t = 4%nat /\ forallb digit t = true.

(** One of the given numerals. *)
Definition one_of (numerals : list string) (t : Unicode.text) : Prop :=
  In t (map Unicode.points numerals).

(** A day from 10 to 29 whose second digit is a decimal digit of any
    script. *)
Definition wide_day (t : Unicode.text) : Prop :=
  exists a b,
    t = [a; b] /\ (a = Text.code "1" \/ a = Text.code "2")
    /\ Unicode.is_decimal b = true.

Definition numeral_value (t : Unicode.text) : Z :=
  Unicode.digits_value (Unicode.skip_spaces t).

(** A day of the proleptic Gregorian calendar, years 1 to 9999. *)
Definition real_date (y m d : Z) : Prop :=
  1 <= y <= 9999 /\ 1 <= m <= 12 /\ 1 <= d <= Strptime.days_in_month y m.

(** [s] is year, month and day joined by hyphens, each of the given
    form, and names a real date. *)
Definition date_text (year month day : Unicode.text -> Prop) (s : Unicode.text)
    : Prop :=
  exists ty tm td,
    s = ty ++ Text.code "-" :: tm ++ Text.code "-" :: td
    /\ year ty /\ month tm /\ day td
    /\ real_date (numeral_value ty) (numeral_value tm) (numeral_value td).

(** Strict [YYYY-MM-DD]: four, two and two ASCII digits. *)
Definition strict_date : Unicode.text -> Prop :=
  date_text (year_numeral ascii_digit) (one_of months_two_digit)
    (one_of days_two_digit).

(** What [strptime] takes for ["%Y-%m-%d"]: the year is four decimal
    digits of any script, the month is in ASCII, the day is in ASCII or
    is a day from 10 to 29 with a second digit of any script. *)
Definition lenient_date : Unicode.text -> Prop :=
  date_text (year_numeral Unicode.is_decimal) (one_of months_lenient)
    (fun t => one_of days_lenient t \/ wide_day t).

End DateText.

(** ** Entering an expense *)

Module Entry.

Definition msg_date : string := "Invalid date format. Please use YYYY-MM-DD.".
Definition msg_category : string := "Category cannot be empty.".
Definition msg_not_number : string := "Amount must be a valid number.".
Definition msg_not_positive : string := "Amount must be greater than 0.".
Definition msg_description : string := "Description cannot be empty.".

Definition date_ok (line : string) : Prop :=
  is_valid_date (Text.strip line) = true.
Definition text_ok (line : string) : Prop := Text.strip line <> "".
(** The amount is numeric and not [<= 0]. *)
Definition amount_ok (line : string) (x : float) : Prop :=
  Float64.of_string (Text.strip line) = Ok x
  /\ Float64.leb x Float64.zero = false.

(** [rejected lines reason]: the first validation step that fails on
    the typed lines, and the message it prints. *)
Inductive rejected : list string -> string -> Prop :=
  | rej_date l1 rest :
      ~ date_ok l1 -> rejected (l1 :: rest) msg_date
  | rej_category l1 l2 rest :
      date_ok l1 -> ~ text_ok l2 -> rejected (l1 :: l2 :: rest) msg_category
  | rej_not_number l1 l2 l3 rest :
      date_ok l1 -> text_ok l2 ->
      (forall x, Float64.of_string (Text.strip l3) <> Ok x) ->
      rejected (l1 :: l2 :: l3 :: rest) msg_not_number
  | rej_not_positive l1 l2 l3 rest x :
      date_ok l1 -> text_ok l2 ->
      Float64.of_string (Text.strip l3) = Ok x ->
      Float64.leb x Float64.zero = true ->
      rejected (l1 :: l2 :: l3 :: rest) msg_not_positive
  | rej_description l1 l2 l3 l4 rest x :
      date_ok l1 -> text_ok l2 -> amount_ok l3 x -> ~ text_ok l4 ->
      rejected (l1 :: l2 :: l3 :: l4 :: rest) msg_description.

(** [accepted lines exp rest]: every step succeeds on the first four
    lines, [exp] is the record they describe. *)
Inductive accepted : list string -> Expense -> list string -> Prop :=
  | acc_all l1 l2 l3 l4 rest x :
      date_ok l1 -> text_ok l2 -> amount_ok l3 x -> text_ok l4 ->
      accepted (l1 :: l2 :: l3 :: l4 :: rest)
        (make_expense (Text.strip l1) (Text.strip l2) (Float64.round2 x)
           (Text.strip l4))
        rest.

End Entry.

(** ** What an operation leaves alone *)

(** [respects R c]: every run of [c] ends in a world related by [R] to
    the world it started in, whether it returns or raises. *)
Definition respects (R : world -> world -> Prop) {A} (c : py A) : Prop :=
  forall w, R w (c w).2.

(** The ledger holds the same records in the same order. *)
Definition same_ledger (w w' : world) : Prop := ledger w' = ledger w.

(** No typed line has been put back. *)
Definition stdin_not_longer (w w' : world) : Prop :=
  (length (stdin w') <= length (stdin w))%nat.

(** A ledger that the program itself has built: loaded from a file, then
    extended by [add_expense]. *)
Inductive built_by_program : list Expense -> Prop :=
  | built_load filename w expenses w' :
      load_expenses filename w = (Ok expenses, w') ->
      built_by_program expenses
  | built_add w r w' :
      built_by_program (ledger w) ->
      add_expense w = (r, w') ->
      built_by_program (ledger w').

(** The world after [load_expenses] has reported a failure to read. *)
Definition load_warning (e : exn) (w : world) : world :=
  World (ledger w) (stdin w)
    (stdout w ++ [("Failed to load expenses: " +:+ exn_text e) +:+ Text.newline])
    (disk w).

(** ** Loading *)

Module Loading.

Abbreviation dict_row := (gmap string (option string)).

(** The text of a column of a data row, blanks trimmed. *)
Definition column (row : dict_row) (name : string) : string :=
  Text.strip (Csv.get_or_empty row name).

(** A data row is accepted: four non-empty columns, a valid date, an
    amount that parses as a number. *)
Definition accepts (row : dict_row) : Prop :=
  column row "date" <> "" /\ column row "category" <> ""
  /\ column row "amount" <> "" /\ column row "description" <> ""
  /\ is_valid_date (column row "date") = true
  /\ exists x, Float64.of_string (column row "amount") = Ok x.

(** The record made of an accepted row. *)
Inductive record_of (row : dict_row) : Expense -> Prop :=
  | record_of_row x :
      Float64.of_string (column row "amount") = Ok x ->
      record_of row
        (make_expense (column row "date") (column row "category")
           (Float64.round2 x) (column row "description")).

(** [loaded rows expenses]: [expenses] are the records of the accepted
    rows among [rows], in order; the other rows are passed over. *)
Inductive loaded : list dict_row -> list Expense -> Prop :=
  | loaded_nil : loaded [] []
  | loaded_accept row rows exp exps :
      accepts row -> record_of row exp -> loaded rows exps ->
      loaded (row :: rows) (exp :: exps)
  | loaded_discard row rows exps :
      ~ accepts row -> loaded rows exps -> loaded (row :: rows) exps.

(** The data rows of a file: the rows after the header that are not
    blank, read under the header's field names. *)
Definition data_rows (rows : list (list string)) : list dict_row :=
  match rows with
  | [] => []
  | header :: rest =>
      map (Csv.make_row header) (List.filter (fun cells => negb (is_nil cells)) rest)
  end.

(** The file exists and can be opened for reading. *)
Definition readable (f : file) : Prop :=
  file_present f = true /\ file_open_r f = None.

(** No field is larger than the limit of the [csv] module. *)
Definition fields_fit (rows : list (list string)) : Prop :=
  Forall (Forall (fun cell => Csv.field_fits cell = true)) rows.

(** The header of the program's own files, one row in order and one row
    without a category. *)
Definition sample_rows : list (list string) :=
  [CSV_HEADERS;
   ["2024-03-01"; "Food"; "12.50"; "Lunch with client"];
   ["2024-03-02"; ""; "3.00"; "Bus"]].

Definition sample_file : file := File true sample_rows None None None.

(** The same file, with bytes after the rows that cannot be decoded. *)
Definition torn_file : file :=
  File true sample_rows (Some (Exn UnicodeDecodeError "invalid start byte")) None None.

End Loading.

(** ** Saving *)

(** A world whose [expenses.csv] cannot be opened for writing, with the
    choices 4 (save), 2 (view) and 5 (exit) typed. *)
Definition denied : exn := Exn OSError "[Errno 13] Permission denied: 'expenses.csv'".

Definition read_only_world : world :=
  World [] ["4"; "2"; "5"] []
    {["expenses.csv" := File true [CSV_HEADERS] None None (Some denied)]}.


(** ** Floats that are binary64 values *)

Module FloatFacts.

(** The exponent of a finite value is not below the smallest one.  Every
    valid binary64 value has this property, and sums keep it. *)
Definition above_emin (x : float) : Prop :=
  match x with
  | S754_finite _ _ e => Float64.emin <= e
  | _ => True
  end.

Definition neg_zero : float := S754_zero true.

(** A positive mantissa never rounds to a zero or a NaN. *)
Definition rounded_from (s : bool) (x : float) : Prop :=
  match x with
  | S754_finite s' _ e => s' = s /\ Float64.emin <= e
  | S754_infinity s' => s' = s
  | _ => False
  end.

End FloatFacts.

(** ** Totals *)

Module Totals.

(** [float(exp["amount"])] *)
Definition coerced (exp : Expense) : outcome float :=
  match subscript exp "amount" with
  | Ok v => py_float v
  | Raise e => Raise e
  end.

(** What a complete record adds to the sum, as the specification states
    it: its amount as a number, and 0 when the coercion fails. *)
Definition contribution (exp : Expense) : float :=
  match coerced exp with
  | Ok x => x
  | Raise _ => Float64.zero
  end.

Definition float_sum (xs : list float) : float :=
  fold_left Float64.add xs Float64.zero.

(** The total as the specification describes it. *)
Definition specified_total (expenses : list Expense) : float :=
  Float64.round2
    (float_sum (map contribution (List.filter is_complete_expense expenses))).

(** [exp] is complete and the coercion of its amount raises [e], an
    exception that [total_expenses] does not catch. *)
Definition aborts (exp : Expense) (e : exn) : Prop :=
  is_complete_expense exp = true
  /\ coerced exp = Raise e
  /\ caught [ValueError; TypeError] e = false.

(** The floats stored as amounts are binary64 values. *)
Definition amounts_valid (expenses : list Expense) : Prop :=
  forall exp x,
    In exp expenses -> exp !! "amount" = Some (VFloat x) ->
    Float64.valid x = true.

(** A ledger with one record whose amount is the integer [10^400]. *)
Definition huge_amount : Expense :=
  <["date" := VStr "2024-03-01"]> (<["category" := VStr "Food"]>
    (<["amount" := VInt (10 ^ 400)]> (<["description" := VStr "Lunch"]> ∅))).

End Totals.

(** ** Budget *)

Module Budget.

Inductive verdict :=
  | WithinBudget (remaining : float)
  | Exceeded.

(** The line [track_budget] prints for a verdict. *)
Definition verdict_line (v : verdict) : string :=
  match v with
  | WithinBudget remaining =>
      "You have " +:+ Float64.format_2f remaining +:+ " left for the month."
  | Exceeded => "WARNING: You have exceeded your budget!"
  end.

(** The three lines of a report. *)
Definition report (spent budget : float) (v : verdict) : list string :=
  [("Total spent so far: " +:+ Float64.format_2f spent) +:+ Text.newline;
   ("Monthly budget: " +:+ Float64.format_2f budget) +:+ Text.newline;
   verdict_line v +:+ Text.newline].

Definition printed (w : world) (lines : list string) : world :=
  World (ledger w) (stdin w) (stdout w ++ lines) (disk w).

(** [100.00] and [100.01] as binary64 values. *)
Definition f_100_00 : float := S754_finite false 7036874417766400 (-46).
Definition f_100_01 : float := S754_finite false 7037578105208177 (-46).

Definition ledger_of (amount : float) : list Expense :=
  [make_expense "2024-03-01" "Food" amount "Lunch"].

End Budget.

(** ** Complete records *)

Definition complete (exp : Expense) : Prop := is_complete_expense exp = true.

(** ** Values of binary64 floats *)

Module FloatValue.

(** The value [m * 2^e] in units of [2^emin], an integer for every
    exponent from [emin] on. *)
Definition scaled (m e : Z) : Z := m * 2 ^ (e - Float64.emin).

(** [2^(-emin)]: the value 1 in these units. *)
Definition unit : Z := 2 ^ (- Float64.emin).

(** Mantissa and exponent of a canonical binary64 value. *)
Definition canonical (m e : Z) : Prop :=
  Float64.emin <= e <= Float64.emax - Float64.prec
  /\ 0 < m < 2 ^ Float64.prec
  /\ (Float64.emin < e -> 2 ^ (Float64.prec - 1) <= m).

End FloatValue.

(** ** Texts of numbers *)

Module NumberText.

Fixpoint all_chars (p : ascii -> bool) (s : string) : bool :=
  match s with
  | EmptyString => true
  | String c s' => p c && all_chars p s'
  end.

(** An ASCII character other than the underscore. *)
Definition plain (c : ascii) : bool :=
  (Text.code c <? 127)%N && negb (Ascii.eqb c "_").

(** A numeral with an integer part and two decimals. *)
Definition numeral (s : bool) (ip : string) (d1 d2 : ascii) : string :=
  Float64.sign_text s +:+ ip +:+ String "." (String d1 (String d2 "")).

End NumberText.

(** ** Saving and reading back *)

Module RoundTrip.

(** A record that can be written and read: a valid date, a category and
    a description that are not blank, none of them with blanks around
    it, and an amount that [float()] turns into the binary64 value
    [amount]. *)
Definition entered (exp : Expense) (date category : string) (amount : float)
    (description : string) : Prop :=
  exp !! "date" = Some (VStr date)
  /\ exp !! "category" = Some (VStr category)
  /\ (exists v, exp !! "amount" = Some v /\ py_float v = Ok amount)
  /\ exp !! "description" = Some (VStr description)
  /\ is_valid_date date = true /\ Text.strip date = date
  /\ category <> "" /\ Text.strip category = category
  /\ description <> "" /\ Text.strip description = description
  /\ Float64.valid amount = true.

(** A record as [add_expense] and [load_expenses] make them. *)
Definition made (exp : Expense) : Prop :=
  exists date category amount description,
    exp = make_expense date category amount description
    /\ entered exp date category amount description
    /\ Float64.round2 amount = amount.

(** The file holds no field larger than the limit of the [csv] module
    and may be opened for reading. *)
Definition can_be_read_back (filename : string) (w : world) : Prop :=
  forall f,
    disk w !! filename = Some f ->
    file_open_r f = None /\ Loading.fields_fit (file_rows f).

(** A complete record with a positive amount whose category starts
    with a blank. *)
Definition padded : Expense :=
  make_expense "2024-03-01" " Food" (S754_finite false 7036874417766400 (-49)) "Lunch".

(** A complete record with a positive amount whose date is no date. *)
Definition undated : Expense :=
  make_expense "tomorrow" "Rent" (S754_finite false 7036874417766400 (-43)) "Flat".

Section Rows.

Variable float_repr : float -> string.

(** The row [save_expenses] writes for a complete record. *)
Definition row_of (exp : Expense) : outcome (list string) :=
  match subscript exp "date" with
  | Raise e => Raise e
  | Ok date =>
  match subscript exp "category" with
  | Raise e => Raise e
  | Ok category =>
  match subscript exp "amount" with
  | Raise e => Raise e
  | Ok amount =>
  match py_float amount with
  | Raise e => Raise e
  | Ok x =>
  match subscript exp "description" with
  | Raise e => Raise e
  | Ok description =>
      Ok [csv_cell float_repr date; csv_cell float_repr category;
          Float64.format_2f x; csv_cell float_repr description]
  end end end end end.

(** The rows written for a ledger, while no row raises. *)
Fixpoint rows_of (expenses : list Expense) : outcome (list (list string)) :=
  match expenses with
  | [] => Ok []
  | exp :: rest =>
      if is_complete_expense exp then
        match row_of exp with
        | Raise e => Raise e
        | Ok row =>
            match rows_of rest with
            | Ok rows => Ok (row :: rows)
            | Raise e => Raise e
            end
        end
      else rows_of rest
  end.

End Rows.

End RoundTrip.

(** ** What a run leaves behind *)

Module Trace.

(** The disk is as it was. *)
Definition same_disk (w w' : world) : Prop := disk w' = disk w.

(** Every file but [filename] is as it was. *)
Definition other_files (filename : string) (w w' : world) : Prop :=
  forall name, name <> filename -> disk w' !! name = disk w !! name.

(** What was printed is still there, in front of what was added. *)
Definition stdout_grows (w w' : world) : Prop :=
  exists more, stdout w' = stdout w ++ more.

(** The lines still to be read are the last of those there were. *)
Definition stdin_consumed (w w' : world) : Prop :=
  exists taken, stdin w = taken ++ stdin w'.

(** The ledger holds the records it held, in front of those added. *)
Definition ledger_grows (w w' : world) : Prop :=
  exists added, ledger w' = ledger w ++ added.

End Trace.

(** ** Saving *)

Module Saving.

(** [open(filename, "w")] will succeed: the path is free, or the file
    there may be written. *)
Definition writable (filename : string) (w : world) : Prop :=
  match disk w !! filename with
  | Some f => file_open_w f = None
  | None => True
  end.

(** The file that [save_expenses] leaves when it has written [rows]
    after the header. *)
Definition saved_file (filename : string) (w : world) (rows : list (list string))
    : file :=
  File true (CSV_HEADERS :: rows) None
    (match disk w !! filename with
     | Some f => file_open_r f
     | None => None
     end) None.

(** A complete record whose amount is a text that is no number. *)
Definition unreadable_amount : Expense :=
  <["amount" := VStr "a lot"]> (make_expense "2024-03-02" "Rent" Float64.zero "Flat").

End Saving.

(** ** Outcomes *)

(** The error of [input()] at the end of the input. *)
Definition end_of_input : exn := Exn EOFError "EOF when reading a line".

(** ** The listing of [view_expenses] *)

Module Listing.

Definition heading : string := Text.newline +:+ "--- All Expenses ---".

(** The line of the record at position [idx]. *)
Definition line (idx : Z) (date category : string) (amount : float)
    (description : string) : string :=
  Text.decimal idx +:+ ". Date: " +:+ date +:+ " | Category: " +:+ category
  +:+ " | Amount: " +:+ Float64.format_2f amount
  +:+ " | Description: " +:+ description.

Definition skipped (idx : Z) : string :=
  "Skipping incomplete entry at index " +:+ Text.decimal idx +:+ ".".

(** [listing idx expenses lines shown]: the lines printed for [expenses],
    the first of them at position [idx], and the number of records
    shown.  A record with four texts and a float is shown, a record that
    is not complete is passed over with a message. *)
Inductive listing : Z -> list Expense -> list string -> Z -> Prop :=
  | listing_end idx : listing idx [] [] 0
  | listing_skip idx exp rest lines shown :
      is_complete_expense exp = false ->
      listing (idx + 1) rest lines shown ->
      listing idx (exp :: rest) ((skipped idx +:+ Text.newline) :: lines) shown
  | listing_show idx date category amount description rest lines shown :
      date <> "" -> category <> "" -> description <> "" ->
      listing (idx + 1) rest lines shown ->
      listing idx (make_expense date category amount description :: rest)
        ((line idx date category amount description +:+ Text.newline) :: lines)
        (shown + 1).

(** The line of a record, from its position and the texts of its four
    fields. *)
Definition entry (idx : Z) (date category amount description : string)
    : string :=
  Text.decimal idx +:+ ". Date: " +:+ date +:+ " | Category: " +:+ category
  +:+ " | Amount: " +:+ amount +:+ " | Description: " +:+ description.

(** The [.2f] format takes the amount of [exp]: a float, or an integer
    that a float can hold. *)
Definition formats (exp : Expense) : Prop :=
  exists v text, exp !! "amount" = Some v /\ py_format_2f v = Ok text.

(** [printed float_repr idx expenses lines]: the lines printed for
    [expenses], the first of them at position [idx].  A complete record
    is shown with the [str] of its date, category and description and
    its amount in [.2f]; a record that is not complete is passed over
    with a message. *)
Inductive printed (float_repr : float -> string)
    : Z -> list Expense -> list string -> Prop :=
  | printed_end idx : printed float_repr idx [] []
  | printed_skip idx exp rest lines :
      is_complete_expense exp = false ->
      printed float_repr (idx + 1) rest lines ->
      printed float_repr idx (exp :: rest)
        ((skipped idx +:+ Text.newline) :: lines)
  | printed_show idx exp date category amount description text rest lines :
      is_complete_expense exp = true ->
      exp !! "date" = Some date ->
      exp !! "category" = Some category ->
      exp !! "amount" = Some amount ->
      exp !! "description" = Some description ->
      py_format_2f amount = Ok text ->
      printed float_repr (idx + 1) rest lines ->
      printed float_repr idx (exp :: rest)
        ((entry idx (py_str float_repr date) (py_str float_repr category) text
            (py_str float_repr description) +:+ Text.newline) :: lines).

(** The end of the listing: a message when no record is complete. *)
Definition closing (expenses : list Expense) : list string :=
  if is_nil (List.filter is_complete_expense expenses)
  then ["No complete expense entries to display." +:+ Text.newline]
  else [].

End Listing.

(** ** The ways [main] ends *)

Module Session.

(** [expenses.csv] holds the header and the rows of the ledger. *)
Definition saved (float_repr : float -> string) (w : world) : Prop :=
  exists rows f,
    RoundTrip.rows_of float_repr (ledger w) = Ok rows
    /\ disk w !! "expenses.csv" = Some f
    /\ file_present f = true
    /\ file_rows f = CSV_HEADERS :: rows
    /\ file_fault f = None.

(** [main] has said goodbye after saving; or the input has run out; or
    [expenses.csv] could not be opened for writing. *)
Definition ending (float_repr : float -> string) (r : outcome unit) (w : world)
    : Prop :=
  match r with
  | Ok _ =>
      last (stdout w) = Some ("Goodbye!" +:+ Text.newline) /\ saved float_repr w
  | Raise e =>
      (e = end_of_input /\ stdin w = [])
      \/ (exists f, disk w !! "expenses.csv" = Some f /\ file_open_w f = Some e)
  end.

End Session.

(** ** Files that are not the program's own *)

Module Foreign.

(** A file whose header has no column for the description. *)
Definition no_description : file :=
  File true
    [["date"; "category"; "amount"];
     ["2024-03-01"; "Food"; "12.50"]]
    None None None.

(** A file of the program with a comment after the fourth cell. *)
Definition with_comment : file :=
  File true
    [CSV_HEADERS;
     ["2024-03-01"; "Food"; "12.50"; "Lunch"; "with a client"]]
    None None None.

Definition without_comment : file :=
  File true
    [CSV_HEADERS;
     ["2024-03-01"; "Food"; "12.50"; "Lunch"]]
    None None None.

End Foreign.

(** * Properties *)

#[local] Arguments String.append !_ _ / : simpl nomatch.

Import Regex.

(** ** Characters *)

Ltac each_ascii c :=
  destruct c as [[] [] [] [] [] [] [] []].

Lemma is_digit_cases c :
  Text.is_digit c = true -> In c (list_ascii_of_string "0123456789").
Proof. each_ascii c; intros H; try discriminate H; simpl; tauto. Qed.

(** The code points of a class [[lo-hi]]. *)
Lemma range_cases (lo hi c : N) :
  ((lo <=? c) && (c <=? hi))%N = true ->
  In c (map N.of_nat (seq (N.to_nat lo) (S (N.to_nat hi) - N.to_nat lo))).
Proof.
  intros H. apply andb_true_iff in H as [H1 H2]. apply N.leb_le in H1, H2.
  apply in_map_iff. exists (N.to_nat c). split; [apply N2Nat.id|].
  apply in_seq. lia.
Qed.

(** ** Decimal digits *)

Lemma decimal_zero_spec c z :
  Unicode.decimal_zero c = Some z -> (z <= c <= z + 9)%N.
Proof.
  unfold Unicode.decimal_zero. intros H. apply find_some in H as [_ H].
  apply andb_true_iff in H as [H1 H2]. apply N.leb_le in H1, H2. lia.
Qed.

Lemma decimal_value_range c : 0 <= Unicode.decimal_value c <= 9.
Proof.
  unfold Unicode.decimal_value.
  destruct (Unicode.decimal_zero c) as [z|] eqn:E; [|lia].
  apply decimal_zero_spec in E. lia.
Qed.

(** Below 256 the decimal digits are the ASCII digits. *)
Lemma decimal_below_256 c :
  Unicode.is_decimal c = true -> (c < 256)%N -> DateText.ascii_digit c = true.
Proof.
  unfold Unicode.is_decimal, DateText.ascii_digit.
  destruct (Unicode.decimal_zero c) as [z|] eqn:E; [|discriminate].
  intros _ L. pose proof (decimal_zero_spec c z E) as B.
  unfold Unicode.decimal_zero in E. apply find_some in E as [I _].
  assert (Z48 : z = 48%N).
  { cbv [Unicode.decimal_zeros] in I. cbn [In] in I.
    destruct I as [I|I]; [now symmetry|].
    exfalso. repeat (destruct I as [I|I]; [lia|]). exact I. }
  subst z. apply andb_true_iff. split; apply N.leb_le; lia.
Qed.

Lemma ascii_digit_decimal c :
  DateText.ascii_digit c = true -> Unicode.is_decimal c = true.
Proof.
  intros H. apply range_cases in H. vm_compute in H.
  repeat (destruct H as [<-|H]; [reflexivity|]). contradiction.
Qed.

(** ** The matcher finds only texts of the language *)

Lemma append_assoc (a b c : string) : (a +:+ b) +:+ c = a +:+ (b +:+ c).
Proof. induction a as [|x a IH]; simpl; [reflexivity | now rewrite IH]. Qed.

Lemma exec_sound {R} (r : regex) :
  forall s caps
    (k : Unicode.text -> Unicode.text -> list Unicode.text -> option R) x,
    exec r s caps k = Some x ->
    exists t rest caps',
      s = t ++ rest /\ matches r t caps caps' /\ k t rest caps' = Some x.
Proof.
  induction r; intros s caps k x H; simpl in H.
  - exists [], s, caps. repeat split; auto. constructor.
  - destruct s as [|c' s']; [discriminate|].
    destruct (N.eqb_spec c c'); [subst|discriminate].
    exists [c'], s', caps. repeat split; auto. constructor.
  - destruct s as [|c' s']; [discriminate|].
    destruct (p c') eqn:Hp; [|discriminate].
    exists [c'], s', caps. repeat split; auto. now constructor.
  - apply IHr1 in H as (t1 & s1 & c1 & -> & M1 & H).
    apply IHr2 in H as (t2 & s2 & c2 & -> & M2 & H).
    exists (t1 ++ t2), s2, c2. rewrite <- app_assoc. repeat split; auto.
    econstructor; eauto.
  - destruct (exec r1 s caps k) eqn:E1.
    + inversion H; subst. apply IHr1 in E1 as (t & rest & c' & -> & M & K).
      exists t, rest, c'. repeat split; auto. now apply m_alt_l.
    + apply IHr2 in H as (t & rest & c' & -> & M & K).
      exists t, rest, c'. repeat split; auto. now apply m_alt_r.
  - apply IHr in H as (t & rest & c' & -> & M & K).
    exists t, rest, (c' ++ [t]). repeat split; auto. now constructor.
Qed.

Lemma matches_cat_inv r1 r2 t c0 c2 :
  matches (Cat r1 r2) t c0 c2 ->
  exists t1 t2 c1, t = t1 ++ t2 /\ matches r1 t1 c0 c1 /\ matches r2 t2 c1 c2.
Proof. inversion 1; subst; eauto 7. Qed.

Lemma matches_alt_inv r1 r2 t c0 c1 :
  matches (Alt r1 r2) t c0 c1 -> matches r1 t c0 c1 \/ matches r2 t c0 c1.
Proof. inversion 1; subst; auto. Qed.

Lemma matches_group_inv r t c0 c :
  matches (Group r) t c0 c -> exists c1, c = c1 ++ [t] /\ matches r t c0 c1.
Proof. inversion 1; subst; eauto. Qed.

Lemma matches_lit_inv a t c0 c1 :
  matches (Lit a) t c0 c1 -> t = [a] /\ c1 = c0.
Proof. inversion 1; subst; auto. Qed.

Lemma matches_class_inv p t c0 c1 :
  matches (Class p) t c0 c1 -> exists c, t = [c] /\ p c = true /\ c1 = c0.
Proof. inversion 1; subst; eauto. Qed.

(** Take a [matches] hypothesis of a concrete expression apart. *)
Ltac split_match :=
  repeat match goal with
  | H : matches (Cat _ _) _ _ _ |- _ =>
      apply matches_cat_inv in H as (? & ? & ? & -> & ? & ?)
  | H : matches (Group _) _ _ _ |- _ =>
      apply matches_group_inv in H as (? & -> & ?)
  | H : matches (Lit _) _ _ _ |- _ =>
      apply matches_lit_inv in H as [-> ->]
  | H : matches (char _) _ _ _ |- _ =>
      apply matches_lit_inv in H as [-> ->]
  | H : matches (Class _) _ _ _ |- _ =>
      apply matches_class_inv in H as (? & -> & ? & ->)
  | H : matches (range _ _) _ _ _ |- _ =>
      apply matches_class_inv in H as (? & -> & ? & ->)
  | H : matches Strptime.digit _ _ _ |- _ =>
      apply matches_class_inv in H as (? & -> & ? & ->)
  | H : matches (Alt _ _) _ _ _ |- _ =>
      apply matches_alt_inv in H as [H | H]
  end.

(** Enumerate the code points a class [[lo-hi]] admits. *)
Ltac enum_class :=
  repeat match goal with
  | H : ((_ <=? ?c) && (?c <=? _))%N = true |- _ =>
      apply range_cases in H; vm_compute in H;
      repeat (destruct H as [<-|H]; [|]); try contradiction
  end.

Lemma re_Y_language t c0 c1 :
  matches Strptime.re_Y t c0 c1 ->
  c1 = c0 /\ DateText.year_numeral Unicode.is_decimal t.
Proof.
  unfold Strptime.re_Y. intros H. split_match. split; [reflexivity|].
  split; [reflexivity|]. cbn [app forallb].
  now repeat match goal with
             | H : Unicode.is_decimal _ = true |- _ => rewrite H; clear H
             end.
Qed.

Lemma re_m_language t c0 c1 :
  matches Strptime.re_m t c0 c1 ->
  c1 = c0 /\ DateText.one_of DateText.months_lenient t.
Proof.
  unfold Strptime.re_m. intros H. split_match; (split; [reflexivity|]);
    enum_class; vm_compute; tauto.
Qed.

Lemma re_d_language t c0 c1 :
  matches Strptime.re_d t c0 c1 ->
  c1 = c0
  /\ (DateText.one_of DateText.days_lenient t \/ DateText.wide_day t).
Proof.
  unfold Strptime.re_d. intros H. split_match; (split; [reflexivity|]).
  2:{ right. match goal with
             | H : Unicode.is_decimal ?b = true |- _ => rename H into D
             end.
      enum_class; eexists _, _; (split; [reflexivity|]);
        (split; [|exact D]); [now left | now right]. }
  all: left; enum_class; vm_compute; tauto.
Qed.

Lemma check_date_fields_real y m d :
  Strptime.check_date_fields y m d = true <-> DateText.real_date y m d.
Proof.
  unfold Strptime.check_date_fields, DateText.real_date.
  rewrite !andb_true_iff, !Z.leb_le. tauto.
Qed.

Lemma is_empty_true s : Text.is_empty s = true -> s = "".
Proof. now destruct s. Qed.

Lemma append_nil_r (s : string) : s +:+ "" = s.
Proof. induction s as [|c s IH]; simpl; [reflexivity | now rewrite IH]. Qed.

Lemma valid_date_lenient (s : Unicode.text) :
  is_valid_date s = true -> DateText.lenient_date s.
Proof.
  unfold is_valid_date, Strptime.strptime_ymd, rmatch.
  destruct (exec _ _ _ _) as [[caps rest]|] eqn:E; [|discriminate].
  apply exec_sound in E as (t & rest' & caps' & -> & M & K).
  inversion K; subst caps' rest'; clear K.
  unfold Strptime.re_ymd in M. split_match.
  repeat match goal with
  | H : matches Strptime.re_Y _ _ _ |- _ => apply re_Y_language in H as [-> ?]
  | H : matches Strptime.re_m _ _ _ |- _ => apply re_m_language in H as [-> ?]
  | H : matches Strptime.re_d _ _ _ |- _ => apply re_d_language in H as [-> ?]
  end.
  cbn [app]. destruct rest as [|c rest]; [|discriminate].
  destruct (Strptime.check_date_fields _ _ _) eqn:C; [|discriminate].
  intros _. apply check_date_fields_real in C.
  match goal with
  | H1 : DateText.year_numeral _ ?ty, H2 : DateText.one_of _ ?tm,
    H3 : _ \/ DateText.wide_day ?td |- _ =>
      exists ty, tm, td
  end.
  rewrite app_nil_r. repeat rewrite <- app_assoc. cbn [app].
  split; [reflexivity|]. auto.
Qed.

Lemma exec_lit {R} a t caps
    (k : Unicode.text -> Unicode.text -> list Unicode.text -> option R) :
  exec (Lit a) (a :: t) caps k = k [a] t caps.
Proof. simpl. now rewrite N.eqb_refl. Qed.

Lemma exec_cat {R} r1 r2 s caps
    (k : Unicode.text -> Unicode.text -> list Unicode.text -> option R) :
  exec (Cat r1 r2) s caps k
  = exec r1 s caps (fun m1 s1 caps1 =>
      exec r2 s1 caps1 (fun m2 s2 caps2 => k (m1 ++ m2) s2 caps2)).
Proof. reflexivity. Qed.

Lemma year_numeral_inv digit ty :
  DateText.year_numeral digit ty ->
  exists a b c d,
    ty = [a; b; c; d]
    /\ digit a = true /\ digit b = true /\ digit c = true /\ digit d = true.
Proof.
  intros [L D].
  destruct ty as [|a [|b [|c [|d [|]]]]]; try discriminate L.
  cbn [forallb] in D. rewrite !andb_true_iff in D. exists a, b, c, d. tauto.
Qed.

Lemma exec_re_Y {R} ty t caps
    (k : Unicode.text -> Unicode.text -> list Unicode.text -> option R) :
  DateText.year_numeral Unicode.is_decimal ty ->
  exec (Group Strptime.re_Y) (ty ++ t) caps k = k ty t (caps ++ [ty]).
Proof.
  intros (a & b & c & d & -> & Ha & Hb & Hc & Hd)%year_numeral_inv.
  simpl. now rewrite Ha, Hb, Hc, Hd.
Qed.

Lemma exec_re_m {R} tm t caps
    (k : Unicode.text -> Unicode.text -> list Unicode.text -> option R) x :
  DateText.one_of DateText.months_lenient tm ->
  k tm (Text.code "-" :: t) (caps ++ [tm]) = Some x ->
  exec (Group Strptime.re_m) (tm ++ Text.code "-" :: t) caps k = Some x.
Proof.
  intros H K. vm_compute in H.
  repeat (destruct H as [<- | H]; [simpl in K |- *; now rewrite K|]).
  contradiction.
Qed.

Lemma exec_re_d {R} td caps
    (k : Unicode.text -> Unicode.text -> list Unicode.text -> option R) x :
  DateText.one_of DateText.days_lenient td \/ DateText.wide_day td ->
  k td [] (caps ++ [td]) = Some x ->
  exec (Group Strptime.re_d) td caps k = Some x.
Proof.
  intros [H | (a & b & -> & A & B)] K.
  - vm_compute in H.
    repeat (destruct H as [<- | H]; [simpl in K |- *; now rewrite K|]).
    contradiction.
  - destruct A as [-> | ->]; simpl in K |- *; now rewrite B, K.
Qed.

Lemma lenient_valid_date (s : Unicode.text) :
  DateText.lenient_date s -> is_valid_date s = true.
Proof.
  intros (ty & tm & td & -> & Hy & Hm & Hd & Hr).
  apply check_date_fields_real in Hr.
  unfold is_valid_date, Strptime.strptime_ymd, rmatch, Strptime.re_ymd.
  rewrite exec_cat, exec_re_Y by assumption. cbv beta.
  unfold char at 1. rewrite exec_cat, exec_lit. cbv beta.
  rewrite exec_cat. erewrite exec_re_m; [| assumption |].
  2:{ unfold char. rewrite exec_cat, exec_lit.
      apply exec_re_d; [assumption | reflexivity]. }
  cbn [app]. cbv beta iota zeta.
  unfold DateText.numeral_value in Hr. unfold Strptime.int_of_group.
  now rewrite Hr.
Qed.

(** C2 (amended): [is_valid_date s] holds exactly when [s] is a year of
    four digits, a month and a day joined by hyphens, the month written
    [1]..[12] with or without a leading zero, the day with or without a
    leading zero or after a blank, and the three name a real calendar
    date of the years 1 to 9999; the digits of the year, and the second
    digit of a day from 10 to 29, may be decimal digits of any script,
    the others are ASCII.  So ["2024-02-30"], ["2023-02-29"] and the
    empty string are rejected, the leap day ["2024-02-29"] is accepted,
    and so is the first of March 2024 with the year in fullwidth
    digits. *)
Theorem C2_is_valid_date_lenient :
  (forall s : Unicode.text, is_valid_date s = true <-> DateText.lenient_date s)
  /\ is_valid_date "2024-02-30" = false
  /\ is_valid_date "2024-02-29" = true
  /\ is_valid_date "2023-02-29" = false
  /\ is_valid_date "" = false
  /\ is_valid_date ([65298; 65296; 65298; 65300]%N ++ Unicode.points "-03-01") = true.
Proof.
  split; [|repeat split; reflexivity].
  intros s. split; [apply valid_date_lenient | apply lenient_valid_date].
Qed.

Lemma strict_date_length (s : Unicode.text) :
  DateText.strict_date s -> length s = 10%nat.
Proof.
  intros (ty & tm & td & -> & Hy & Hm & Hd & _).
  apply year_numeral_inv in Hy as (a & b & c & d & -> & _).
  vm_compute in Hm, Hd.
  repeat (destruct Hm as [<- | Hm]; [|]); try contradiction;
  repeat (destruct Hd as [<- | Hd]; [reflexivity|]); contradiction.
Qed.

(** C2, as stated, fails: ["2024-3-1"] is accepted although it is not in
    the strict [YYYY-MM-DD] form. *)
Lemma C2_short_month_accepted : ~ (is_valid_date "2024-3-1" = true <-> DateText.strict_date "2024-3-1").
Proof.
  intros [H _]. specialize (H eq_refl). apply strict_date_length in H. discriminate H.
Qed.

Example is_valid_date_leap : is_valid_date "2024-02-29" = true.
Proof. reflexivity. Qed.
Example is_valid_date_feb30 : is_valid_date "2024-02-30" = false.
Proof. reflexivity. Qed.
Example is_valid_date_noleap : is_valid_date "2023-02-29" = false.
Proof. reflexivity. Qed.
Example is_valid_date_empty : is_valid_date "" = false.
Proof. reflexivity. Qed.
Example is_valid_date_short : is_valid_date "2024-3-1" = true.
Proof. reflexivity. Qed.
Example is_valid_date_year0 : is_valid_date "0000-01-01" = false.
Proof. reflexivity. Qed.
Example is_valid_date_trailing : is_valid_date "2024-03-011" = false.
Proof. reflexivity. Qed.

(** ** Running computations *)

Lemma is_empty_false s : Text.is_empty s = false <-> s <> "".
Proof. destruct s; simpl; split; congruence. Qed.

Lemma is_empty_iff s : Text.is_empty s = true <-> s = "".
Proof. destruct s; simpl; split; congruence. Qed.

Lemma of_string_raises s e :
  Float64.of_string s = Raise e -> e = Float64.could_not_convert.
Proof.
  unfold Float64.of_string, Float64.of_stripped.
  repeat match goal with
  | |- context [match ?x with _ => _ end] => destruct x
  | |- context [if ?x then _ else _] => destruct x
  end; congruence.
Qed.

Lemma of_string_cases s :
  (exists x, Float64.of_string s = Ok x)
  \/ Float64.of_string s = Raise Float64.could_not_convert.
Proof.
  destruct (Float64.of_string s) eqn:E; [eauto|].
  right. now rewrite (of_string_raises _ _ E).
Qed.

(** Unfold the console and ledger primitives in a run. *)
Ltac run :=
  unfold input, print, write_stdout, read_line, append_expense, get_ledger,
    try_except, bind, ret, lift, raise in *; simpl in *.

Lemma read_positive_amount_ok s a b x w :
  Float64.of_string s = Ok x -> Float64.leb x Float64.zero = false ->
  read_positive_amount s a b w = (Ok (Some x), w).
Proof. intros H1 H2. unfold read_positive_amount. run. now rewrite H1, H2. Qed.

Lemma read_positive_amount_not_positive s a b x w :
  Float64.of_string s = Ok x -> Float64.leb x Float64.zero = true ->
  read_positive_amount s a b w
  = (Ok None, World (ledger w) (stdin w) (stdout w ++ [a +:+ Text.newline]) (disk w)).
Proof. intros H1 H2. unfold read_positive_amount. run. now rewrite H1, H2. Qed.

Lemma read_positive_amount_not_number s a b w :
  (forall x, Float64.of_string s <> Ok x) ->
  read_positive_amount s a b w
  = (Ok None, World (ledger w) (stdin w) (stdout w ++ [b +:+ Text.newline]) (disk w)).
Proof.
  intros H. unfold read_positive_amount. run.
  destruct (of_string_cases s) as [[x E]|E]; [now apply H in E|].
  now rewrite E.
Qed.

#[local] Arguments read_positive_amount : simpl never.

Section AddExpense.
Import Entry.

Lemma add_expense_rejected w reason :
  rejected (stdin w) reason ->
  exists w',
    add_expense w = (Ok tt, w')
    /\ ledger w' = ledger w /\ disk w' = disk w
    /\ last (stdout w') = Some (reason +:+ Text.newline).
Proof.
  destruct w as [lg sin sout dk]. simpl. intros H.
  inversion H; subst; clear H; unfold date_ok, text_ok, amount_ok in *.
  - unfold add_expense. run. destruct (is_valid_date _); [congruence|].
    eexists; split; [reflexivity|]. simpl. now rewrite last_snoc.
  - unfold add_expense. run. rewrite H0. simpl.
    destruct (Text.is_empty (Text.strip l2)) eqn:E;
      [|apply is_empty_false in E; contradiction].
    eexists; split; [reflexivity|]. simpl. now rewrite last_snoc.
  - unfold add_expense. run. rewrite H0. simpl.
    destruct (Text.is_empty (Text.strip l2)) eqn:E;
      [apply is_empty_iff in E; contradiction|].
    run. rewrite read_positive_amount_not_number by assumption.
    eexists; split; [reflexivity|]. simpl. now rewrite last_snoc.
  - unfold add_expense. run. rewrite H0. simpl.
    destruct (Text.is_empty (Text.strip l2)) eqn:E;
      [apply is_empty_iff in E; contradiction|].
    run. rewrite (read_positive_amount_not_positive _ _ _ x) by assumption.
    eexists; split; [reflexivity|]. simpl. now rewrite last_snoc.
  - destruct H2 as [P1 P2].
    unfold add_expense. run. rewrite H0. simpl.
    destruct (Text.is_empty (Text.strip l2)) eqn:E;
      [apply is_empty_iff in E; contradiction|].
    run. rewrite (read_positive_amount_ok _ _ _ x) by assumption.
    run. destruct (Text.is_empty (Text.strip l4)) eqn:E4;
      [|apply is_empty_false in E4; contradiction].
    eexists; split; [reflexivity|]. simpl. now rewrite last_snoc.
Qed.

Lemma add_expense_accepted w exp rest :
  accepted (stdin w) exp rest ->
  exists w',
    add_expense w = (Ok tt, w')
    /\ ledger w' = ledger w ++ [exp] /\ stdin w' = rest /\ disk w' = disk w
    /\ last (stdout w') = Some ("Expense added successfully." +:+ Text.newline).
Proof.
  destruct w as [lg sin sout dk]. simpl. intros H.
  inversion H; subst; clear H; unfold date_ok, text_ok, amount_ok in *.
  destruct H2 as [P1 P2].
  unfold add_expense. run. rewrite H0. simpl.
  destruct (Text.is_empty (Text.strip l2)) eqn:E;
    [apply is_empty_iff in E; contradiction|].
  run. rewrite (read_positive_amount_ok _ _ _ x) by assumption.
  run. destruct (Text.is_empty (Text.strip l4)) eqn:E4;
    [apply is_empty_iff in E4; contradiction|].
  eexists; split; [reflexivity|]. simpl. now rewrite last_snoc.
Qed.

(** Four typed lines are always either rejected or accepted. *)
Lemma rejected_or_accepted l1 l2 l3 l4 rest :
  (exists reason, rejected (l1 :: l2 :: l3 :: l4 :: rest) reason)
  \/ (exists exp, accepted (l1 :: l2 :: l3 :: l4 :: rest) exp rest).
Proof.
  destruct (is_valid_date (Text.strip l1)) eqn:E1.
  2:{ left. eexists. apply rej_date. unfold date_ok. congruence. }
  destruct (Text.is_empty (Text.strip l2)) eqn:E2.
  { left. eexists. apply rej_category; [exact E1|].
    apply is_empty_iff in E2. unfold text_ok. congruence. }
  apply is_empty_false in E2.
  destruct (of_string_cases (Text.strip l3)) as [[x E3]|E3].
  2:{ left. eexists. apply rej_not_number; [exact E1|exact E2|]. congruence. }
  destruct (Float64.leb x Float64.zero) eqn:E3'.
  { left. eexists. eapply rej_not_positive; eauto. }
  destruct (Text.is_empty (Text.strip l4)) eqn:E4.
  { left. eexists. eapply rej_description; eauto.
    - split; eauto.
    - apply is_empty_iff in E4. unfold text_ok. congruence. }
  apply is_empty_false in E4.
  right. eexists. eapply acc_all; eauto. split; eauto.
Qed.

End AddExpense.

(** C3: when a validation step of [add_expense] fails on the typed lines
    (the date is not valid, the category is blank, the amount is not a
    number or is [<= 0], the description is blank) the call returns
    normally, prints the reason and leaves the ledger as it was; when all
    four succeed it appends the one record they describe, its amount the
    parsed value rounded to two decimals.  ["-5"] is refused as not
    positive, ["abc"] as not a number, ["5.999"] is stored as [6.0]. *)
Theorem C3_add_expense_validation :
  (forall w reason,
      Entry.rejected (stdin w) reason ->
      exists w',
        add_expense w = (Ok tt, w')
        /\ ledger w' = ledger w /\ disk w' = disk w
        /\ last (stdout w') = Some (reason +:+ Text.newline))
  /\ (forall w exp rest,
        Entry.accepted (stdin w) exp rest ->
        exists w',
          add_expense w = (Ok tt, w')
          /\ ledger w' = ledger w ++ [exp] /\ stdin w' = rest /\ disk w' = disk w
          /\ last (stdout w') = Some ("Expense added successfully." +:+ Text.newline))
  /\ (forall l1 l2 l3 l4 rest,
        (exists reason, Entry.rejected (l1 :: l2 :: l3 :: l4 :: rest) reason)
        \/ (exists exp, Entry.accepted (l1 :: l2 :: l3 :: l4 :: rest) exp rest))
  /\ Entry.rejected ["2024-03-01"; "Food"; "-5"] Entry.msg_not_positive
  /\ Entry.rejected ["2024-03-01"; "Food"; "abc"] Entry.msg_not_number
  /\ Entry.accepted ["2024-03-01"; "Food"; "5.999"; "Lunch"]
       (make_expense "2024-03-01" "Food"
          (S754_finite false 6755399441055744 (-50)) "Lunch")
       [].
Proof.
  split; [exact add_expense_rejected|]. split; [exact add_expense_accepted|].
  split; [exact rejected_or_accepted|]. split; [|split].
  - eapply Entry.rej_not_positive; try reflexivity. discriminate.
  - eapply Entry.rej_not_number; try reflexivity; discriminate.
  - apply (Entry.acc_all "2024-03-01" "Food" "5.999" "Lunch" []
             (S754_finite false 6754273541148901 (-50)));
      try reflexivity; try discriminate. split; reflexivity.
Qed.

Lemma C3_add_expense_validation_witness :
  exists w',
    add_expense (World [] ["2024-03-01"; "Food"; "5.999"; "Lunch"] [] ∅) = (Ok tt, w')
    /\ ledger w' = [make_expense "2024-03-01" "Food"
                      (S754_finite false 6755399441055744 (-50)) "Lunch"].
Proof.
  destruct C3_add_expense_validation as (_ & A & _ & _ & _ & E).
  destruct (A (World [] ["2024-03-01"; "Food"; "5.999"; "Lunch"] [] ∅) _ _ E)
    as (w' & H1 & H2 & _).
  exists w'. split; [exact H1 | exact H2].
Defined.

(** ** Frame rules *)

Section Respects.
Context (R : world -> world -> Prop) `{!PreOrder R}.

Lemma respects_ret {A} (a : A) : respects R (ret a).
Proof. intros w. simpl. reflexivity. Qed.

Lemma respects_raise {A} e : respects R (@raise A e).
Proof. intros w. simpl. reflexivity. Qed.

Lemma respects_lift {A} (r : outcome A) : respects R (lift r).
Proof. intros w. simpl. reflexivity. Qed.

Lemma respects_bind {A B} (c : py A) (k : A -> py B) :
  respects R c -> (forall a, respects R (k a)) -> respects R (bind c k).
Proof.
  intros Hc Hk w. unfold bind. specialize (Hc w).
  destruct (c w) as [[a|e] w1]; simpl in *; [|assumption].
  etransitivity; [exact Hc | apply Hk].
Qed.

Lemma respects_try_except {A} (body : py A) classes handler :
  respects R body -> (forall e, respects R (handler e)) ->
  respects R (try_except body classes handler).
Proof.
  intros Hb Hh w. unfold try_except. specialize (Hb w).
  destruct (body w) as [[a|e] w1]; simpl in *; [assumption|].
  destruct (caught classes e); simpl; [|assumption].
  etransitivity; [exact Hb | apply Hh].
Qed.

(** A primitive that only moves between related worlds. *)
Lemma respects_step {A} (c : py A) :
  (forall w, R w (c w).2) -> respects R c.
Proof. auto. Qed.
End Respects.

Global Instance same_ledger_preorder : PreOrder same_ledger.
Proof. split; unfold same_ledger; [intros w | intros a b c]; congruence. Qed.

Global Instance stdin_not_longer_preorder : PreOrder stdin_not_longer.
Proof. split; unfold stdin_not_longer; [intros w | intros a b c]; lia. Qed.

(** Split a goal about a composed computation along its structure. *)
Ltac frame :=
  repeat match goal with
  | |- respects _ (ret _) => apply respects_ret; typeclasses eauto
  | |- respects _ (raise _) => apply respects_raise; typeclasses eauto
  | |- respects _ (lift _) => apply respects_lift; typeclasses eauto
  | |- respects _ (bind _ _) =>
      apply respects_bind; [typeclasses eauto | | intros]
  | |- respects _ (try_except _ _ _) =>
      apply respects_try_except; [typeclasses eauto | | intros]
  | |- respects _ (if ?b then _ else _) => destruct b eqn:?
  | |- respects _ (match ?x with _ => _ end) => destruct x eqn:?
  | |- respects _ (let _ := _ in _) => cbv zeta
  end.

(** *** The primitives *)

Section Primitives.
Context (R : world -> world -> Prop) `{!PreOrder R}.
(** [R] does not look at the console output or at the disk. *)
Hypothesis R_out : forall w out dk, R w (World (ledger w) (stdin w) out dk).
(** [R] lets a typed line be taken. *)
Hypothesis R_in : forall lg l ls out dk, R (World lg (l :: ls) out dk) (World lg ls out dk).

Lemma respects_write_stdout s : respects R (write_stdout s).
Proof. intros w. apply R_out. Qed.

Lemma respects_print s : respects R (print s).
Proof. apply respects_write_stdout. Qed.

Lemma respects_read_line : respects R read_line.
Proof.
  intros [lg [|l ls] out dk]; simpl; [reflexivity | apply R_in].
Qed.

Lemma respects_input s : respects R (input s).
Proof.
  unfold input. apply respects_bind; [assumption | apply respects_write_stdout |].
  intros _. apply respects_read_line.
Qed.

Lemma respects_get_ledger : respects R get_ledger.
Proof. intros w. simpl. reflexivity. Qed.

Lemma respects_get_file name : respects R (get_file name).
Proof. intros w. simpl. reflexivity. Qed.

Lemma respects_set_file name f : respects R (set_file name f).
Proof. intros w. apply R_out. Qed.

Lemma respects_path_exists name : respects R (path_exists name).
Proof.
  unfold path_exists. apply respects_bind; [assumption | apply respects_get_file |].
  intros f. apply respects_ret; assumption.
Qed.

Lemma respects_open_write name : respects R (open_write name).
Proof.
  unfold open_write. apply respects_bind; [assumption | apply respects_get_file |].
  intros [f|]; [destruct (file_open_w f)|];
    auto using respects_raise, respects_set_file.
Qed.

Lemma respects_write_row name cells : respects R (write_row name cells).
Proof.
  unfold write_row. apply respects_bind; [assumption | apply respects_get_file |].
  intros [f|]; auto using respects_ret, respects_set_file.
Qed.

Lemma respects_read_positive_amount s a b : respects R (read_positive_amount s a b).
Proof. unfold read_positive_amount. frame; apply respects_print. Qed.

Lemma respects_load_expenses name : respects R (load_expenses name).
Proof.
  unfold load_expenses.
  apply respects_bind; [assumption | apply respects_path_exists |].
  intros found. destruct (negb found); [apply respects_ret; assumption|].
  intros w. unfold open_read, get_file, bind, ret, raise. cbn -[load_rows print].
  destruct (disk w !! name) as [f|]; [destruct (file_present f), (file_open_r f) |];
    try destruct (load_rows _) as [es [e|]]; cbn; try reflexivity; apply R_out.
Qed.

Lemma respects_total_loop expenses :
  forall total, respects R (total_loop expenses total).
Proof.
  induction expenses as [|exp rest IH]; intros total; simpl; frame; apply IH.
Qed.

Lemma respects_total_expenses : respects R total_expenses.
Proof.
  unfold total_expenses. frame;
    auto using respects_get_ledger, respects_total_loop.
Qed.

Lemma respects_set_budget : respects R set_budget.
Proof.
  unfold set_budget. frame;
    auto using respects_input, respects_read_positive_amount.
Qed.

Lemma respects_track_budget budget : respects R (track_budget budget).
Proof.
  unfold track_budget. frame;
    auto using respects_print, respects_set_budget, respects_total_expenses.
Qed.

Lemma respects_view_loop repr expenses :
  forall idx shown, respects R (view_loop repr idx expenses shown).
Proof.
  induction expenses as [|exp rest IH]; intros idx shown; simpl; frame;
    auto using respects_print.
Qed.

Lemma respects_view_expenses repr : respects R (view_expenses repr).
Proof.
  unfold view_expenses. frame;
    auto using respects_print, respects_get_ledger, respects_view_loop.
Qed.

Lemma respects_save_loop repr name expenses :
  respects R (save_loop repr name expenses).
Proof.
  induction expenses as [|exp rest IH]; simpl; frame;
    auto using respects_write_row.
Qed.

Lemma respects_save_expenses repr name : respects R (save_expenses repr name).
Proof.
  unfold save_expenses. frame;
    auto using respects_print, respects_get_ledger, respects_save_loop,
      respects_open_write, respects_write_row.
Qed.

Lemma respects_show_menu : respects R show_menu.
Proof. unfold show_menu. frame; apply respects_print. Qed.
End Primitives.

(** ** The ledger is only ever appended to *)

Lemma make_expense_complete date category amount description :
  date <> "" -> category <> "" -> description <> "" ->
  is_complete_expense (make_expense date category amount description) = true.
Proof.
  destruct date, category, description; try congruence. intros _ _ _.
  reflexivity.
Qed.

Lemma valid_date_not_empty (s : string) : is_valid_date s = true -> s <> "".
Proof. intros H ->. discriminate H. Qed.

Lemma add_expense_ledger w :
  ledger (add_expense w).2 = ledger w
  \/ exists exp,
       ledger (add_expense w).2 = ledger w ++ [exp]
       /\ is_complete_expense exp = true.
Proof.
  destruct w as [lg sin sout dk]. unfold add_expense, read_positive_amount. run.
  destruct sin as [|l1 sin]; simpl; [now left|].
  destruct (is_valid_date (Text.strip l1)) eqn:E1; simpl; [|now left].
  destruct sin as [|l2 sin]; simpl; [now left|].
  destruct (Text.is_empty (Text.strip l2)) eqn:E2; simpl; [now left|].
  destruct sin as [|l3 sin]; simpl; [now left|].
  destruct (Float64.of_string (Text.strip l3)) as [x|e] eqn:E3; simpl.
  2:{ apply of_string_raises in E3 as ->. simpl. now left. }
  destruct (Float64.leb x Float64.zero); simpl; [now left|].
  destruct sin as [|l4 sin]; simpl; [now left|].
  destruct (Text.is_empty (Text.strip l4)) eqn:E4; simpl; [now left|].
  right. eexists. split; [reflexivity|].
  apply make_expense_complete.
  - now apply valid_date_not_empty.
  - now apply is_empty_false.
  - now apply is_empty_false.
Qed.

Lemma load_row_complete row exp :
  load_row row = Some exp -> is_complete_expense exp = true.
Proof.
  unfold load_row.
  destruct (Text.is_empty (Text.strip (Csv.get_or_empty row "date"))) eqn:E1;
    [discriminate|].
  destruct (Text.is_empty (Text.strip (Csv.get_or_empty row "category"))) eqn:E2;
    [discriminate|].
  destruct (Text.is_empty (Text.strip (Csv.get_or_empty row "amount"))) eqn:E3;
    [discriminate|].
  destruct (Text.is_empty (Text.strip (Csv.get_or_empty row "description"))) eqn:E4;
    [discriminate|].
  simpl. destruct (is_valid_date _); [|discriminate]. simpl.
  destruct (Float64.of_string _); [|discriminate].
  intros [= <-]. apply make_expense_complete; now apply is_empty_false.
Qed.

Lemma load_loop_complete fieldnames rows :
  forall expenses,
    Forall complete expenses ->
    Forall complete (load_loop fieldnames rows expenses).1.
Proof.
  induction rows as [|[cells|e] rows IH]; intros expenses H; simpl; auto.
  destruct cells as [|c cells]; [now apply IH|].
  destruct (load_row _) as [exp|] eqn:E; apply IH; auto.
  apply Forall_app. split; [assumption|].
  constructor; [|constructor]. now apply load_row_complete in E.
Qed.

Lemma load_rows_complete rows : Forall complete (load_rows rows).1.
Proof.
  destruct rows as [|[h|e] rows]; simpl; try constructor.
  now apply load_loop_complete.
Qed.

(** [load_expenses], case by case. *)
Lemma load_expenses_run filename w :
  load_expenses filename w =
  match disk w !! filename with
  | None => (Ok [], w)
  | Some f =>
      if file_present f then
        match file_open_r f with
        | Some e => (Ok [], load_warning e w)
        | None =>
            match load_rows (Csv.reader (file_rows f) (file_fault f)) with
            | (expenses, Some e) => (Ok expenses, load_warning e w)
            | (expenses, None) => (Ok expenses, w)
            end
        end
      else (Ok [], w)
  end.
Proof.
  unfold load_expenses, path_exists, open_read, get_file, bind, ret, raise.
  cbv beta iota.
  destruct (disk w !! filename) as [f|] eqn:E; [|reflexivity].
  destruct (file_present f) eqn:P; [|reflexivity].
  cbv beta iota delta [negb]. rewrite E, P.
  destruct (file_open_r f); [reflexivity|]. cbv beta iota.
  now destruct (load_rows _) as [es [e|]].
Qed.

Lemma load_expenses_complete filename w expenses w' :
  load_expenses filename w = (Ok expenses, w') -> Forall complete expenses.
Proof.
  rewrite load_expenses_run.
  pose proof (fun f => load_rows_complete (Csv.reader (file_rows f) (file_fault f))) as C.
  destruct (disk w !! filename) as [f|]; [|intros [= <- _]; constructor].
  specialize (C f).
  destruct (file_present f); [|intros [= <- _]; constructor].
  destruct (file_open_r f); [intros [= <- _]; constructor|].
  destruct (load_rows _) as [es [e|]]; intros [= <- _]; exact C.
Qed.

(** C9: the records [load_expenses] returns are complete, a record that
    [add_expense] appends is complete, and therefore so is every record
    of a ledger built by loading and adding. *)
Theorem C9_ledger_records_complete :
  (forall filename w expenses w',
      load_expenses filename w = (Ok expenses, w') ->
      Forall (fun exp => is_complete_expense exp = true) expenses)
  /\ (forall w,
        ledger (add_expense w).2 = ledger w
        \/ exists exp, ledger (add_expense w).2 = ledger w ++ [exp]
                       /\ is_complete_expense exp = true)
  /\ (forall expenses,
        built_by_program expenses ->
        Forall (fun exp => is_complete_expense exp = true) expenses).
Proof.
  split; [exact load_expenses_complete|]. split; [exact add_expense_ledger|].
  induction 1 as [filename w expenses w' H | w r w' _ IH H].
  - eapply load_expenses_complete; eauto.
  - destruct (add_expense_ledger w) as [E | (exp & E & C)];
      rewrite H in E; simpl in E; rewrite E; [assumption|].
    apply Forall_app. split; [assumption|]. now repeat constructor.
Qed.

Lemma C9_ledger_records_complete_witness :
  Forall (fun exp => is_complete_expense exp = true)
    (ledger (add_expense
               (World [] ["2024-03-01"; "Food"; "5.999"; "Lunch"] [] ∅)).2).
Proof.
  destruct C9_ledger_records_complete as (_ & _ & B).
  apply B.
  apply (built_add (World [] ["2024-03-01"; "Food"; "5.999"; "Lunch"] [] ∅)
           (add_expense (World [] ["2024-03-01"; "Food"; "5.999"; "Lunch"] [] ∅)).1
           (add_expense (World [] ["2024-03-01"; "Food"; "5.999"; "Lunch"] [] ∅)).2).
  - apply (built_load "expenses.csv" (World [] [] [] ∅) [] (World [] [] [] ∅)).
    reflexivity.
  - now destruct (add_expense _).
Defined.

(** C10: [view_expenses], [total_expenses], [track_budget] and
    [save_expenses] end, whether they return or raise, with the ledger
    they started with; [add_expense] changes it at most by appending one
    record. *)
Theorem C10_operations_keep_ledger float_repr w :
  ledger (view_expenses float_repr w).2 = ledger w
  /\ ledger (total_expenses w).2 = ledger w
  /\ (forall budget, ledger (track_budget budget w).2 = ledger w)
  /\ (forall filename, ledger (save_expenses float_repr filename w).2 = ledger w)
  /\ (exists added,
        ledger (add_expense w).2 = ledger w ++ added
        /\ (length added <= 1)%nat).
Proof.
  split; [|split; [|split; [|split]]].
  - apply (respects_view_expenses same_ledger); intros; reflexivity.
  - apply (respects_total_expenses same_ledger).
  - intros b. apply (respects_track_budget same_ledger); intros; reflexivity.
  - intros fn. apply (respects_save_expenses same_ledger); intros; reflexivity.
  - destruct (add_expense_ledger w) as [E | (exp & E & _)].
    + exists []. rewrite E, app_nil_r. split; [reflexivity | simpl; lia].
    + exists [exp]. split; [exact E | simpl; lia].
Qed.

(** ** Loading a file *)

Section Load.
Import Loading.

Lemma load_row_accepts row :
  is_Some (load_row row) <-> accepts row.
Proof.
  unfold load_row, accepts, column.
  set (d := Text.strip (Csv.get_or_empty row "date")).
  set (c := Text.strip (Csv.get_or_empty row "category")).
  set (a := Text.strip (Csv.get_or_empty row "amount")).
  set (t := Text.strip (Csv.get_or_empty row "description")).
  destruct (Text.is_empty d) eqn:Ed; simpl.
  { apply is_empty_iff in Ed. split; [intros [? [=]] | tauto]. }
  destruct (Text.is_empty c) eqn:Ec; simpl.
  { apply is_empty_iff in Ec. split; [intros [? [=]] | tauto]. }
  destruct (Text.is_empty a) eqn:Ea; simpl.
  { apply is_empty_iff in Ea. split; [intros [? [=]] | tauto]. }
  destruct (Text.is_empty t) eqn:Et; simpl.
  { apply is_empty_iff in Et. split; [intros [? [=]] | tauto]. }
  apply is_empty_false in Ed, Ec, Ea, Et.
  destruct (is_valid_date d) eqn:Ev; simpl.
  2:{ split; [intros [? [=]] | intros (_ & _ & _ & _ & [=] & _)]. }
  destruct (Float64.of_string a) as [x|e] eqn:Ex.
  - split; eauto 10.
  - split; [intros [? [=]] | intros (_ & _ & _ & _ & _ & x & [=])].
Qed.

Lemma load_row_record row exp :
  load_row row = Some exp -> record_of row exp.
Proof.
  intros H. assert (A : accepts row) by (apply load_row_accepts; eauto).
  destruct A as (Hd & Hc & Ha & Ht & Hv & x & Hx).
  unfold load_row in H. fold (column row "date") in H.
  fold (column row "category") in H. fold (column row "amount") in H.
  fold (column row "description") in H.
  apply is_empty_false in Hd, Hc, Ha, Ht.
  rewrite Hd, Hc, Ha, Ht, Hv, Hx in H. simpl in H.
  injection H as <-. now constructor.
Qed.

Lemma reader_fit rows fault :
  fields_fit rows ->
  Csv.reader rows fault
  = map Ok rows ++ match fault with Some e => [Raise e] | None => [] end.
Proof.
  induction 1 as [|row rows Hrow _ IH]; simpl; [reflexivity|].
  replace (forallb Csv.field_fits row) with true; [now rewrite IH|].
  symmetry. apply forallb_forall. intros cell Hin.
  rewrite Forall_forall in Hrow. apply Hrow. now apply list_elem_of_In.
Qed.

Lemma load_loop_rows header rows :
  forall acc,
  exists exps,
    loaded (map (Csv.make_row header)
              (List.filter (fun cells => negb (is_nil cells)) rows)) exps
    /\ forall tl,
         load_loop header (map Ok rows ++ tl) acc = load_loop header tl (acc ++ exps).
Proof.
  induction rows as [|cells rows IH]; intros acc.
  - exists []. split; [constructor|]. intros tl. now rewrite app_nil_r.
  - destruct cells as [|c cells].
    + destruct (IH acc) as (exps & L & E). exists exps. split; [exact L|].
      intros tl. simpl. apply E.
    + cbn [List.filter is_nil negb map].
      destruct (load_row (Csv.make_row header (c :: cells))) as [exp|] eqn:R.
      * destruct (IH (acc ++ [exp])) as (exps & L & E).
        exists (exp :: exps). split.
        -- apply loaded_accept; [apply load_row_accepts; eauto | | exact L].
           now apply load_row_record.
        -- intros tl. cbn [map app load_loop]. rewrite R, E.
           now rewrite <- app_assoc.
      * destruct (IH acc) as (exps & L & E). exists exps. split.
        -- apply loaded_discard; [|exact L].
           intros A. apply load_row_accepts in A as [? A]. congruence.
        -- intros tl. cbn [map app load_loop]. rewrite R. apply E.
Qed.

(** Rows that fit are read to the end, or to the fault after them. *)
Lemma load_rows_fit rows fault :
  fields_fit rows ->
  exists exps,
    loaded (data_rows rows) exps
    /\ load_rows (Csv.reader rows fault) = (exps, fault).
Proof.
  intros F. rewrite reader_fit by assumption.
  destruct rows as [|header rows].
  - exists []. split; [constructor|]. now destruct fault.
  - destruct (load_loop_rows header rows []) as (exps & L & E).
    exists exps. split; [exact L|]. cbn [map app load_rows]. rewrite E.
    now destruct fault.
Qed.

End Load.

Section LoadClaims.
Import Loading.

Lemma load_expenses_readable w filename f :
  disk w !! filename = Some f -> readable f -> fields_fit (file_rows f) ->
  exists exps,
    loaded (data_rows (file_rows f)) exps
    /\ load_expenses filename w
       = (Ok exps, match file_fault f with
                   | Some e => load_warning e w
                   | None => w
                   end).
Proof.
  intros D [P O] F. rewrite load_expenses_run, D, P, O.
  destruct (load_rows_fit (file_rows f) (file_fault f) F) as (exps & L & E).
  exists exps. split; [exact L|]. rewrite E. now destruct (file_fault f).
Qed.

(** C6: a data row is accepted exactly when its four columns are not
    blank, its date passes [is_valid_date] and its amount parses as a
    number; the list [load_expenses] returns for a readable file holds
    the records of the accepted rows, in order, and every other row is
    passed over without a message.  The sign of the amount is not looked
    at: a row with the amount [-5] is accepted.  A file with one
    well-formed row and one row without a category gives one record. *)
Theorem C6_load_accepts_rows :
  (forall row, is_Some (load_row row) <-> accepts row)
  /\ (forall w filename f,
        disk w !! filename = Some f -> readable f ->
        file_fault f = None -> fields_fit (file_rows f) ->
        exists exps,
          load_expenses filename w = (Ok exps, w)
          /\ loaded (data_rows (file_rows f)) exps)
  /\ accepts (Csv.make_row CSV_HEADERS ["2024-03-01"; "Food"; "-5"; "Refund"])
  /\ (forall w,
        disk w !! "expenses.csv" = Some sample_file ->
        load_expenses "expenses.csv" w
        = (Ok [make_expense "2024-03-01" "Food"
                 (S754_finite false 7036874417766400 (-49)) "Lunch with client"],
           w)).
Proof.
  split; [exact load_row_accepts|]. split; [|split].
  - intros w filename f D R N F.
    destruct (load_expenses_readable w filename f D R F) as (exps & L & E).
    rewrite N in E. eauto.
  - unfold accepts.
    repeat (split; [first [discriminate | reflexivity]|]).
    eexists. reflexivity.
  - intros w D. rewrite load_expenses_run, D. reflexivity.
Qed.

Lemma C6_load_accepts_rows_witness :
  exists exps,
    load_expenses "expenses.csv" (World [] [] [] {["expenses.csv" := sample_file]})
    = (Ok exps, World [] [] [] {["expenses.csv" := sample_file]})
    /\ loaded (data_rows sample_rows) exps.
Proof.
  destruct C6_load_accepts_rows as (_ & A & _).
  apply (A (World [] [] [] {["expenses.csv" := sample_file]}) "expenses.csv" sample_file).
  - reflexivity.
  - split; reflexivity.
  - reflexivity.
  - repeat constructor.
Defined.

(** C7: [load_expenses] never raises.  For a file that does not exist it
    returns the empty list and prints nothing; when the file cannot be
    opened it prints a warning and returns the empty list; when reading
    fails after some rows it prints the warning and returns the records
    of the rows read before the failure. *)
Theorem C7_load_failures_degrade :
  (forall w filename,
      (disk w !! filename = None
       \/ exists f, disk w !! filename = Some f /\ file_present f = false) ->
      load_expenses filename w = (Ok [], w))
  /\ (forall w filename,
        exists exps,
          load_expenses filename w = (Ok exps, w)
          \/ exists e, load_expenses filename w = (Ok exps, load_warning e w))
  /\ (forall w filename f e,
        disk w !! filename = Some f -> file_present f = true ->
        file_open_r f = Some e ->
        load_expenses filename w = (Ok [], load_warning e w))
  /\ (forall w filename f e,
        disk w !! filename = Some f -> readable f ->
        file_fault f = Some e -> fields_fit (file_rows f) ->
        exists exps,
          load_expenses filename w = (Ok exps, load_warning e w)
          /\ loaded (data_rows (file_rows f)) exps).
Proof.
  split; [|split; [|split]].
  - intros w filename [D | (f & D & P)]; rewrite load_expenses_run, D;
      [reflexivity | now rewrite P].
  - intros w filename. rewrite load_expenses_run.
    destruct (disk w !! filename) as [f|]; [|eauto].
    destruct (file_present f); [|eauto].
    destruct (file_open_r f); [eauto|].
    destruct (load_rows _) as [exps [e|]]; eauto.
  - intros w filename f e D P O. now rewrite load_expenses_run, D, P, O.
  - intros w filename f e D R N F.
    destruct (load_expenses_readable w filename f D R F) as (exps & L & E).
    rewrite N in E. eauto.
Qed.

Lemma C7_load_failures_degrade_witness :
  exists exps,
    load_expenses "expenses.csv" (World [] [] [] {["expenses.csv" := torn_file]})
    = (Ok exps,
       load_warning (Exn UnicodeDecodeError "invalid start byte")
         (World [] [] [] {["expenses.csv" := torn_file]}))
    /\ loaded (data_rows sample_rows) exps.
Proof.
  destruct C7_load_failures_degrade as (_ & _ & _ & A).
  apply (A (World [] [] [] {["expenses.csv" := torn_file]}) "expenses.csv" torn_file).
  - reflexivity.
  - split; reflexivity.
  - reflexivity.
  - repeat constructor.
Defined.

End LoadClaims.

(** ** Saving *)

Lemma save_expenses_denied float_repr filename w f e :
  disk w !! filename = Some f -> file_open_w f = Some e ->
  save_expenses float_repr filename w = (Raise e, w).
Proof.
  intros D O. unfold save_expenses, open_write, get_file, bind, raise.
  cbv beta iota. now rewrite D, O.
Qed.

Lemma show_menu_run lg sin out dk :
  exists out', show_menu (World lg sin out dk) = (Ok tt, World lg sin out' dk).
Proof. eexists. reflexivity. Qed.

Lemma menu_pass_save_denied float_repr budget lg line rest out dk f e :
  dk !! "expenses.csv" = Some f -> file_open_w f = Some e ->
  Text.strip line = "4" \/ Text.strip line = "5" ->
  exists out',
    menu_pass float_repr budget (World lg (line :: rest) out dk)
    = (Raise e, World lg rest out' dk).
Proof.
  intros D O C. unfold menu_pass.
  destruct (show_menu_run lg (line :: rest) out dk) as (out1 & S).
  unfold bind at 1. rewrite S. unfold bind at 1, input. run.
  eexists. unfold menu_choice.
  destruct C as [-> | ->]; cbn [String.eqb Ascii.eqb Bool.eqb];
    unfold bind; erewrite save_expenses_denied by eauto; reflexivity.
Qed.

(** C8, as stated, fails: the failed save is not reported by the program
    and ends it; the choices typed after it are never read. *)
Lemma C8_save_failure_ends_main :
  ~ (exists w', main (fun _ => EmptyString) read_only_world = Some (Ok tt, w'))
  /\ exists w',
       main (fun _ => EmptyString) read_only_world = Some (Raise denied, w')
       /\ stdin w' = ["2"; "5"]
       /\ Forall (fun line => line <> "Expenses saved to expenses.csv" +:+ Text.newline)
            (stdout w').
Proof.
  split.
  - intros [w' H]. vm_compute in H. discriminate H.
  - eexists. split; [vm_compute; reflexivity|]. split; [reflexivity|].
    repeat constructor; discriminate.
Qed.

(** C8 (amended): when the destination cannot be opened for writing,
    [save_expenses] raises the error of [open] to its caller; nothing is
    printed, nothing is written and the ledger is as before.  [main] does
    not catch it: chosen from the menu (4 or 5), the failed save ends the
    loop with that exception. *)
Theorem C8_save_failure_propagates float_repr :
  (forall filename w f e,
      disk w !! filename = Some f -> file_open_w f = Some e ->
      save_expenses float_repr filename w = (Raise e, w))
  /\ (forall fuel budget lg line rest out dk f e,
        dk !! "expenses.csv" = Some f -> file_open_w f = Some e ->
        Text.strip line = "4" \/ Text.strip line = "5" ->
        exists out',
          main_loop float_repr (S fuel) budget (World lg (line :: rest) out dk)
          = Some (Raise e, World lg rest out' dk)).
Proof.
  split.
  - intros filename w f e. apply save_expenses_denied.
  - intros fuel budget lg line rest out dk f e D O C.
    destruct (menu_pass_save_denied float_repr budget lg line rest out dk f e D O C)
      as (out' & M).
    exists out'. cbn [main_loop]. now rewrite M.
Qed.

Lemma C8_save_failure_propagates_witness :
  save_expenses (fun _ => "") "expenses.csv" read_only_world
  = (Raise denied, read_only_world).
Proof.
  apply (proj1 (C8_save_failure_propagates (fun _ => ""))
           "expenses.csv" read_only_world
           (File true [CSV_HEADERS] None None (Some denied)) denied);
    reflexivity.
Defined.

(** ** [main] ends on every finite input *)

Lemma stdin_not_longer_out w out dk :
  stdin_not_longer w (World (ledger w) (stdin w) out dk).
Proof. unfold stdin_not_longer. simpl. lia. Qed.

Lemma stdin_not_longer_in lg l ls out dk :
  stdin_not_longer (World lg (l :: ls) out dk) (World lg ls out dk).
Proof. unfold stdin_not_longer. simpl. lia. Qed.

Lemma stdin_add_expense : respects stdin_not_longer add_expense.
Proof.
  unfold add_expense. frame;
    first [ apply respects_input | apply respects_print
          | apply respects_read_positive_amount | idtac ];
    try typeclasses eauto;
    try apply stdin_not_longer_out; try apply stdin_not_longer_in.
  intros w. unfold stdin_not_longer. simpl. lia.
Qed.

Lemma stdin_menu_choice float_repr budget choice :
  respects stdin_not_longer (menu_choice float_repr budget choice).
Proof.
  unfold menu_choice. frame;
    first [ apply stdin_add_expense | apply respects_view_expenses
          | apply respects_track_budget | apply respects_save_expenses
          | apply respects_print ];
    try typeclasses eauto;
    try apply stdin_not_longer_out; try apply stdin_not_longer_in.
Qed.

#[local] Arguments menu_choice : simpl never.

Lemma menu_pass_reads float_repr budget w r w' :
  menu_pass float_repr budget w = (r, w') ->
  (exists e, r = Raise e) \/ (length (stdin w') < length (stdin w))%nat.
Proof.
  destruct w as [lg sin out dk]. unfold menu_pass.
  destruct (show_menu_run lg sin out dk) as (out1 & S).
  unfold bind at 1. rewrite S. unfold bind at 1, input. run.
  destruct sin as [|line rest]; simpl.
  - intros [= <- _]. eauto.
  - intros H. right.
    pose proof (stdin_menu_choice float_repr budget (Text.strip line)
                  (World lg rest (out1 ++ ["Choose an option (1-5): "]) dk)) as N.
    rewrite H in N. unfold stdin_not_longer in N. simpl in N. lia.
Qed.

Lemma main_loop_ends float_repr fuel :
  forall budget w,
    (length (stdin w) < fuel)%nat ->
    exists r, main_loop float_repr fuel budget w = Some r.
Proof.
  induction fuel as [|fuel IH]; intros budget w L; [lia|].
  cbn [main_loop].
  destruct (menu_pass float_repr budget w) as [[[b|]|e] w'] eqn:M; eauto.
  apply menu_pass_reads in M as [[e [=]] | M]. apply IH. lia.
Qed.

Theorem main_ends float_repr w : exists r, main float_repr w = Some r.
Proof.
  unfold main. destruct (bind _ _ w) as [[u|e] w']; eauto.
  apply main_loop_ends. lia.
Qed.

(** ** Sums of floats never give the negative zero *)

Section Sums.
Import FloatFacts.

Let prec := Float64.prec.
Let emax := Float64.emax.

Lemma digits2_pos_lower m : 2 ^ (Z.pos (digits2_pos m) - 1) <= Z.pos m.
Proof.
  induction m as [m IH | m IH |]; cbn [digits2_pos];
    [change (Z.pos m~1) with (2 * Z.pos m + 1)
    |change (Z.pos m~0) with (2 * Z.pos m) | simpl; lia];
    rewrite Pos2Z.inj_succ;
    replace (Z.succ (Z.pos (digits2_pos m)) - 1)
      with (Z.succ (Z.pos (digits2_pos m) - 1)) by lia;
    rewrite Z.pow_succ_r by lia; lia.
Qed.

Lemma shr_1_m mrs : 0 <= shr_m mrs -> shr_m (shr_1 mrs) = shr_m mrs / 2.
Proof.
  destruct mrs as [m r s]. cbn [shr_m]. intros H.
  rewrite <- Z.div2_div.
  destruct m as [|[p|p|]|p]; try reflexivity. lia.
Qed.

Lemma iter_shr_1_m p :
  forall mrs,
    0 <= shr_m mrs ->
    shr_m (SpecFloat.iter_pos shr_1 p mrs) = shr_m mrs / 2 ^ Z.pos p.
Proof.
  induction p as [p IH | p IH |]; intros mrs H; cbn [SpecFloat.iter_pos].
  - assert (H1 : 0 <= shr_m (shr_1 mrs)) by (rewrite shr_1_m by lia; apply Z.div_pos; lia).
    assert (H2 : 0 <= shr_m (SpecFloat.iter_pos shr_1 p (shr_1 mrs)))
      by (rewrite IH by lia; apply Z.div_pos; lia).
    rewrite IH, IH, shr_1_m by assumption.
    rewrite !Z.div_div by lia. f_equal.
    change (Z.pos p~1) with (2 * Z.pos p + 1).
    replace (2 * Z.pos p + 1) with (1 + Z.pos p + Z.pos p) by lia.
    rewrite !Z.pow_add_r by lia. change (2 ^ 1) with 2. lia.
  - assert (H2 : 0 <= shr_m (SpecFloat.iter_pos shr_1 p mrs))
      by (rewrite IH by lia; apply Z.div_pos; lia).
    rewrite IH, IH by assumption.
    rewrite !Z.div_div by lia. f_equal.
    change (Z.pos p~0) with (2 * Z.pos p).
    replace (2 * Z.pos p) with (Z.pos p + Z.pos p) by lia.
    rewrite !Z.pow_add_r by lia. reflexivity.
  - rewrite shr_1_m by assumption. reflexivity.
Qed.

Lemma shr_record_of_loc_m m l : shr_m (shr_record_of_loc m l) = m.
Proof. now destruct l as [|[]]. Qed.

Lemma shr_fexp_positive m e l :
  0 < m -> Float64.emin <= e ->
  0 < shr_m (shr_fexp prec emax m e l).1
  /\ Float64.emin <= (shr_fexp prec emax m e l).2.
Proof.
  intros Hm He. unfold shr_fexp, shr.
  destruct m as [|m|m]; try lia. cbn [Zdigits2].
  pose proof (digits2_pos_lower m) as D.
  set (d := Z.pos (digits2_pos m)) in *.
  destruct (fexp prec emax (d + e) - e) as [|p|p] eqn:N; cbn [fst snd];
    rewrite ?shr_record_of_loc_m; try (split; lia).
  assert (P : Z.pos p = d - 53).
  { unfold fexp, SpecFloat.emin, prec, emax, Float64.prec, Float64.emax in N.
    unfold Float64.emin in He. lia. }
  rewrite iter_shr_1_m by (rewrite shr_record_of_loc_m; lia).
  rewrite shr_record_of_loc_m. split; [|lia].
  apply Z.div_str_pos. split; [apply Z.pow_pos_nonneg; lia|].
  rewrite P. etransitivity; [|exact D].
  apply Z.pow_le_mono_r; lia.
Qed.

Lemma round_nearest_even_ge m l : m <= round_nearest_even m l.
Proof.
  destruct l as [|[]]; cbn [round_nearest_even]; try lia.
  destruct (Z.even m); lia.
Qed.

Lemma binary_round_aux_positive s m e l :
  0 < m -> Float64.emin <= e ->
  rounded_from s (binary_round_aux prec emax s m e l).
Proof.
  intros Hm He. unfold binary_round_aux.
  pose proof (shr_fexp_positive m e l Hm He) as [M1 E1].
  destruct (shr_fexp prec emax m e l) as [mrs1 e1]. cbn [fst snd] in *.
  pose proof (round_nearest_even_ge (shr_m mrs1) (loc_of_shr_record mrs1)) as G.
  set (m2 := round_nearest_even (shr_m mrs1) (loc_of_shr_record mrs1)) in *.
  assert (Hm2 : 0 < m2) by lia.
  pose proof (shr_fexp_positive m2 e1 loc_Exact Hm2 E1) as [M2 E2].
  destruct (shr_fexp prec emax m2 e1 loc_Exact) as [mrs2 e2]. cbn [fst snd] in *.
  destruct (shr_m mrs2) as [|p|p]; try lia.
  destruct (e2 <=? emax - prec); cbn; auto.
Qed.

Lemma binary_round_positive s m e :
  Float64.emin <= e -> rounded_from s (binary_round prec emax s m e).
Proof.
  intros He. unfold binary_round.
  destruct (shl_align m e (fexp prec emax (Z.pos (digits2_pos m) + e)))
    as [mz ez] eqn:S.
  apply binary_round_aux_positive; [lia|].
  unfold shl_align in S.
  destruct (fexp prec emax (Z.pos (digits2_pos m) + e) - e) eqn:N;
    injection S as <- <-; try lia.
  unfold fexp, SpecFloat.emin, prec, emax, Float64.prec, Float64.emax.
  unfold Float64.emin. lia.
Qed.

Lemma binary_normalize_not_neg_zero m e :
  Float64.emin <= e ->
  above_emin (binary_normalize prec emax m e false)
  /\ binary_normalize prec emax m e false <> neg_zero.
Proof.
  intros He. destruct m as [|m|m]; cbn [binary_normalize].
  - split; [exact I | discriminate].
  - pose proof (binary_round_positive false m e He) as R.
    destruct (binary_round prec emax false m e); cbn in *;
      try contradiction; split; try discriminate; tauto.
  - pose proof (binary_round_positive true m e He) as R.
    destruct (binary_round prec emax true m e); cbn in *;
      try contradiction; split; try discriminate; tauto.
Qed.

Lemma add_above_emin x y :
  above_emin x -> above_emin y ->
  above_emin (Float64.add x y)
  /\ (x <> neg_zero -> Float64.add x y <> neg_zero).
Proof.
  intros Hx Hy. unfold Float64.add.
  destruct x as [sx|sx| |sx mx ex], y as [sy|sy| |sy my ey];
    cbn [SFadd above_emin] in *;
    try (split; [first [exact I | assumption]
                | first [discriminate | intros H; exact H]]).
  - destruct sx, sy; cbn; split; try exact I; try discriminate; tauto.
  - destruct sx, sy; cbn; split; try exact I; discriminate.
  - match goal with
    | |- above_emin (binary_normalize _ _ ?m ?e false) /\ _ =>
        destruct (binary_normalize_not_neg_zero m e) as [A N]; [lia|]
    end.
    split; [exact A | intros _; exact N].
Qed.
End Sums.

Section Coercions.
Import FloatFacts.

Lemma nearest_above_emin s p q : above_emin (Float64.nearest s p q).
Proof.
  unfold Float64.nearest.
  destruct (p <=? 0); [exact I|].
  set (e := Z.max _ Float64.emin).
  assert (He : Float64.emin <= e) by apply Z.le_max_r.
  clearbody e.
  destruct (_ =? 0); [exact I|].
  destruct (_ =? 2 ^ Float64.prec); cbv zeta iota beta.
  - destruct (e + 1 <=? _); cbn; [lia | exact I].
  - destruct (e <=? _); cbn; [lia | exact I].
Qed.

Lemma of_int_above_emin n x : Float64.of_int n = Ok x -> above_emin x.
Proof.
  unfold Float64.of_int.
  pose proof (nearest_above_emin (n <? 0) (Z.abs n) 1) as A.
  destruct (Float64.nearest _ _ _); intros [= <-]; exact A.
Qed.

Lemma parse_decimal_above_emin s x rest :
  Float64.parse_decimal s = Some (x, rest) -> above_emin x.
Proof.
  unfold Float64.parse_decimal.
  destruct (Float64.parse_sign s) as [neg s1].
  destruct (Text.span Text.is_digit s1) as [ip s2].
  destruct (match s2 with String "." r => _ | _ => _ end) as [fp s3].
  destruct (_ && _); [discriminate|].
  destruct (Float64.parse_exponent s3) as [ex s4].
  intros [= <- _]. apply nearest_above_emin.
Qed.

Lemma parse_inf_or_nan_above_emin s x rest :
  Float64.parse_inf_or_nan s = Some (x, rest) -> above_emin x.
Proof.
  unfold Float64.parse_inf_or_nan.
  destruct (Float64.parse_sign s) as [neg s1].
  repeat match goal with
  | |- context [match ?o with Some _ => _ | None => _ end] => destruct o
  end; intros [= <- _]; exact I.
Qed.

Lemma of_string_above_emin s x : Float64.of_string s = Ok x -> above_emin x.
Proof.
  unfold Float64.of_string, Float64.of_stripped.
  destruct (Float64.remove_underscores _) as [t|]; [|discriminate].
  destruct (Text.is_empty _); [discriminate|].
  set (u := Text.rstrip_by _ _).
  destruct (Float64.parse_decimal u) as [[y rest]|] eqn:D.
  - destruct rest; [|discriminate]. intros [= <-].
    eapply parse_decimal_above_emin; eauto.
  - destruct (Float64.parse_inf_or_nan u) as [[y rest]|] eqn:P; [|discriminate].
    destruct rest; [|discriminate]. intros [= <-].
    eapply parse_inf_or_nan_above_emin; eauto.
Qed.

Lemma valid_above_emin x : Float64.valid x = true -> above_emin x.
Proof.
  destruct x as [| | |s m e]; try (intros; exact I).
  unfold Float64.valid, valid_binary, bounded, canonical_mantissa.
  intros H. apply andb_true_iff in H as [H _]. apply Z.eqb_eq in H.
  cbn. unfold fexp, SpecFloat.emin, Float64.prec, Float64.emax in H.
  unfold Float64.emin. lia.
Qed.

Lemma add_zero_r x : x <> neg_zero -> Float64.add x Float64.zero = x.
Proof. unfold neg_zero. destruct x as [[]| | |]; cbn; congruence. Qed.

End Coercions.

(** ** The total *)

Section Total.
Import FloatFacts Totals.

Lemma coerced_above_emin exp x :
  (forall y, exp !! "amount" = Some (VFloat y) -> Float64.valid y = true) ->
  coerced exp = Ok x -> above_emin x.
Proof.
  unfold coerced, subscript. intros V.
  destruct (exp !! "amount") as [[|s|n|y|]|]; cbn; try discriminate.
  - apply of_string_above_emin.
  - apply of_int_above_emin.
  - intros [= <-]. apply valid_above_emin. now apply V.
Qed.

(** One pass of the loop of [total_expenses] on a complete record. *)
Lemma total_step exp rest total w :
  is_complete_expense exp = true ->
  total_loop (exp :: rest) total w =
  match coerced exp with
  | Ok x => total_loop rest (Float64.add total x) w
  | Raise e =>
      if caught [ValueError; TypeError] e then total_loop rest total w
      else (Raise e, w)
  end.
Proof.
  intros C. cbn [total_loop]. rewrite C.
  unfold coerced, bind, try_except, lift, ret.
  destruct (subscript exp "amount") as [v|e]; cbn.
  - destruct (py_float v) as [x|e]; cbn; [reflexivity|].
    now destruct (exn_class_eqb _ _ || _).
  - now destruct (exn_class_eqb _ _ || _).
Qed.

Lemma total_loop_sum expenses w :
  amounts_valid expenses ->
  (forall exp e, In exp expenses -> ~ aborts exp e) ->
  forall total,
    above_emin total -> total <> neg_zero ->
    total_loop expenses total w
    = (Ok (fold_left Float64.add
             (map contribution (List.filter is_complete_expense expenses)) total),
       w).
Proof.
  induction expenses as [|exp rest IH]; intros V A total T N; [reflexivity|].
  assert (V' : amounts_valid rest) by (intros x y H; apply V; now right).
  assert (A' : forall x e, In x rest -> ~ aborts x e)
    by (intros x e H; apply A; now right).
  cbn [List.filter].
  destruct (is_complete_expense exp) eqn:C.
  2:{ cbn [total_loop]. rewrite C. now apply IH. }
  rewrite total_step by assumption. cbn [map fold_left].
  unfold contribution.
  destruct (coerced exp) as [x|e] eqn:E.
  - assert (X : above_emin x).
    { eapply coerced_above_emin; [|exact E]. intros y. apply V. now left. }
    destruct (add_above_emin total x T X) as [T' N'].
    apply IH; auto.
  - destruct (caught [ValueError; TypeError] e) eqn:K.
    + rewrite add_zero_r by assumption. now apply IH.
    + exfalso. apply (A exp e); [now left | repeat split; assumption].
Qed.

Lemma total_loop_abort before exp after e w :
  (forall exp' e', In exp' before -> ~ aborts exp' e') ->
  aborts exp e ->
  forall total, total_loop (before ++ exp :: after) total w = (Raise e, w).
Proof.
  intros A (C & E & K).
  induction before as [|b before IH]; intros total.
  - cbn [app]. rewrite total_step by assumption. now rewrite E, K.
  - assert (A' : forall x e', In x before -> ~ aborts x e')
      by (intros x e' H; apply A; now right).
    cbn [app]. destruct (is_complete_expense b) eqn:Cb.
    2:{ cbn [total_loop]. rewrite Cb. now apply IH. }
    rewrite total_step by assumption.
    destruct (coerced b) as [x|e'] eqn:Eb; [now apply IH|].
    destruct (caught [ValueError; TypeError] e') eqn:Kb; [now apply IH|].
    exfalso. apply (A b e'); [now left | repeat split; assumption].
Qed.

Lemma aborts_overflow exp e :
  aborts exp e ->
  exists n, exp !! "amount" = Some (VInt n) /\ exn_type e = OverflowError.
Proof.
  intros (C & E & K). unfold coerced, subscript in E.
  unfold is_complete_expense in C. cbn [forallb] in C.
  destruct (exp !! "amount") as [[|s|n|y|]|] eqn:A; cbn in *;
    try (rewrite ?andb_false_r in C; discriminate C); try discriminate E.
  - apply of_string_raises in E as ->. discriminate K.
  - exists n. split; [reflexivity|].
    unfold Float64.of_int in E.
    destruct (Float64.nearest _ _ _); now inversion E.
Qed.

(** C4: the code departs from the claim on a ledger with one complete
    record whose amount is the integer [10^400].  The coercion of that
    amount fails, so the claim has the record count as 0 and the total
    be [0.0]; [total_expenses] returns nothing: the [OverflowError] of
    the coercion is not among the exceptions its handler names, and
    ends the call. *)
Lemma C4_overflow_aborts_sum :
  let w := World [huge_amount] [] [] ∅ in
  is_complete_expense huge_amount = true
  /\ (exists e, coerced huge_amount = Raise e)
  /\ specified_total (ledger w) = Float64.zero
  /\ total_expenses w <> (Ok (specified_total (ledger w)), w)
  /\ exists e, total_expenses w = (Raise e, w) /\ exn_type e = OverflowError.
Proof.
  split; [reflexivity|].
  split; [eexists; vm_compute; reflexivity|].
  split; [vm_compute; reflexivity|].
  split; [vm_compute; discriminate|].
  eexists. split; vm_compute; reflexivity.
Qed.

(** X20: over a ledger whose float amounts are binary64 values,
    [total_expenses] returns, rounded to two decimals, the sum of the
    amounts of the complete records, an amount whose coercion raises
    [ValueError] or [TypeError] counting as 0, unless the coercion of a
    complete record raises another exception: the call then ends with
    the exception of the first such record, and this happens only for
    an integer too large for a float ([OverflowError]).  On the empty
    list the result is [0.0].  The ledger is not changed. *)
Theorem total_expenses_sum :
  (forall w,
      amounts_valid (ledger w) ->
      (forall exp e, In exp (ledger w) -> ~ aborts exp e) ->
      total_expenses w = (Ok (specified_total (ledger w)), w))
  /\ (forall w before exp after e,
        ledger w = before ++ exp :: after ->
        (forall exp' e', In exp' before -> ~ aborts exp' e') ->
        aborts exp e ->
        total_expenses w = (Raise e, w))
  /\ (forall exp e,
        aborts exp e ->
        exists n, exp !! "amount" = Some (VInt n) /\ exn_type e = OverflowError)
  /\ (forall w, ledger w = [] -> total_expenses w = (Ok Float64.zero, w)).
Proof.
  split; [|split; [|split]].
  - intros w V A. unfold total_expenses, get_ledger, bind, ret.
    rewrite (total_loop_sum (ledger w) w V A Float64.zero);
      [reflexivity | exact I | discriminate].
  - intros w before exp after e L A B.
    unfold total_expenses, get_ledger, bind, ret.
    now rewrite L, (total_loop_abort before exp after e w A B).
  - exact aborts_overflow.
  - intros w L. unfold total_expenses, get_ledger, bind, ret. now rewrite L.
Qed.

Lemma total_expenses_sum_witness :
  total_expenses
    (World [make_expense "2024-03-01" "Food" Budget.f_100_00 "Lunch";
            <["amount" := VStr "abc"]>
              (make_expense "2024-03-02" "Travel" Float64.zero "Bus")]
       [] [] ∅)
  = (Ok Budget.f_100_00,
     World [make_expense "2024-03-01" "Food" Budget.f_100_00 "Lunch";
            <["amount" := VStr "abc"]>
              (make_expense "2024-03-02" "Travel" Float64.zero "Bus")]
       [] [] ∅).
Proof.
  refine (proj1 total_expenses_sum
            (World [make_expense "2024-03-01" "Food" Budget.f_100_00 "Lunch";
                    <["amount" := VStr "abc"]>
                      (make_expense "2024-03-02" "Travel" Float64.zero "Bus")]
               [] [] ∅) _ _).
  - intros exp x [<- | [<- | []]]; vm_compute; intros H; inversion H; reflexivity.
  - intros exp e [<- | [<- | []]] (_ & E & K); vm_compute in E;
      inversion E; subst; discriminate K.
Defined.

End Total.

(** ** The budget *)

Section BudgetClaims.
Import Budget.

Lemma leb_not_gt x y : Float64.leb x y = true -> Float64.ltb y x = false.
Proof.
  unfold Float64.leb, Float64.ltb, SFleb, SFltb.
  destruct x as [sx|sx| |sx mx ex], y as [sy|sy| |sy my ey]; cbn;
    try (destruct sx); try (destruct sy); try reflexivity; try discriminate;
    rewrite (Z.compare_antisym ex ey);
    change (Pos.compare_cont Eq my mx) with (Pos.compare_cont (CompOpp Eq) my mx);
    rewrite <- (Pos.compare_cont_antisym mx my Eq);
    destruct (ex ?= ey), (Pos.compare_cont Eq mx my); cbn;
    try reflexivity; discriminate.
Qed.

Lemma track_budget_report w budget spent :
  total_expenses w = (Ok spent, w) ->
  track_budget (Some budget) w
  = (Ok (Some budget),
     printed w
       (report spent budget
          (if Float64.ltb budget spent then Exceeded
           else WithinBudget (Float64.round2 (Float64.sub budget spent))))).
Proof.
  intros T. unfold track_budget, bind, ret. cbv beta iota. rewrite T.
  unfold print, write_stdout, printed, report. cbn [ledger stdin stdout disk].
  destruct (Float64.ltb budget spent); cbn [verdict_line ledger stdin stdout disk];
    now rewrite <- !app_assoc.
Qed.

(** C5: with a budget set and [spent] the total, [track_budget] reports
    "within budget" with the remainder [budget - spent] rounded to two
    decimals whenever [spent <= budget], equality included, and
    "exceeded" whenever [spent > budget]; with a total of 100.00 against
    a budget of 100.00 the remainder is 0.00, a total of 100.01 exceeds
    it. *)
Theorem C5_budget_inclusive w budget spent :
  total_expenses w = (Ok spent, w) ->
  (Float64.leb spent budget = true ->
   track_budget (Some budget) w
   = (Ok (Some budget),
      printed w (report spent budget
                   (WithinBudget (Float64.round2 (Float64.sub budget spent))))))
  /\ (Float64.ltb budget spent = true ->
      track_budget (Some budget) w
      = (Ok (Some budget), printed w (report spent budget Exceeded)))
  /\ (track_budget (Some f_100_00) (World (ledger_of f_100_00) [] [] ∅)).2
     = printed (World (ledger_of f_100_00) [] [] ∅)
         (report f_100_00 f_100_00 (WithinBudget Float64.zero))
  /\ verdict_line (WithinBudget Float64.zero) = "You have 0.00 left for the month."
  /\ (track_budget (Some f_100_00) (World (ledger_of f_100_01) [] [] ∅)).2
     = printed (World (ledger_of f_100_01) [] [] ∅)
         (report f_100_01 f_100_00 Exceeded).
Proof.
  intros T. split; [|split; [|split; [|split]]].
  - intros L. rewrite (track_budget_report w budget spent T).
    now rewrite (leb_not_gt _ _ L).
  - intros G. rewrite (track_budget_report w budget spent T). now rewrite G.
  - vm_compute. reflexivity.
  - reflexivity.
  - vm_compute. reflexivity.
Qed.

Lemma C5_budget_inclusive_witness :
  track_budget (Some f_100_00) (World (ledger_of f_100_00) [] [] ∅)
  = (Ok (Some f_100_00),
     printed (World (ledger_of f_100_00) [] [] ∅)
       (report f_100_00 f_100_00
          (WithinBudget (Float64.round2 (Float64.sub f_100_00 f_100_00))))).
Proof.
  apply (proj1 (C5_budget_inclusive (World (ledger_of f_100_00) [] [] ∅)
                  f_100_00 f_100_00 eq_refl)).
  reflexivity.
Defined.

End BudgetClaims.

(** ** Rounding to the nearest integer, ties to even *)

Section HalfEven.

Lemma div_half_even_spec a b :
  0 < b -> - b <= 2 * (a - Float64.div_half_even a b * b) <= b.
Proof.
  intros Hb. unfold Float64.div_half_even.
  pose proof (Z.div_mod a b ltac:(lia)) as E.
  pose proof (Z.mod_pos_bound a b Hb) as R.
  destruct (Z.compare_spec (2 * (a mod b)) b) as [C|C|C];
    [destruct (Z.even (a / b))| |]; nia.
Qed.

Lemma div_half_even_unique a b j :
  0 < b -> - b < 2 * (a - j * b) < b -> Float64.div_half_even a b = j.
Proof.
  intros Hb Hj. pose proof (div_half_even_spec a b Hb) as S.
  set (m := Float64.div_half_even a b) in *. clearbody m.
  assert (- 1 < m - j < 1) by nia. lia.
Qed.

Lemma div_half_even_nearest a b j :
  0 < b ->
  Z.abs (a - Float64.div_half_even a b * b) <= Z.abs (a - j * b).
Proof.
  intros Hb. pose proof (div_half_even_spec a b Hb) as S.
  set (m := Float64.div_half_even a b) in *. clearbody m.
  destruct (Z.eq_dec j m) as [->|N]; [lia|].
  assert (b <= (j - m) * b \/ (j - m) * b <= - b) by nia.
  lia.
Qed.

Lemma div_half_even_ge a b j :
  0 < b -> j * b <= a -> j <= Float64.div_half_even a b.
Proof.
  intros Hb Hj. pose proof (div_half_even_spec a b Hb) as S.
  set (m := Float64.div_half_even a b) in *. clearbody m. nia.
Qed.

Lemma div_half_even_le a b j :
  0 < b -> a <= j * b -> Float64.div_half_even a b <= j.
Proof.
  intros Hb Hj. pose proof (div_half_even_spec a b Hb) as S.
  set (m := Float64.div_half_even a b) in *. clearbody m. nia.
Qed.

Lemma div_half_even_exact m b : 0 < b -> Float64.div_half_even (m * b) b = m.
Proof. intros Hb. apply div_half_even_unique; lia. Qed.

(** Both sides of the division may be scaled. *)
Lemma div_half_even_scale a b c :
  0 < b -> 0 < c ->
  Float64.div_half_even (a * c) (b * c) = Float64.div_half_even a b.
Proof.
  intros Hb Hc. pose proof (div_half_even_spec a b Hb) as S.
  unfold Float64.div_half_even.
  rewrite Z.div_mul_cancel_r by lia.
  rewrite Z.mul_mod_distr_r by lia.
  replace (2 * (a mod b * c) ?= b * c) with (2 * (a mod b) ?= b); [reflexivity|].
  destruct (Z.compare_spec (2 * (a mod b)) b) as [C|C|C]; symmetry.
  - apply Z.compare_eq_iff. nia.
  - apply Z.compare_lt_iff. nia.
  - apply Z.compare_gt_iff. nia.
Qed.

End HalfEven.

(** ** The binade of a quotient *)

Section Binade.

Lemma pow2_pos x : 0 <= x -> 0 < 2 ^ x.
Proof. intros. apply Z.pow_pos_nonneg; lia. Qed.

Lemma pow2_split x y : 0 <= x -> 0 <= y -> 2 ^ (x + y) = 2 ^ x * 2 ^ y.
Proof. intros. apply Z.pow_add_r; lia. Qed.

Lemma pow2_le x y : 0 <= x <= y -> 2 ^ x <= 2 ^ y.
Proof. intros. apply Z.pow_le_mono_r; lia. Qed.

Lemma pow2_lt x y : 0 <= x < y -> 2 ^ x < 2 ^ y.
Proof. intros. apply Z.pow_lt_mono_r; lia. Qed.

(** [2^k <= p/q < 2^(k+1)], with both sides scaled by [2^L]. *)
Lemma floor_log2_ratio_spec p q L :
  0 < p -> 0 < q ->
  0 <= L -> 0 <= L + Float64.floor_log2_ratio p q ->
  q * 2 ^ (L + Float64.floor_log2_ratio p q) <= p * 2 ^ L
  /\ p * 2 ^ L < q * 2 ^ (L + Float64.floor_log2_ratio p q + 1).
Proof.
  intros Hp Hq HL. unfold Float64.floor_log2_ratio.
  pose proof (Z.log2_spec p Hp) as [P1 P2].
  pose proof (Z.log2_spec q Hq) as [Q1 Q2].
  pose proof (Z.log2_nonneg p) as P0. pose proof (Z.log2_nonneg q) as Q0.
  set (lp := Z.log2 p) in *. set (lq := Z.log2 q) in *.
  set (k := lp - lq).
  pose proof (pow2_pos L HL) as HLp.
  pose proof (pow2_pos lp P0) as Hlp. pose proof (pow2_pos lq Q0) as Hlq.
  destruct (q * 2 ^ Z.max k 0 <=? p * 2 ^ Z.max (- k) 0) eqn:T; intros Hk.
  - apply Z.leb_le in T. split.
    + set (c := 2 ^ (L - Z.max (- k) 0)).
      assert (Hc : 0 < c) by (apply pow2_pos; lia).
      replace (2 ^ (L + k)) with (2 ^ Z.max k 0 * c)
        by (unfold c; rewrite <- pow2_split by lia; f_equal; lia).
      replace (2 ^ L) with (2 ^ Z.max (- k) 0 * c)
        by (unfold c; rewrite <- pow2_split by lia; f_equal; lia).
      nia.
    + (* p < 2^(lp+1), 2^lq <= q *)
      assert (E : 2 ^ (lp + 1 + L) = 2 ^ lq * 2 ^ (L + k + 1))
        by (rewrite <- pow2_split by lia; f_equal; lia).
      assert (E2 : 2 ^ (lp + 1 + L) = 2 ^ Z.succ lp * 2 ^ L)
        by (rewrite <- pow2_split by lia; f_equal; lia).
      assert (0 < 2 ^ (L + k + 1)) by (apply pow2_pos; lia).
      nia.
  - apply Z.leb_gt in T.
    assert (Hk0 : 0 <= L + k) by lia.
    split.
    + (* q < 2^(lq+1), 2^lp <= p *)
      assert (E : 2 ^ (lp + L) = 2 ^ Z.succ lq * 2 ^ (L + (k - 1)))
        by (rewrite <- pow2_split by lia; f_equal; lia).
      assert (E2 : 2 ^ (lp + L) = 2 ^ lp * 2 ^ L)
        by (rewrite <- pow2_split by lia; f_equal; lia).
      assert (0 < 2 ^ (L + (k - 1))) by (apply pow2_pos; lia).
      nia.
    + replace (L + (k - 1) + 1) with (L + k) by lia.
      set (c := 2 ^ (L - Z.max (- k) 0)).
      assert (Hc : 0 < c) by (apply pow2_pos; lia).
      replace (2 ^ (L + k)) with (2 ^ Z.max k 0 * c)
        by (unfold c; rewrite <- pow2_split by lia; f_equal; lia).
      replace (2 ^ L) with (2 ^ Z.max (- k) 0 * c)
        by (unfold c; rewrite <- pow2_split by lia; f_equal; lia).
      nia.
Qed.

End Binade.

(** ** Canonical floats *)

Section Canonical.
Import FloatValue.

Lemma digits2_pos_upper m : Z.pos m < 2 ^ Z.pos (digits2_pos m).
Proof.
  induction m as [m IH | m IH |]; cbn [digits2_pos];
    [change (Z.pos m~1) with (2 * Z.pos m + 1)
    |change (Z.pos m~0) with (2 * Z.pos m) | simpl; lia];
    rewrite Pos2Z.inj_succ, Z.pow_succ_r by lia; lia.
Qed.

Lemma valid_canonical s m e :
  Float64.valid (S754_finite s m e) = true <-> canonical (Z.pos m) e.
Proof.
  unfold Float64.valid, valid_binary, bounded, canonical_mantissa, canonical.
  unfold fexp, SpecFloat.emin, Float64.prec, Float64.emax, Float64.emin.
  pose proof (digits2_pos_lower m) as L. pose proof (digits2_pos_upper m) as U.
  set (d := Z.pos (digits2_pos m)) in *.
  assert (D : 0 < d) by (unfold d; lia). clearbody d.
  rewrite andb_true_iff, Z.eqb_eq, Z.leb_le.
  change (3 - 1024 - 53) with (-1074). change (1024 - 53) with 971.
  change (53 - 1) with 52.
  split.
  - intros [C B].
    assert (d <= 53) by lia.
    assert (2 ^ d <= 2 ^ 53) by (apply pow2_le; lia).
    repeat split; try lia.
    intros E. assert (d = 53) by lia. subst d. exact L.
  - intros (E & M & N). split; [|lia].
    assert (d <= 53).
    { destruct (Z_le_gt_dec d 53) as [?|G]; [assumption|].
      assert (2 ^ 53 <= 2 ^ (d - 1)) by (apply pow2_le; lia). lia. }
    destruct (Z.eq_dec e (-1074)) as [->|Ne]; [lia|].
    assert (2 ^ 52 <= Z.pos m) by (apply N; lia).
    assert (53 <= d).
    { destruct (Z_le_gt_dec 53 d) as [?|G]; [assumption|].
      assert (2 ^ d <= 2 ^ 52) by (apply pow2_le; lia). lia. }
    lia.
Qed.

Lemma scaled_pos m e : 0 < m -> Float64.emin <= e -> 0 < scaled m e.
Proof.
  intros. unfold scaled.
  assert (0 < 2 ^ (e - Float64.emin)) by (apply pow2_pos; lia). nia.
Qed.

Lemma scaled_shift m e d :
  0 <= d -> Float64.emin <= e -> scaled m (e + d) = scaled (m * 2 ^ d) e.
Proof.
  intros. unfold scaled.
  replace (e + d - Float64.emin) with (d + (e - Float64.emin)) by lia.
  rewrite pow2_split by lia. ring.
Qed.

(** A value has one canonical form. *)
Lemma canonical_unique m1 e1 m2 e2 :
  canonical m1 e1 -> canonical m2 e2 ->
  scaled m1 e1 = scaled m2 e2 -> m1 = m2 /\ e1 = e2.
Proof.
  assert (W : forall m1 e1 m2 e2,
             canonical m1 e1 -> canonical m2 e2 ->
             scaled m1 e1 = scaled m2 e2 -> e1 < e2 -> False).
  { clear. intros m1 e1 m2 e2 (E1 & M1 & _) (E2 & M2 & N2) S L.
    replace e2 with (e1 + (e2 - e1)) in S by lia.
    rewrite scaled_shift in S by lia. unfold scaled in S.
    assert (0 < 2 ^ (e1 - Float64.emin)) by (apply pow2_pos; lia).
    assert (m1 = m2 * 2 ^ (e2 - e1)) by nia.
    assert (2 ^ 1 <= 2 ^ (e2 - e1)) by (apply pow2_le; lia).
    change (2 ^ 1) with 2 in *.
    assert (2 ^ (Float64.prec - 1) <= m2) by (apply N2; lia).
    change (2 ^ (Float64.prec - 1)) with 4503599627370496 in *.
    change (2 ^ Float64.prec) with 9007199254740992 in *. nia. }
  intros C1 C2 S.
  destruct (Z.lt_trichotomy e1 e2) as [L|[->|L]].
  - exfalso. eapply (W m1 e1 m2 e2); eauto.
  - split; [|reflexivity]. destruct C1 as (E1 & _). unfold scaled in S.
    assert (0 < 2 ^ (e2 - Float64.emin)) by (apply pow2_pos; lia). nia.
  - exfalso. eapply (W m2 e2 m1 e1); eauto.
Qed.

End Canonical.

(** ** [nearest] returns the closest binary64 value *)

Section Nearest.
Import FloatValue.

(** The rounding of [nearest], with both sides in units of [2^emin]. *)
Lemma nearest_mantissa_scaled p q e :
  0 < q -> Float64.emin <= e ->
  Float64.div_half_even (p * 2 ^ Z.max (- e) 0) (q * 2 ^ Z.max e 0)
  = Float64.div_half_even (p * unit) (q * 2 ^ (e - Float64.emin)).
Proof.
  intros Hq He. unfold unit, Float64.emin in *.
  set (c := 2 ^ (1074 + Z.min e 0)).
  assert (Hc : 0 < c) by (apply pow2_pos; lia).
  assert (0 < 2 ^ Z.max e 0) by (apply pow2_pos; lia).
  rewrite <- (div_half_even_scale _ _ c) by nia.
  f_equal.
  - rewrite <- Z.mul_assoc. f_equal. unfold c.
    rewrite <- pow2_split by lia. f_equal. lia.
  - rewrite <- Z.mul_assoc. f_equal. unfold c.
    rewrite <- pow2_split by lia. f_equal. lia.
Qed.

(** The quotient lies below [2^53] grid steps of its binade, and from
    [2^52] on unless the binade is the lowest. *)
Lemma nearest_binade p q :
  0 < p -> 0 < q ->
  let e := Z.max (Float64.floor_log2_ratio p q - (Float64.prec - 1)) Float64.emin in
  p * unit < 2 ^ Float64.prec * (q * 2 ^ (e - Float64.emin))
  /\ (Float64.emin < e ->
      2 ^ (Float64.prec - 1) * (q * 2 ^ (e - Float64.emin)) <= p * unit).
Proof.
  intros Hp Hq e. unfold unit, Float64.prec, Float64.emin in *.
  set (k := Float64.floor_log2_ratio p q) in *.
  change (53 - 1) with 52 in *. change (- -1074) with 1074.
  assert (He : -1074 <= e) by (unfold e; lia).
  assert (Hk : k - 52 <= e) by (unfold e; lia).
  split.
  - destruct (Z_le_gt_dec 0 (1074 + k)) as [K|K].
    + pose proof (floor_log2_ratio_spec p q 1074 Hp Hq ltac:(lia) K) as [_ U].
      fold k in U.
      assert (A : 2 ^ (1074 + k + 1) <= 2 ^ (53 + (e - -1074)))
        by (apply pow2_le; lia).
      rewrite (pow2_split 53) in A by lia.
      assert (q * 2 ^ (1074 + k + 1) <= q * (2 ^ 53 * 2 ^ (e - -1074)))
        by (apply Z.mul_le_mono_nonneg_l; lia).
      lia.
    + pose proof (floor_log2_ratio_spec p q (- k) Hp Hq ltac:(lia) ltac:(lia)) as [_ U].
      fold k in U. replace (- k + k + 1) with 1 in U by lia.
      change (2 ^ 1) with 2 in U.
      assert (2 ^ 1074 <= 2 ^ (- k)) by (apply pow2_le; lia).
      assert (0 < 2 ^ (e - -1074)) by (apply pow2_pos; lia).
      change (2 ^ 53) with 9007199254740992. nia.
  - intros E. assert (e = k - 52) by (unfold e in *; lia).
    pose proof (floor_log2_ratio_spec p q 1074 Hp Hq ltac:(lia) ltac:(lia)) as [L _].
    fold k in L.
    replace (1074 + k) with (52 + (e - -1074)) in L by lia.
    rewrite (pow2_split 52) in L by lia. lia.
Qed.

(** What [nearest] computes for a positive quotient. *)
Lemma nearest_unfold s p q :
  0 < p -> 0 < q ->
  let e := Z.max (Float64.floor_log2_ratio p q - (Float64.prec - 1)) Float64.emin in
  let m := Float64.div_half_even (p * unit) (q * 2 ^ (e - Float64.emin)) in
  Float64.nearest s p q =
  if m =? 0 then S754_zero s
  else if m =? 2 ^ Float64.prec then
    if e + 1 <=? Float64.emax - Float64.prec
    then S754_finite s (Z.to_pos (2 ^ (Float64.prec - 1))) (e + 1)
    else S754_infinity s
  else
    if e <=? Float64.emax - Float64.prec then S754_finite s (Z.to_pos m) e
    else S754_infinity s.
Proof.
  intros Hp Hq e m. unfold Float64.nearest.
  destruct (p <=? 0) eqn:P; [apply Z.leb_le in P; lia|].
  fold e. rewrite nearest_mantissa_scaled by (unfold e; lia). fold m.
  destruct (m =? 0); [reflexivity|].
  now destruct (m =? 2 ^ Float64.prec).
Qed.

(** A finite result of [nearest] is canonical and at least as close to
    [p/q] as any canonical value. *)
Lemma nearest_finite s p q s' m' e' :
  0 < p -> 0 < q ->
  Float64.nearest s p q = S754_finite s' m' e' ->
  s' = s
  /\ canonical (Z.pos m') e'
  /\ forall M E,
       canonical M E ->
       Z.abs (p * unit - scaled (Z.pos m') e' * q)
       <= Z.abs (p * unit - scaled M E * q).
Proof.
  intros Hp Hq. rewrite nearest_unfold by assumption.
  pose proof (nearest_binade p q Hp Hq) as [U L].
  set (e := Z.max _ Float64.emin) in *.
  assert (He : Float64.emin <= e) by (unfold e; lia).
  set (g := 2 ^ (e - Float64.emin)) in *.
  assert (Hg : 0 < g) by (apply pow2_pos; lia).
  set (m := Float64.div_half_even (p * unit) (q * g)).
  assert (Hb : 0 < q * g) by nia.
  assert (Hu : 0 < unit) by (apply pow2_pos; unfold Float64.emin; lia).
  assert (M0 : 0 <= m) by (apply div_half_even_ge; nia).
  assert (M1 : m <= 2 ^ Float64.prec) by (apply div_half_even_le; nia).
  assert (M2 : Float64.emin < e -> 2 ^ (Float64.prec - 1) <= m)
    by (intros E; apply div_half_even_ge; [assumption | specialize (L E); nia]).
  (* the value of the result, whichever form it takes *)
  assert (V : forall M E,
             canonical M E ->
             Z.abs (p * unit - m * g * q) <= Z.abs (p * unit - scaled M E * q)).
  { intros M E (E1 & E2 & E3).
    destruct (Z.lt_trichotomy E e) as [Lt|[->|Gt]].
    - (* below the binade: the grid point [2^52] lies between *)
      specialize (L ltac:(lia)).
      pose proof (div_half_even_nearest (p * unit) (q * g) (2 ^ (Float64.prec - 1)) Hb) as N.
      fold m in N.
      assert (S : scaled M E * 2 <= 2 ^ Float64.prec * g).
      { unfold scaled, g. replace (e - Float64.emin) with ((e - E) + (E - Float64.emin)) by lia.
        rewrite pow2_split by lia.
        assert (2 ^ 1 <= 2 ^ (e - E)) by (apply pow2_le; lia).
        change (2 ^ 1) with 2 in *.
        assert (0 < 2 ^ (E - Float64.emin)) by (apply pow2_pos; lia).
        assert (M * 2 <= 2 ^ Float64.prec * 2 ^ (e - E)) by nia.
        nia. }
      change (2 ^ Float64.prec) with (2 * 2 ^ (Float64.prec - 1)) in S.
      replace (m * g * q) with (m * (q * g)) by ring.
      nia.
    - (* on the grid of the binade *)
      pose proof (div_half_even_nearest (p * unit) (q * g) M Hb) as N.
      fold m in N. unfold scaled. fold g.
      replace (m * g * q) with (m * (q * g)) by ring.
      replace (M * g * q) with (M * (q * g)) by ring. exact N.
    - (* above the binade: the grid point [2^53] lies between *)
      pose proof (div_half_even_nearest (p * unit) (q * g) (2 ^ Float64.prec) Hb) as N.
      fold m in N.
      assert (S : 2 ^ Float64.prec * g <= scaled M E).
      { unfold scaled, g. replace (E - Float64.emin) with ((E - e) + (e - Float64.emin)) by lia.
        rewrite pow2_split by lia.
        assert (2 ^ 1 <= 2 ^ (E - e)) by (apply pow2_le; lia).
        change (2 ^ 1) with 2 in *.
        specialize (E3 ltac:(lia)).
        change (2 ^ Float64.prec) with (2 * 2 ^ (Float64.prec - 1)).
        assert (0 < 2 ^ (e - Float64.emin)) by (apply pow2_pos; lia).
        assert (2 * 2 ^ (Float64.prec - 1) <= M * 2 ^ (E - e)) by nia.
        nia. }
      replace (m * g * q) with (m * (q * g)) by ring.
      nia. }
  destruct (m =? 0) eqn:Z0; [discriminate|]. apply Z.eqb_neq in Z0.
  destruct (m =? 2 ^ Float64.prec) eqn:Z1.
  - apply Z.eqb_eq in Z1.
    destruct (e + 1 <=? _) eqn:O; [|discriminate]. apply Z.leb_le in O.
    change (Z.to_pos (2 ^ (Float64.prec - 1))) with 4503599627370496%positive.
    intros [= <- <- <-]. split; [reflexivity|].
    change (Z.pos 4503599627370496) with (2 ^ (Float64.prec - 1)).
    split.
    + unfold canonical. change (2 ^ (Float64.prec - 1)) with 4503599627370496.
      change (2 ^ Float64.prec) with 9007199254740992. lia.
    + intros M E C. specialize (V M E C).
      replace (scaled (2 ^ (Float64.prec - 1)) (e + 1)) with (m * g); [exact V|].
      rewrite scaled_shift by lia. unfold scaled. fold g. rewrite Z1.
      reflexivity.
  - apply Z.eqb_neq in Z1.
    destruct (e <=? _) eqn:O; [|discriminate]. apply Z.leb_le in O.
    intros [= <- <- <-]. split; [reflexivity|].
    rewrite Z2Pos.id by lia.
    split.
    + unfold canonical. repeat split; first [lia | exact M2].
    + intros M E C. specialize (V M E C). unfold scaled at 1. fold g. exact V.
Qed.

End Nearest.

(** ** Rounding to two decimals twice *)

Section RoundTwice.
Import FloatValue.

Lemma hundredths_scaled m e :
  Float64.emin <= e ->
  Float64.hundredths m e = Float64.div_half_even (100 * scaled (Z.pos m) e) unit.
Proof.
  intros He. unfold Float64.hundredths, scaled, unit, Float64.emin in *.
  set (c := 2 ^ (1074 + Z.min e 0)).
  assert (Hc : 0 < c) by (apply pow2_pos; lia).
  assert (0 < 2 ^ Z.max (- e) 0) by (apply pow2_pos; lia).
  rewrite <- (div_half_even_scale _ _ c) by lia.
  f_equal.
  - rewrite <- !Z.mul_assoc. do 2 f_equal. unfold c.
    rewrite <- pow2_split by lia. f_equal. lia.
  - unfold c. rewrite <- pow2_split by lia. f_equal. lia.
Qed.

Lemma unit_pos : 0 < unit.
Proof. apply pow2_pos. unfold Float64.emin. lia. Qed.

Lemma hundredths_nonneg m e : Float64.emin <= e -> 0 <= Float64.hundredths m e.
Proof.
  intros He. rewrite hundredths_scaled by assumption.
  apply div_half_even_ge; [apply unit_pos|].
  pose proof (scaled_pos (Z.pos m) e ltac:(lia) He). lia.
Qed.

(** No multiple of 100 is a power of two. *)
Lemma unit_not_multiple_of_100 z : 100 * z <> unit /\ 100 * z <> - unit.
Proof.
  assert (U : unit mod 5 = 4) by (vm_compute; reflexivity).
  assert (V : (- unit) mod 5 = 1) by (vm_compute; reflexivity).
  assert (Z : (100 * z) mod 5 = 0).
  { replace (100 * z) with (20 * z * 5) by ring. apply Z.mod_mul. lia. }
  split; intros E; rewrite E in Z; lia.
Qed.

(** The two decimals of the float nearest to [n/100] are [n] again when
    [n] itself is the rounding of a float. *)
Lemma hundredths_of_nearest s M E s' m' e' :
  canonical (Z.pos M) E ->
  0 < Float64.hundredths M E ->
  Float64.nearest s (Float64.hundredths M E) 100 = S754_finite s' m' e' ->
  Float64.hundredths m' e' = Float64.hundredths M E.
Proof.
  intros C Hn Y.
  apply nearest_finite in Y as (_ & C' & Opt); [|assumption|lia].
  specialize (Opt (Z.pos M) E C).
  pose proof C as (E1 & _). pose proof C' as (E1' & _).
  rewrite (hundredths_scaled m' e') by lia.
  pose proof (hundredths_scaled M E ltac:(lia)) as Dn.
  set (n := Float64.hundredths M E) in *.
  pose proof (div_half_even_spec (100 * scaled (Z.pos M) E) unit unit_pos) as S.
  rewrite <- Dn in S.
  set (X := scaled (Z.pos M) E) in *. set (Y := scaled (Z.pos m') e') in *.
  pose proof unit_pos as Hu.
  destruct (Z.eq_dec X Y) as [EQ|NE].
  - (* the same value *)
    rewrite <- EQ. symmetry. exact Dn.
  - (* another float: strictly closer than half a hundredth *)
    apply div_half_even_unique; [exact Hu|].
    pose proof (unit_not_multiple_of_100 (X - Y)) as [N1 N2].
    lia.
Qed.

(** [round(round(x, 2), 2) = round(x, 2)] *)
Theorem round2_idempotent x :
  Float64.valid x = true ->
  Float64.round2 (Float64.round2 x) = Float64.round2 x.
Proof.
  destruct x as [| | |s M E]; try reflexivity. intros V.
  apply valid_canonical in V. pose proof V as (E1 & _).
  cbn [Float64.round2].
  pose proof (hundredths_nonneg M E ltac:(lia)) as N0.
  destruct (Z.eq_dec (Float64.hundredths M E) 0) as [Z0|NZ].
  { rewrite Z0. reflexivity. }
  destruct (Float64.nearest s (Float64.hundredths M E) 100)
    as [| | |s' m' e'] eqn:Y; try reflexivity.
  cbn [Float64.round2].
  rewrite (hundredths_of_nearest s M E s' m' e' V ltac:(lia) Y).
  pose proof Y as Y'.
  apply nearest_finite in Y' as (-> & _); [|lia..]. exact Y.
Qed.

End RoundTwice.

(** ** Numerals are read back as printed *)

Section Numerals.
Import NumberText.

Lemma all_chars_app p a b :
  all_chars p (a +:+ b) = all_chars p a && all_chars p b.
Proof.
  induction a as [|c a IH]; simpl; [reflexivity|].
  now rewrite IH, andb_assoc.
Qed.

Lemma all_digits_all_chars s : Text.all_digits s = all_chars Text.is_digit s.
Proof.
  unfold Text.all_digits. induction s as [|c s IH]; simpl; [reflexivity|].
  now rewrite IH.
Qed.

Lemma all_chars_weaken (p r : ascii -> bool) s :
  (forall c, p c = true -> r c = true) ->
  all_chars p s = true -> all_chars r s = true.
Proof.
  intros W. induction s as [|c s IH]; simpl; [reflexivity|].
  rewrite !andb_true_iff. intros [? ?]. auto.
Qed.

Lemma digit_plain c : Text.is_digit c = true -> plain c = true.
Proof. intros H. apply is_digit_cases in H. simpl in H.
  repeat (destruct H as [<- | H]; [reflexivity|]). contradiction.
Qed.

Lemma digit_not_space c : Text.is_digit c = true -> Text.is_c_space c = false.
Proof. intros H. apply is_digit_cases in H. simpl in H.
  repeat (destruct H as [<- | H]; [reflexivity|]). contradiction.
Qed.

Lemma digit_not_blank c : Text.is_digit c = true -> Text.is_space c = false.
Proof. intros H. apply is_digit_cases in H. simpl in H.
  repeat (destruct H as [<- | H]; [reflexivity|]). contradiction.
Qed.

Lemma digit_char_digit d :
  0 <= d <= 9 ->
  Text.is_digit (Text.digit_char d) = true
  /\ Text.digit_value (Text.digit_char d) = d.
Proof.
  intros H.
  assert (C : d = 0 \/ d = 1 \/ d = 2 \/ d = 3 \/ d = 4 \/ d = 5 \/ d = 6
              \/ d = 7 \/ d = 8 \/ d = 9) by lia.
  repeat (destruct C as [-> | C]; [split; reflexivity|]). subst. split; reflexivity.
Qed.

Lemma digits_value_from_app v a b :
  Text.digits_value_from v (a +:+ b)
  = Text.digits_value_from (Text.digits_value_from v a) b.
Proof. revert v. induction a as [|c a IH]; intros v; simpl; [reflexivity | apply IH]. Qed.

Lemma length_app (a b : string) :
  String.length (a +:+ b) = (String.length a + String.length b)%nat.
Proof. induction a as [|c a IH]; simpl; [reflexivity | now rewrite IH]. Qed.

Lemma decimal_from_S fuel n acc :
  Text.decimal_from (S fuel) n acc
  = if n / 10 =? 0 then String (Text.digit_char (n mod 10)) acc
    else Text.decimal_from fuel (n / 10) (String (Text.digit_char (n mod 10)) acc).
Proof. reflexivity. Qed.

(** The digits that [decimal_from] puts in front of [acc]. *)
Lemma decimal_from_spec fuel :
  forall n acc,
    0 <= n < 2 ^ Z.of_nat (S fuel) ->
    exists ds,
      Text.decimal_from (S fuel) n acc = ds +:+ acc
      /\ all_chars Text.is_digit ds = true
      /\ ds <> ""
      /\ forall v,
           Text.digits_value_from v ds
           = v * 10 ^ Z.of_nat (String.length ds) + n.
Proof.
  induction fuel as [|fuel IH]; intros n acc Hn.
  - change (2 ^ Z.of_nat 1) with 2 in Hn.
    assert (D : n / 10 = 0) by (apply Z.div_small; lia).
    assert (M : n mod 10 = n) by (apply Z.mod_small; lia).
    rewrite decimal_from_S, D, M. cbn [Z.eqb].
    destruct (digit_char_digit n ltac:(lia)) as [G V].
    exists (String (Text.digit_char n) ""). repeat split.
    + simpl. now rewrite G.
    + discriminate.
    + intros v. simpl. rewrite V. lia.
  - rewrite decimal_from_S.
    pose proof (Z.mod_pos_bound n 10 ltac:(lia)) as R.
    pose proof (Z.div_mod n 10 ltac:(lia)) as E.
    destruct (digit_char_digit (n mod 10) ltac:(lia)) as [G V].
    destruct (n / 10 =? 0) eqn:Z0.
    + apply Z.eqb_eq in Z0.
      exists (String (Text.digit_char (n mod 10)) ""). repeat split.
      * simpl. now rewrite G.
      * discriminate.
      * intros v. simpl. rewrite V. lia.
    + apply Z.eqb_neq in Z0.
      assert (B : 0 <= n / 10 < 2 ^ Z.of_nat (S fuel)).
      { split; [apply Z.div_pos; lia|].
        apply Z.div_lt_upper_bound; [lia|].
        replace (Z.of_nat (S (S fuel))) with (Z.succ (Z.of_nat (S fuel))) in Hn by lia.
        rewrite Z.pow_succ_r in Hn by lia. lia. }
      destruct (IH (n / 10) (String (Text.digit_char (n mod 10)) acc) B)
        as (ds & D1 & D2 & D3 & D4).
      exists (ds +:+ String (Text.digit_char (n mod 10)) ""). repeat split.
      * rewrite D1. now rewrite append_assoc.
      * rewrite all_chars_app, D2. simpl. now rewrite G.
      * destruct ds; [congruence | discriminate].
      * intros v. rewrite digits_value_from_app, D4. simpl. rewrite V.
        rewrite length_app. simpl.
        replace (Z.of_nat (String.length ds + 1)) with (Z.succ (Z.of_nat (String.length ds))) by lia.
        rewrite Z.pow_succ_r by lia. lia.
Qed.

Lemma decimal_spec n :
  0 <= n ->
  all_chars Text.is_digit (Text.decimal n) = true
  /\ Text.decimal n <> ""
  /\ forall v,
       Text.digits_value_from v (Text.decimal n)
       = v * 10 ^ Z.of_nat (String.length (Text.decimal n)) + n.
Proof.
  intros Hn. unfold Text.decimal.
  destruct (decimal_from_spec (Z.to_nat (Z.log2 n)) n "") as (ds & D1 & D2 & D3 & D4).
  - split; [assumption|].
    rewrite Nat2Z.inj_succ, Z2Nat.id by apply Z.log2_nonneg.
    destruct (Z.eq_dec n 0) as [->|N]; [reflexivity|].
    apply Z.log2_spec. lia.
  - rewrite D1, append_nil_r. auto.
Qed.

Lemma two_digits_spec n :
  0 <= n < 100 ->
  all_chars Text.is_digit (Text.two_digits n) = true
  /\ forall v, Text.digits_value_from v (Text.two_digits n) = v * 100 + n.
Proof.
  intros Hn. unfold Text.two_digits.
  pose proof (Z.mod_pos_bound n 10 ltac:(lia)) as R.
  pose proof (Z.div_mod n 10 ltac:(lia)) as E.
  assert (0 <= n / 10 <= 9).
  { split; [apply Z.div_pos; lia|]. apply Z.lt_succ_r.
    apply Z.div_lt_upper_bound; lia. }
  destruct (digit_char_digit (n / 10) ltac:(lia)) as [G1 V1].
  destruct (digit_char_digit (n mod 10) ltac:(lia)) as [G2 V2].
  split.
  - simpl. now rewrite G1, G2.
  - intros v. simpl. rewrite V1, V2. lia.
Qed.

End Numerals.

(** ** [float()] reads the [.2f] format back *)

Section ReadBack.
Import NumberText.

Lemma transform_plain s :
  all_chars plain s = true -> Float64.transform_to_ascii s = s.
Proof.
  induction s as [|c s IH]; simpl; [reflexivity|].
  rewrite andb_true_iff. intros [P A]. unfold plain in P.
  apply andb_true_iff in P as [P _]. rewrite P. now rewrite IH.
Qed.

Lemma remove_underscores_plain s :
  all_chars plain s = true ->
  forall prev,
    Ascii.eqb prev "_" = false ->
    Float64.remove_underscores_from prev s = Some s.
Proof.
  induction s as [|c s IH]; simpl; intros A prev Hp.
  - now rewrite Hp.
  - apply andb_true_iff in A as [P A]. unfold plain in P.
    apply andb_true_iff in P as [_ P]. apply negb_true_iff in P.
    rewrite P, Hp. cbn [andb]. now rewrite IH.
Qed.

Lemma rstrip_keep p s c :
  p c = false -> Text.rstrip_by p (s +:+ String c "") = s +:+ String c "".
Proof.
  intros H. induction s as [|a s IH]; simpl.
  - now rewrite H.
  - rewrite IH. now destruct s.
Qed.

Lemma span_digits ds rest :
  all_chars Text.is_digit ds = true ->
  match rest with
  | String c _ => Text.is_digit c = false
  | EmptyString => True
  end ->
  Text.span Text.is_digit (ds +:+ rest) = (ds, rest).
Proof.
  intros D R. induction ds as [|c ds IH]; simpl.
  - destruct rest as [|c r]; [reflexivity|]. simpl. now rewrite R.
  - simpl in D. apply andb_true_iff in D as [C D]. rewrite C, IH by assumption.
    reflexivity.
Qed.

Lemma parse_sign_digit c r :
  Text.is_digit c = true -> Float64.parse_sign (String c r) = (false, String c r).
Proof.
  intros H. apply is_digit_cases in H. simpl in H.
  repeat (destruct H as [<- | H]; [reflexivity|]). contradiction.
Qed.

Lemma numeral_shape s ip d1 d2 :
  all_chars Text.is_digit ip = true -> ip <> "" ->
  Text.is_digit d1 = true -> Text.is_digit d2 = true ->
  all_chars plain (numeral s ip d1 d2) = true
  /\ (exists c r, numeral s ip d1 d2 = String c r
                  /\ Text.is_c_space c = false /\ Text.is_space c = false)
  /\ (exists t, numeral s ip d1 d2 = t +:+ String d2 "").
Proof.
  intros I N D1 D2. unfold numeral, Float64.sign_text. split; [|split].
  - rewrite !all_chars_app. simpl.
    rewrite (all_chars_weaken _ _ ip digit_plain I).
    rewrite (digit_plain d1 D1), (digit_plain d2 D2). now destruct s.
  - destruct ip as [|c ip]; [congruence|]. simpl in I.
    apply andb_true_iff in I as [C _].
    destruct s; simpl; do 2 eexists;
      (split; [reflexivity|]); split;
      first [reflexivity | now apply digit_not_space | now apply digit_not_blank].
  - exists ((if s then "-" else "") +:+ ip +:+ String "." (String d1 "")).
    now rewrite !append_assoc.
Qed.

Lemma parse_numeral s ip d1 d2 :
  all_chars Text.is_digit ip = true -> ip <> "" ->
  Text.is_digit d1 = true -> Text.is_digit d2 = true ->
  Float64.parse_decimal (numeral s ip d1 d2)
  = Some (Float64.nearest s
            (Text.digits_value (ip +:+ String d1 (String d2 "")) * 1) 100,
          "").
Proof.
  intros I N D1 D2. unfold Float64.parse_decimal, numeral.
  assert (S : Float64.parse_sign
                (Float64.sign_text s +:+ ip +:+ String "." (String d1 (String d2 "")))
              = (s, ip +:+ String "." (String d1 (String d2 "")))).
  { destruct s; [reflexivity|]. simpl.
    destruct ip as [|c ip]; [congruence|]. simpl in I.
    apply andb_true_iff in I as [C _]. simpl. now apply parse_sign_digit. }
  rewrite S. rewrite span_digits by (try assumption; reflexivity).
  change (String d1 (String d2 "")) with (String d1 (String d2 "") +:+ "").
  rewrite span_digits by (simpl; rewrite ?D1, ?D2; reflexivity).
  destruct ip as [|c ip]; [congruence|]. reflexivity.
Qed.

Lemma of_string_numeral s ip d1 d2 :
  all_chars Text.is_digit ip = true -> ip <> "" ->
  Text.is_digit d1 = true -> Text.is_digit d2 = true ->
  Float64.of_string (numeral s ip d1 d2)
  = Ok (Float64.nearest s
          (Text.digits_value (ip +:+ String d1 (String d2 "")) * 1) 100)
  /\ Text.strip (numeral s ip d1 d2) = numeral s ip d1 d2
  /\ numeral s ip d1 d2 <> "".
Proof.
  intros I N D1 D2.
  destruct (numeral_shape s ip d1 d2 I N D1 D2) as (P & (c & r & E & C1 & C2) & (t & T)).
  split; [|split].
  - unfold Float64.of_string, Float64.remove_underscores.
    rewrite transform_plain, remove_underscores_plain by (try assumption; reflexivity).
    replace (Text.lstrip_by Text.is_c_space (numeral s ip d1 d2))
      with (numeral s ip d1 d2) by (rewrite E; simpl; now rewrite C1).
    rewrite T, rstrip_keep by now apply digit_not_space.
    rewrite <- T. rewrite E at 1. cbn [Text.is_empty].
    unfold Float64.of_stripped. now rewrite parse_numeral.
  - unfold Text.strip.
    replace (Text.lstrip_by Text.is_space (numeral s ip d1 d2))
      with (numeral s ip d1 d2) by (rewrite E; simpl; now rewrite C2).
    rewrite T. apply rstrip_keep. now apply digit_not_blank.
  - rewrite E. discriminate.
Qed.

Lemma hundredths_nonneg_any m e : 0 <= Float64.hundredths m e.
Proof.
  unfold Float64.hundredths.
  assert (0 < 2 ^ Z.max (- e) 0) by (apply pow2_pos; lia).
  assert (0 < 2 ^ Z.max e 0) by (apply pow2_pos; lia).
  apply div_half_even_ge; [assumption | nia].
Qed.

(** The text of a finite value is a numeral of its hundredths. *)
Lemma format_2f_numeral s m e :
  exists ip d1 d2,
    Float64.format_2f (S754_finite s m e) = numeral s ip d1 d2
    /\ all_chars Text.is_digit ip = true /\ ip <> ""
    /\ Text.is_digit d1 = true /\ Text.is_digit d2 = true
    /\ Text.digits_value (ip +:+ String d1 (String d2 "")) = Float64.hundredths m e.
Proof.
  pose proof (hundredths_nonneg_any m e) as N0.
  cbn [Float64.format_2f]. set (n := Float64.hundredths m e) in *.
  pose proof (Z.mod_pos_bound n 100 ltac:(lia)) as R.
  pose proof (Z.div_mod n 100 ltac:(lia)) as E.
  assert (Q : 0 <= n / 100) by (apply Z.div_pos; lia).
  destruct (decimal_spec (n / 100) Q) as (I1 & I2 & I3).
  destruct (two_digits_spec (n mod 100) R) as (T1 & T2).
  exists (Text.decimal (n / 100)),
    (Text.digit_char (n mod 100 / 10)), (Text.digit_char (n mod 100 mod 10)).
  unfold Text.two_digits in T1, T2. simpl in T1.
  apply andb_true_iff in T1 as [T1a T1b]. rewrite andb_true_r in T1b.
  repeat split; try assumption.
  unfold Text.digits_value. rewrite digits_value_from_app, I3, T2. lia.
Qed.

Lemma of_string_format_2f x :
  Float64.of_string (Float64.format_2f x) = Ok (Float64.round2 x)
  /\ Text.strip (Float64.format_2f x) = Float64.format_2f x
  /\ Float64.format_2f x <> "".
Proof.
  destruct x as [[]|[]| |s m e]; try (repeat split; first [reflexivity | discriminate]).
  destruct (format_2f_numeral s m e) as (ip & d1 & d2 & -> & I & N & D1 & D2 & V).
  destruct (of_string_numeral s ip d1 d2 I N D1 D2) as (A & B & C).
  rewrite A, V, Z.mul_1_r. auto.
Qed.

End ReadBack.

(** ** Saving, then loading *)

Section SaveLoad.
Import Loading RoundTrip.

Variable float_repr : float -> string.

Lemma write_row_run name cells w f :
  disk w !! name = Some f ->
  write_row name cells w
  = (Ok tt,
     World (ledger w) (stdin w) (stdout w)
       (<[name := File (file_present f) (file_rows f ++ [cells]) (file_fault f)
                    (file_open_r f) (file_open_w f)]> (disk w))).
Proof.
  intros D. unfold write_row, get_file, set_file, bind. cbv beta iota.
  now rewrite D.
Qed.

(** The loop of [save_expenses] appends the rows of the ledger. *)
Lemma save_loop_ok name expenses :
  forall w f w',
    disk w !! name = Some f ->
    save_loop float_repr name expenses w = (Ok tt, w') ->
    exists rows,
      rows_of float_repr expenses = Ok rows
      /\ w' = World (ledger w) (stdin w) (stdout w)
                (<[name := File (file_present f) (file_rows f ++ rows) (file_fault f)
                             (file_open_r f) (file_open_w f)]> (disk w)).
Proof.
  induction expenses as [|exp rest IH]; intros w f w' D.
  - cbn. intros [= <-]. exists []. split; [reflexivity|].
    rewrite app_nil_r. destruct w, f; cbn in *. f_equal.
    symmetry. now apply insert_id.
  - cbn [save_loop rows_of]. destruct (is_complete_expense exp); cbn [negb].
    2:{ apply IH. exact D. }
    unfold row_of, bind, lift.
    destruct (subscript exp "date") as [date|e]; [|discriminate].
    destruct (subscript exp "category") as [category|e]; [|discriminate].
    destruct (subscript exp "amount") as [amount|e]; [|discriminate].
    destruct (py_float amount) as [x|e]; [|discriminate].
    destruct (subscript exp "description") as [description|e]; [|discriminate].
    rewrite (write_row_run _ _ _ f D).
    set (f1 := File _ _ _ _ _). set (w1 := World _ _ _ _).
    intros S. apply (IH w1 f1) in S as (rows & R & ->);
      [|unfold w1; cbn; apply lookup_insert_eq].
    rewrite R. eexists. split; [reflexivity|].
    unfold w1, f1. cbn. rewrite insert_insert_eq. now rewrite <- app_assoc.
Qed.

Lemma open_write_run name w :
  open_write name w =
  match disk w !! name with
  | Some f =>
      match file_open_w f with
      | Some e => (Raise e, w)
      | None =>
          (Ok tt, World (ledger w) (stdin w) (stdout w)
                    (<[name := File true [] None (file_open_r f) None]> (disk w)))
      end
  | None =>
      (Ok tt, World (ledger w) (stdin w) (stdout w)
                (<[name := File true [] None None None]> (disk w)))
  end.
Proof.
  unfold open_write, get_file, set_file, raise, bind. cbv beta iota.
  destruct (disk w !! name) as [f|]; [|reflexivity].
  now destruct (file_open_w f).
Qed.

(** [save_expenses] after the file has been opened. *)
Lemma save_body_ok filename w0 f0 w1 :
  disk w0 !! filename = Some f0 ->
  (write_row filename CSV_HEADERS ;;
   expenses <- get_ledger ;;
   save_loop float_repr filename expenses ;;
   print ("Expenses saved to " +:+ filename)) w0 = (Ok tt, w1) ->
  exists rows,
    rows_of float_repr (ledger w0) = Ok rows
    /\ ledger w1 = ledger w0
    /\ disk w1 !! filename
       = Some (File (file_present f0) (file_rows f0 ++ CSV_HEADERS :: rows)
                 (file_fault f0) (file_open_r f0) (file_open_w f0)).
Proof.
  intros D. unfold bind at 1. rewrite (write_row_run _ _ _ f0 D).
  unfold bind at 1, get_ledger. cbn [ledger]. unfold bind at 1.
  set (f1 := File _ _ _ _ _). set (w2 := World _ _ _ _).
  destruct (save_loop float_repr filename (ledger w0) w2) as [[[]|e] w3] eqn:SL;
    [|discriminate].
  apply (save_loop_ok filename (ledger w0) w2 f1) in SL as (rows & R & ->);
    [|unfold w2; cbn; apply lookup_insert_eq].
  unfold print, write_stdout. intros [= <-].
  exists rows. split; [exact R|]. split; [reflexivity|].
  unfold w2, f1. cbn. rewrite insert_insert_eq, lookup_insert_eq.
  now rewrite <- app_assoc.
Qed.

Lemma save_expenses_ok filename w w1 :
  save_expenses float_repr filename w = (Ok tt, w1) ->
  exists rows,
    rows_of float_repr (ledger w) = Ok rows
    /\ ledger w1 = ledger w
    /\ disk w1 !! filename
       = Some (File true (CSV_HEADERS :: rows) None
                 (match disk w !! filename with
                  | Some f => file_open_r f
                  | None => None
                  end) None).
Proof.
  unfold save_expenses. unfold bind at 1. rewrite open_write_run.
  destruct (disk w !! filename) as [f|];
    [destruct (file_open_w f); [discriminate|]|];
    intros S; eapply save_body_ok in S as (rows & R & L & D);
    try (cbn; apply lookup_insert_eq);
    exists rows; (split; [exact R|]); (split; [exact L|]); exact D.
Qed.

End SaveLoad.

Section RoundTripClaims.
Import Loading RoundTrip.

Lemma rows_of_In float_repr expenses :
  forall rows exp,
    rows_of float_repr expenses = Ok rows ->
    In exp expenses -> is_complete_expense exp = true ->
    exists row, row_of float_repr exp = Ok row /\ In row rows.
Proof.
  induction expenses as [|e0 rest IH]; intros rows exp R I C; [contradiction|].
  cbn [rows_of] in R. destruct I as [->|I].
  - rewrite C in R. destruct (row_of float_repr exp) as [row|]; [|discriminate].
    destruct (rows_of float_repr rest) as [rows'|]; [|discriminate].
    injection R as <-. exists row. split; [reflexivity | now left].
  - destruct (is_complete_expense e0).
    + destruct (row_of float_repr e0) as [row0|]; [|discriminate].
      destruct (rows_of float_repr rest) as [rows'|] eqn:R'; [|discriminate].
      injection R as <-.
      destruct (IH rows' exp eq_refl I C) as (row & H1 & H2).
      exists row. split; [exact H1 | now right].
    + now apply IH.
Qed.

Lemma float_not_sentinel v x : py_float v = Ok x -> is_sentinel v = false.
Proof. destruct v as [|[|c s]| | |]; try reflexivity; discriminate. Qed.

Lemma entered_row float_repr exp date category amount description :
  entered exp date category amount description ->
  is_complete_expense exp = true
  /\ row_of float_repr exp
     = Ok [date; category; Float64.format_2f amount; description].
Proof.
  intros (D & C & (v & A & F) & T & V & _ & NC & _ & NT & _ & _).
  apply valid_date_not_empty in V.
  split.
  - unfold is_complete_expense. cbn [forallb]. rewrite D, C, A, T.
    rewrite (float_not_sentinel v amount F).
    now destruct date, category, description.
  - unfold row_of, subscript. rewrite D, C, A, T, F. cbn.
    now destruct date, category, description.
Qed.

Lemma record_of_unique row exp1 exp2 :
  record_of row exp1 -> record_of row exp2 -> exp1 = exp2.
Proof. intros [x1 H1] [x2 H2]. congruence. Qed.

Lemma loaded_In rows exps :
  loaded rows exps ->
  forall row exp,
    In row rows -> accepts row -> record_of row exp -> In exp exps.
Proof.
  induction 1 as [|row0 rows exp0 exps A0 R0 _ IH|row0 rows exps N0 _ IH];
    intros row exp I A R.
  - contradiction.
  - destruct I as [->|I]; [left; eapply record_of_unique; eauto|].
    right. eapply IH; eauto.
  - destruct I as [->|I]; [contradiction|]. eapply IH; eauto.
Qed.

(** The row written for an entered record is accepted on reading, and
    gives the record with the rounded amount. *)
Lemma written_row_read (date category : string) amount description :
  is_valid_date date = true -> Text.strip date = date ->
  category <> "" -> Text.strip category = category ->
  description <> "" -> Text.strip description = description ->
  Float64.valid amount = true ->
  let row := Csv.make_row CSV_HEADERS
               [date; category; Float64.format_2f amount; description] in
  accepts row
  /\ record_of row
       (make_expense date category (Float64.round2 amount) description).
Proof.
  intros V SD NC SC NT ST VA row.
  destruct (of_string_format_2f amount) as (P & SA & NA).
  assert (Cd : column row "date" = date) by exact SD.
  assert (Cc : column row "category" = category) by exact SC.
  assert (Ca : column row "amount" = Float64.format_2f amount) by exact SA.
  assert (Ct : column row "description" = description) by exact ST.
  split.
  - unfold accepts. rewrite Cd, Cc, Ca, Ct.
    repeat split; try assumption; eauto using valid_date_not_empty.
  - rewrite <- (round2_idempotent amount VA).
    rewrite <- Cd at 1. rewrite <- Cc at 1. rewrite <- Ct at 1.
    constructor. now rewrite Ca.
Qed.

(** C1, as stated, fails: of two complete records with positive amounts,
    one whose category starts with a blank and one whose date is no
    date, the first is read back with another category and the second
    is not read back at all. *)
Lemma C1_not_read_back_unchanged :
  let w := World [padded; undated] [] [] ∅ in
  let w1 := (save_expenses (fun _ => EmptyString) "expenses.csv" w).2 in
  let exps := [make_expense "2024-03-01" "Food"
                 (S754_finite false 7036874417766400 (-49)) "Lunch"] in
  is_complete_expense padded = true
  /\ is_complete_expense undated = true
  /\ (save_expenses (fun _ => EmptyString) "expenses.csv" w).1 = Ok tt
  /\ (load_expenses "expenses.csv" w1).1 = Ok exps
  /\ ~ (exists exp,
          In exp exps /\ exp !! "category" = padded !! "category")
  /\ ~ (exists exp, In exp exps /\ exp !! "date" = undated !! "date").
Proof.
  split; [reflexivity|]. split; [reflexivity|].
  split; [vm_compute; reflexivity|]. split; [vm_compute; reflexivity|].
  split; intros (exp & [<- | []] & H); vm_compute in H; discriminate H.
Qed.

(** C1 (amended): let a ledger hold a record whose date is valid, whose
    category and description are not blank, all three without blanks
    around them, and whose amount [float()] turns into [amount].  If
    [save_expenses] returns normally and the file can be read back,
    [load_expenses] returns a list that holds the record with the same
    date, category and description and with [amount] rounded to two
    decimals. *)
Theorem C1_save_then_load float_repr filename w w1
    exp date category amount description :
  save_expenses float_repr filename w = (Ok tt, w1) ->
  can_be_read_back filename w1 ->
  In exp (ledger w) ->
  entered exp date category amount description ->
  exists exps,
    load_expenses filename w1 = (Ok exps, w1)
    /\ In (make_expense date category (Float64.round2 amount) description) exps.
Proof.
  intros S B I E.
  apply save_expenses_ok in S as (rows & R & _ & D).
  destruct (B _ D) as [O F]. cbn in O, F.
  destruct (entered_row float_repr exp date category amount description E) as [C W].
  destruct (rows_of_In float_repr (ledger w) rows exp R I C) as (row & W' & IR).
  rewrite W in W'. injection W' as <-.
  set (f1 := File true (CSV_HEADERS :: rows) None _ None) in D.
  destruct (load_expenses_readable w1 filename f1 D) as (exps & L & LE).
  { split; [reflexivity | exact O]. }
  { exact F. }
  exists exps. split; [exact LE|].
  destruct E as (_ & _ & _ & _ & V & SD & NC & SC & NT & ST & VA).
  destruct (written_row_read date category amount description V SD NC SC NT ST VA)
    as [A Rec].
  eapply loaded_In; [exact L | | exact A | exact Rec].
  cbn [data_rows]. apply in_map. apply filter_In. split; [exact IR | reflexivity].
Qed.

Lemma C1_save_then_load_witness :
  let w := World [make_expense "2024-03-01" "Food"
                    (S754_finite false 7036874417766400 (-49)) "Lunch"] [] [] ∅ in
  let w1 := (save_expenses (fun _ => EmptyString) "expenses.csv" w).2 in
  exists exps,
    load_expenses "expenses.csv" w1 = (Ok exps, w1)
    /\ In (make_expense "2024-03-01" "Food"
             (Float64.round2 (S754_finite false 7036874417766400 (-49))) "Lunch")
         exps.
Proof.
  intros w w1.
  apply (C1_save_then_load (fun _ => EmptyString) "expenses.csv" w w1
           (make_expense "2024-03-01" "Food"
              (S754_finite false 7036874417766400 (-49)) "Lunch")
           "2024-03-01" "Food" (S754_finite false 7036874417766400 (-49)) "Lunch").
  - reflexivity.
  - intros f D. vm_compute in D. injection D as <-.
    split; [reflexivity | repeat constructor].
  - now left.
  - unfold entered.
    split; [reflexivity|]. split; [reflexivity|].
    split; [eexists; split; reflexivity|].
    split; [reflexivity|]. split; [reflexivity|]. split; [reflexivity|].
    split; [discriminate|]. split; [reflexivity|].
    split; [discriminate|]. split; reflexivity.
Defined.

End RoundTripClaims.

(** ** The records the program makes *)

Section Made.
Import Loading RoundTrip FloatValue.

Lemma nearest_valid s p q :
  0 < q -> Float64.valid (Float64.nearest s p q) = true.
Proof.
  intros Hq. destruct (Z.le_gt_cases p 0) as [P|P].
  - unfold Float64.nearest. apply Z.leb_le in P. now rewrite P.
  - destruct (Float64.nearest s p q) as [| | |s' m' e'] eqn:E; try reflexivity.
    apply nearest_finite in E as (_ & C & _); [|lia|assumption].
    now apply valid_canonical.
Qed.

Lemma round2_valid x :
  Float64.valid x = true -> Float64.valid (Float64.round2 x) = true.
Proof.
  destruct x as [| | |s m e]; try (intros; assumption).
  intros _. apply nearest_valid. lia.
Qed.

Lemma parse_decimal_valid s x rest :
  Float64.parse_decimal s = Some (x, rest) -> Float64.valid x = true.
Proof.
  unfold Float64.parse_decimal.
  destruct (Float64.parse_sign s) as [neg s1].
  destruct (Text.span Text.is_digit s1) as [ip s2].
  destruct (match s2 with String "." r => _ | _ => _ end) as [fp s3].
  destruct (_ && _); [discriminate|].
  destruct (Float64.parse_exponent s3) as [ex s4].
  intros [= <- _]. apply nearest_valid. apply Z.pow_pos_nonneg; lia.
Qed.

Lemma parse_inf_or_nan_valid s x rest :
  Float64.parse_inf_or_nan s = Some (x, rest) -> Float64.valid x = true.
Proof.
  unfold Float64.parse_inf_or_nan.
  destruct (Float64.parse_sign s) as [neg s1].
  repeat match goal with
  | |- context [match ?o with Some _ => _ | None => _ end] => destruct o
  end; intros [= <- _]; reflexivity.
Qed.

(** [float()] of a text is a binary64 value. *)
Lemma of_string_valid s x :
  Float64.of_string s = Ok x -> Float64.valid x = true.
Proof.
  unfold Float64.of_string, Float64.of_stripped.
  destruct (Float64.remove_underscores _) as [t|]; [|discriminate].
  destruct (Text.is_empty _); [discriminate|].
  set (u := Text.rstrip_by _ _).
  destruct (Float64.parse_decimal u) as [[y rest]|] eqn:D.
  - destruct rest; [|discriminate]. intros [= <-].
    eapply parse_decimal_valid; eauto.
  - destruct (Float64.parse_inf_or_nan u) as [[y rest]|] eqn:P; [|discriminate].
    destruct rest; [|discriminate]. intros [= <-].
    eapply parse_inf_or_nan_valid; eauto.
Qed.

Lemma rstrip_by_cons p c s :
  Text.rstrip_by p (String c s)
  = match Text.rstrip_by p s with
    | EmptyString => if p c then EmptyString else String c EmptyString
    | t => String c t
    end.
Proof. reflexivity. Qed.

Lemma rstrip_by_twice p s :
  Text.rstrip_by p (Text.rstrip_by p s) = Text.rstrip_by p s.
Proof.
  induction s as [|c s IH]; [reflexivity|]. rewrite rstrip_by_cons.
  destruct (Text.rstrip_by p s) as [|d r] eqn:E.
  - destruct (p c) eqn:C; [reflexivity|]. cbn. now rewrite C.
  - rewrite rstrip_by_cons. now rewrite IH.
Qed.

Lemma lstrip_by_head p c s : p c = false -> Text.lstrip_by p (String c s) = String c s.
Proof. intros H. cbn. now rewrite H. Qed.

Lemma lstrip_by_shape p s :
  Text.lstrip_by p s = ""
  \/ exists c r, Text.lstrip_by p s = String c r /\ p c = false.
Proof.
  induction s as [|c s IH]; [now left|]. cbn.
  destruct (p c) eqn:C; [exact IH|]. right. eauto.
Qed.

(** [s.strip().strip() == s.strip()] *)
Lemma strip_twice s : Text.strip (Text.strip s) = Text.strip s.
Proof.
  unfold Text.strip.
  destruct (lstrip_by_shape Text.is_space s) as [->|(c & r & -> & C)];
    [reflexivity|].
  assert (H : exists r', Text.rstrip_by Text.is_space (String c r) = String c r').
  { cbn. destruct (Text.rstrip_by Text.is_space r); [rewrite C|]; eauto. }
  destruct H as [r' H].
  rewrite <- (rstrip_by_twice Text.is_space (String c r)) at 2.
  rewrite H. now rewrite lstrip_by_head.
Qed.

Lemma made_of_lines date category x description :
  is_valid_date (Text.strip date) = true ->
  Text.strip category <> "" -> Float64.valid x = true ->
  Text.strip description <> "" ->
  made (make_expense (Text.strip date) (Text.strip category)
          (Float64.round2 x) (Text.strip description)).
Proof.
  intros V C X T.
  exists (Text.strip date), (Text.strip category), (Float64.round2 x),
    (Text.strip description).
  split; [reflexivity|]. split; [|now apply round2_idempotent].
  unfold entered.
  split; [reflexivity|]. split; [reflexivity|].
  split; [eexists; split; reflexivity|]. split; [reflexivity|].
  split; [exact V|]. split; [apply strip_twice|].
  split; [exact C|]. split; [apply strip_twice|].
  split; [exact T|]. split; [apply strip_twice|].
  now apply round2_valid.
Qed.

Lemma add_expense_made w :
  ledger (add_expense w).2 = ledger w
  \/ exists exp, ledger (add_expense w).2 = ledger w ++ [exp] /\ made exp.
Proof.
  destruct w as [lg sin sout dk]. unfold add_expense, read_positive_amount. run.
  destruct sin as [|l1 sin]; simpl; [now left|].
  destruct (is_valid_date (Text.strip l1)) eqn:E1; simpl; [|now left].
  destruct sin as [|l2 sin]; simpl; [now left|].
  destruct (Text.is_empty (Text.strip l2)) eqn:E2; simpl; [now left|].
  destruct sin as [|l3 sin]; simpl; [now left|].
  destruct (Float64.of_string (Text.strip l3)) as [x|e] eqn:E3; simpl.
  2:{ apply of_string_raises in E3 as ->. simpl. now left. }
  destruct (Float64.leb x Float64.zero); simpl; [now left|].
  destruct sin as [|l4 sin]; simpl; [now left|].
  destruct (Text.is_empty (Text.strip l4)) eqn:E4; simpl; [now left|].
  right. eexists. split; [reflexivity|].
  apply made_of_lines; [exact E1 | now apply is_empty_false
                       | now apply of_string_valid in E3
                       | now apply is_empty_false].
Qed.

Lemma load_row_made row exp : load_row row = Some exp -> made exp.
Proof.
  intros H.
  assert (A : accepts row) by (apply load_row_accepts; eauto).
  apply load_row_record in H. destruct H as [x Hx].
  destruct A as (_ & Hc & _ & Ht & Hv & _).
  apply made_of_lines; try assumption. now apply of_string_valid in Hx.
Qed.

Lemma load_loop_made fieldnames rows :
  forall expenses,
    Forall made expenses ->
    Forall made (load_loop fieldnames rows expenses).1.
Proof.
  induction rows as [|[cells|e] rows IH]; intros expenses H; simpl; auto.
  destruct cells as [|c cells]; [now apply IH|].
  destruct (load_row _) as [exp|] eqn:E; apply IH; auto.
  apply Forall_app. split; [assumption|].
  constructor; [|constructor]. now apply load_row_made in E.
Qed.

Lemma load_expenses_made filename w expenses w' :
  load_expenses filename w = (Ok expenses, w') -> Forall made expenses.
Proof.
  rewrite load_expenses_run.
  assert (C : forall f,
             Forall made (load_rows (Csv.reader (file_rows f) (file_fault f))).1).
  { intros f. destruct (Csv.reader _ _) as [|[h|e] rows]; simpl;
      try constructor. now apply load_loop_made. }
  destruct (disk w !! filename) as [f|]; [|intros [= <- _]; constructor].
  specialize (C f).
  destruct (file_present f); [|intros [= <- _]; constructor].
  destruct (file_open_r f); [intros [= <- _]; constructor|].
  destruct (load_rows _) as [es [e|]]; intros [= <- _]; exact C.
Qed.

(** Every record of a ledger the program has built is as [add_expense]
    and [load_expenses] make them. *)
Lemma built_by_program_made expenses :
  built_by_program expenses -> Forall made expenses.
Proof.
  induction 1 as [filename w expenses w' H | w r w' _ IH H].
  - eapply load_expenses_made; eauto.
  - destruct (add_expense_made w) as [E | (exp & E & C)];
      rewrite H in E; simpl in E; rewrite E; [assumption|].
    apply Forall_app. split; [assumption|]. now repeat constructor.
Qed.

End Made.

(** ** A ledger of the program's own is read back as it was saved *)

Section ReadBackLedger.
Import Loading RoundTrip.

Variable float_repr : float -> string.

Lemma loaded_rows_of expenses :
  Forall made expenses ->
  forall rows exps,
    rows_of float_repr expenses = Ok rows ->
    loaded (data_rows (CSV_HEADERS :: rows)) exps ->
    exps = expenses.
Proof.
  induction 1 as [|exp expenses M _ IH]; intros rows exps R L.
  - injection R as <-. now inversion L.
  - destruct M as (d & c & a & t & -> & E & A).
    destruct (entered_row float_repr _ d c a t E) as [C W].
    cbn [rows_of] in R. rewrite C, W in R.
    destruct (rows_of float_repr expenses) as [rows'|]; [|discriminate].
    injection R as <-.
    destruct E as (_ & _ & _ & _ & V & SD & NC & SC & NT & ST & VA).
    destruct (written_row_read d c a t V SD NC SC NT ST VA) as [Acc Rec].
    rewrite A in Rec.
    cbn [data_rows List.filter is_nil negb map] in L.
    inversion L as [|row rs exp0 exps0 _ Rec0 L0|row rs exps0 N0 _]; subst.
    + f_equal; [eapply record_of_unique; eauto|].
      apply (IH rows'); [reflexivity | exact L0].
    + contradiction.
Qed.

(** After a save that returns normally, a ledger of records as the
    program makes them is loaded from the file exactly as it was. *)
Theorem save_then_load_ledger filename w w1 :
  Forall made (ledger w) ->
  save_expenses float_repr filename w = (Ok tt, w1) ->
  can_be_read_back filename w1 ->
  load_expenses filename w1 = (Ok (ledger w), w1).
Proof.
  intros M S B.
  apply save_expenses_ok in S as (rows & R & _ & D).
  destruct (B _ D) as [O F]. cbn in O, F.
  set (f1 := File true (CSV_HEADERS :: rows) None _ None) in D.
  destruct (load_expenses_readable w1 filename f1 D) as (exps & L & LE).
  { split; [reflexivity | exact O]. }
  { exact F. }
  rewrite LE. now rewrite (loaded_rows_of (ledger w) M rows exps R L).
Qed.

End ReadBackLedger.

(** * Further properties of the program *)

(** ** Relations kept by every step *)

Section Steps.
Context (R : world -> world -> Prop) `{!PreOrder R}.
(** The files that may be written. *)
Variable writes : string -> Prop.
Hypothesis R_print : forall w s, R w (write_stdout s w).2.
Hypothesis R_read : forall w, R w (read_line w).2.
Hypothesis R_append : forall w exp, R w (append_expense exp w).2.
Hypothesis R_write : forall w name f, writes name -> R w (set_file name f w).2.

Lemma steps_print s : respects R (print s).
Proof. intros w. apply R_print. Qed.

Lemma steps_input s : respects R (input s).
Proof.
  unfold input. apply respects_bind; [assumption | exact (fun w => R_print w s) |].
  intros _. exact R_read.
Qed.

Lemma steps_read_positive_amount s a b : respects R (read_positive_amount s a b).
Proof. unfold read_positive_amount. frame; apply steps_print. Qed.

Lemma steps_add_expense : respects R add_expense.
Proof.
  unfold add_expense. frame;
    first [ apply steps_input | apply steps_print
          | apply steps_read_positive_amount | idtac ].
  intros w. apply R_append.
Qed.

Lemma steps_total_loop expenses :
  forall total, respects R (total_loop expenses total).
Proof.
  induction expenses as [|exp rest IH]; intros total; simpl; frame; apply IH.
Qed.

Lemma steps_total_expenses : respects R total_expenses.
Proof.
  unfold total_expenses. frame; [|apply steps_total_loop].
  intros w. simpl. reflexivity.
Qed.

Lemma steps_set_budget : respects R set_budget.
Proof.
  unfold set_budget. frame;
    auto using steps_input, steps_read_positive_amount.
Qed.

Lemma steps_track_budget budget : respects R (track_budget budget).
Proof.
  unfold track_budget. frame;
    auto using steps_print, steps_set_budget, steps_total_expenses.
Qed.

Lemma steps_view_loop repr expenses :
  forall idx shown, respects R (view_loop repr idx expenses shown).
Proof.
  induction expenses as [|exp rest IH]; intros idx shown; simpl; frame;
    auto using steps_print.
Qed.

Lemma steps_view_expenses repr : respects R (view_expenses repr).
Proof.
  unfold view_expenses. frame; auto using steps_print, steps_view_loop.
  intros w. simpl. reflexivity.
Qed.

Lemma steps_load_expenses name : respects R (load_expenses name).
Proof.
  intros w. rewrite load_expenses_run.
  destruct (disk w !! name) as [f|]; [|reflexivity].
  destruct (file_present f); [|reflexivity].
  destruct (file_open_r f) as [e|];
    [exact (R_print w (("Failed to load expenses: " +:+ exn_text e) +:+ Text.newline))|].
  destruct (load_rows _) as [es [e|]]; [|reflexivity].
  exact (R_print w (("Failed to load expenses: " +:+ exn_text e) +:+ Text.newline)).
Qed.

Lemma steps_show_menu : respects R show_menu.
Proof. unfold show_menu. frame; apply steps_print. Qed.

Lemma steps_open_write name : writes name -> respects R (open_write name).
Proof.
  intros W w. unfold open_write, get_file, bind, raise. simpl.
  destruct (disk w !! name) as [f|]; [destruct (file_open_w f)|];
    simpl; try reflexivity; now apply R_write.
Qed.

Lemma steps_write_row name cells : writes name -> respects R (write_row name cells).
Proof.
  intros W w. unfold write_row, get_file, bind, ret. simpl.
  destruct (disk w !! name) as [f|]; simpl; [now apply R_write | reflexivity].
Qed.

Lemma steps_save_loop repr name expenses :
  writes name -> respects R (save_loop repr name expenses).
Proof.
  intros W. induction expenses as [|exp rest IH]; simpl; frame;
    auto using steps_write_row.
Qed.

Lemma steps_save_expenses repr name :
  writes name -> respects R (save_expenses repr name).
Proof.
  intros W. unfold save_expenses. frame;
    auto using steps_print, steps_save_loop, steps_open_write, steps_write_row.
  intros w. simpl. reflexivity.
Qed.

Lemma steps_menu_pass repr budget :
  writes "expenses.csv" -> respects R (menu_pass repr budget).
Proof.
  intros W. unfold menu_pass, menu_choice. frame;
    auto using steps_show_menu, steps_input, steps_add_expense,
      steps_view_expenses, steps_track_budget, steps_save_expenses, steps_print.
Qed.

Lemma steps_main_loop repr fuel :
  writes "expenses.csv" ->
  forall budget w r w',
    main_loop repr fuel budget w = Some (r, w') -> R w w'.
Proof.
  intros W. induction fuel as [|fuel IH]; intros budget w r w'; [discriminate|].
  cbn [main_loop]. pose proof (steps_menu_pass repr budget W w) as P.
  destruct (menu_pass repr budget w) as [[[b|]|e] w1]; simpl in P.
  - intros H. etransitivity; [exact P | eapply IH; eauto].
  - now intros [= _ <-].
  - now intros [= _ <-].
Qed.

End Steps.

Section Traces.
Import Trace.

Global Instance same_disk_preorder : PreOrder same_disk.
Proof. split; unfold same_disk; [intros w | intros a b c]; congruence. Qed.

Global Instance other_files_preorder filename : PreOrder (other_files filename).
Proof.
  split; unfold other_files; [intros w | intros a b c Hab Hbc]; intros name N;
    [reflexivity|].
  now rewrite Hbc, Hab.
Qed.

Global Instance stdout_grows_preorder : PreOrder stdout_grows.
Proof.
  split; unfold stdout_grows.
  - intros w. exists []. now rewrite app_nil_r.
  - intros a b c [m1 H1] [m2 H2]. exists (m1 ++ m2). now rewrite H2, H1, app_assoc.
Qed.

Global Instance stdin_consumed_preorder : PreOrder stdin_consumed.
Proof.
  split; unfold stdin_consumed.
  - intros w. now exists [].
  - intros a b c [t1 H1] [t2 H2]. exists (t1 ++ t2). now rewrite H1, H2, app_assoc.
Qed.

Global Instance ledger_grows_preorder : PreOrder ledger_grows.
Proof.
  split; unfold ledger_grows.
  - intros w. exists []. now rewrite app_nil_r.
  - intros a b c [m1 H1] [m2 H2]. exists (m1 ++ m2). now rewrite H2, H1, app_assoc.
Qed.

Lemma other_files_set filename w f :
  other_files filename w (set_file filename f w).2.
Proof. intros name N. simpl. now apply lookup_insert_ne. Qed.

Lemma stdout_grows_print w s : stdout_grows w (write_stdout s w).2.
Proof. now exists [s]. Qed.

Lemma stdin_consumed_read w : stdin_consumed w (read_line w).2.
Proof.
  destruct w as [lg [|l ls] out dk]; simpl; [now exists [] | now exists [l]].
Qed.

Lemma ledger_grows_append w exp : ledger_grows w (append_expense exp w).2.
Proof. now exists [exp]. Qed.

(** X1: [add_expense], [view_expenses], [total_expenses], [set_budget],
    [track_budget] and [load_expenses] end, whether they return or raise,
    with every file as it was; [save_expenses] leaves every file but the
    one it is given as it was. *)
Theorem operations_keep_disk float_repr w :
  disk (add_expense w).2 = disk w
  /\ disk (view_expenses float_repr w).2 = disk w
  /\ disk (total_expenses w).2 = disk w
  /\ disk (set_budget w).2 = disk w
  /\ (forall budget, disk (track_budget budget w).2 = disk w)
  /\ (forall filename, disk (load_expenses filename w).2 = disk w)
  /\ (forall filename name,
        name <> filename ->
        disk (save_expenses float_repr filename w).2 !! name = disk w !! name).
Proof.
  assert (P : forall w s, same_disk w (write_stdout s w).2) by reflexivity.
  assert (I : forall w, same_disk w (read_line w).2)
    by (intros [lg [|l ls] out dk]; reflexivity).
  assert (A : forall w exp, same_disk w (append_expense exp w).2) by reflexivity.
  split; [exact (steps_add_expense same_disk P I A w)|].
  split; [exact (steps_view_expenses same_disk P float_repr w)|].
  split; [exact (steps_total_expenses same_disk w)|].
  split; [exact (steps_set_budget same_disk P I w)|].
  split; [intros b; exact (steps_track_budget same_disk P I b w)|].
  split; [intros fn; exact (steps_load_expenses same_disk P fn w)|].
  intros fn name N.
  refine (steps_save_expenses (other_files fn) (fun n => n = fn) _ _
            float_repr fn eq_refl w name N).
  - intros w0 s name0 N0. reflexivity.
  - intros w0 name0 f ->. apply other_files_set.
Qed.

Lemma load_expenses_world filename w :
  exists exps more,
    load_expenses filename w
    = (Ok exps, World (ledger w) (stdin w) (stdout w ++ more) (disk w)).
Proof.
  rewrite load_expenses_run.
  assert (E : w = World (ledger w) (stdin w) (stdout w ++ []) (disk w))
    by (destruct w; simpl; now rewrite app_nil_r).
  destruct (disk w !! filename) as [f|]; [|exists [], []; now rewrite <- E].
  destruct (file_present f); [|exists [], []; now rewrite <- E].
  destruct (file_open_r f) as [e|]; [now eexists [], [_]|].
  destruct (load_rows _) as [es [e|]]; [now eexists es, [_]|].
  exists es, []. now rewrite <- E.
Qed.

(** The world in which the menu loop of [main] starts: the ledger is the
    loaded list, nothing was read and no file was touched. *)
Lemma main_start float_repr w r w' :
  main float_repr w = Some (r, w') ->
  exists exps more,
    (load_expenses "expenses.csv" w).1 = Ok exps
    /\ main_loop float_repr (S (length (stdin w))) None
         (World exps (stdin w) (stdout w ++ more) (disk w))
       = Some (r, w').
Proof.
  unfold main.
  destruct (load_expenses_world "expenses.csv" w) as (exps & more & L).
  unfold bind at 1. rewrite L. unfold set_ledger, bind, ret, print, write_stdout.
  cbn [ledger stdin stdout disk].
  destruct (is_nil exps); cbn [stdin]; intros H.
  - exists exps, more. split; [reflexivity | exact H].
  - eexists exps, (more ++ [_]). split; [reflexivity|].
    rewrite app_assoc. exact H.
Qed.

(** X2: from the start of [main] to its end, whatever the end is: what was
    printed stays printed, the lines are read from the front and none is
    put back, no file other than [expenses.csv] is touched, and the
    ledger is the list loaded at the start followed by the records
    added since. *)
Theorem main_session_trace float_repr w r w' :
  main float_repr w = Some (r, w') ->
  stdout_grows w w'
  /\ stdin_consumed w w'
  /\ other_files "expenses.csv" w w'
  /\ exists loaded added,
       (load_expenses "expenses.csv" w).1 = Ok loaded
       /\ ledger w' = loaded ++ added.
Proof.
  intros H. apply main_start in H as (exps & more & L & H).
  set (w0 := World exps (stdin w) (stdout w ++ more) (disk w)) in H.
  split; [|split; [|split]].
  - transitivity w0; [now exists more|].
    refine (steps_main_loop stdout_grows (fun _ => True) _ _ _ _
              float_repr _ I None w0 r w' H).
    + exact stdout_grows_print.
    + intros [lg [|l ls] out dk]; simpl; exists []; now rewrite app_nil_r.
    + intros w1 exp. exists []. simpl. now rewrite app_nil_r.
    + intros w1 name f _. exists []. simpl. now rewrite app_nil_r.
  - transitivity w0; [now exists []|].
    refine (steps_main_loop stdin_consumed (fun _ => True) _ _ _ _
              float_repr _ I None w0 r w' H).
    + intros w1 s. now exists [].
    + exact stdin_consumed_read.
    + intros w1 exp. now exists [].
    + intros w1 name f _. now exists [].
  - transitivity w0; [intros name N; reflexivity|].
    refine (steps_main_loop (other_files "expenses.csv")
              (fun n => n = "expenses.csv") _ _ _ _
              float_repr _ eq_refl None w0 r w' H).
    + intros w1 s name N. reflexivity.
    + intros [lg [|l ls] out dk] name N; reflexivity.
    + intros w1 exp name N. reflexivity.
    + intros w1 name f ->. apply other_files_set.
  - exists exps.
    assert (G : ledger_grows w0 w').
    { refine (steps_main_loop ledger_grows (fun _ => True) _ _ _ _
                float_repr _ I None w0 r w' H).
      + intros w1 s. exists []. simpl. now rewrite app_nil_r.
      + intros [lg [|l ls] out dk]; exists []; simpl; now rewrite app_nil_r.
      + exact ledger_grows_append.
      + intros w1 name f _. exists []. simpl. now rewrite app_nil_r. }
    destruct G as [added G]. exists added. split; [exact L | exact G].
Qed.

Lemma main_session_trace_witness :
  let w := World [] ["1"; "2024-03-01"; "Food"; "12.5"; "Lunch"; "5"; "left"]
             ["before"] ∅ in
  exists w',
    main (fun _ => EmptyString) w = Some (Ok tt, w')
    /\ stdin w' = ["left"]
    /\ stdout_grows w w'
    /\ stdin_consumed w w'
    /\ other_files "expenses.csv" w w'
    /\ exists loaded added,
         (load_expenses "expenses.csv" w).1 = Ok loaded
         /\ ledger w' = loaded ++ added.
Proof.
  intros w.
  exists (match main (fun _ => EmptyString) w with
          | Some (_, w') => w'
          | None => w
          end).
  split; [vm_compute; reflexivity|]. split; [vm_compute; reflexivity|].
  apply (main_session_trace (fun _ => EmptyString) w (Ok tt)).
  vm_compute. reflexivity.
Defined.

End Traces.

(** ** What [save_expenses] writes *)

Section SaveRuns.
Import RoundTrip Saving.

Variable float_repr : float -> string.

Lemma save_loop_run name expenses :
  forall rows w f,
    rows_of float_repr expenses = Ok rows ->
    disk w !! name = Some f ->
    save_loop float_repr name expenses w
    = (Ok tt,
       World (ledger w) (stdin w) (stdout w)
         (<[name := File (file_present f) (file_rows f ++ rows) (file_fault f)
                      (file_open_r f) (file_open_w f)]> (disk w))).
Proof.
  induction expenses as [|exp rest IH]; intros rows w f R D.
  - injection R as <-. cbn. rewrite app_nil_r.
    destruct w, f; cbn in *. f_equal. f_equal. symmetry. now apply insert_id.
  - cbn [save_loop rows_of] in *. destruct (is_complete_expense exp); cbn [negb].
    2:{ now apply IH. }
    unfold row_of in R. unfold bind, lift.
    destruct (subscript exp "date") as [date|e]; [|discriminate].
    destruct (subscript exp "category") as [category|e]; [|discriminate].
    destruct (subscript exp "amount") as [amount|e]; [|discriminate].
    destruct (py_float amount) as [x|e]; [|discriminate].
    destruct (subscript exp "description") as [description|e]; [|discriminate].
    destruct (rows_of float_repr rest) as [rows'|]; [|discriminate].
    injection R as <-.
    rewrite (write_row_run _ _ _ f D).
    erewrite (IH rows'); [|reflexivity|cbn; apply lookup_insert_eq].
    cbn. rewrite insert_insert_eq. now rewrite <- app_assoc.
Qed.

Lemma save_loop_raises name before exp after :
  forall rows e w f,
    rows_of float_repr before = Ok rows ->
    is_complete_expense exp = true ->
    row_of float_repr exp = Raise e ->
    disk w !! name = Some f ->
    save_loop float_repr name (before ++ exp :: after) w
    = (Raise e,
       World (ledger w) (stdin w) (stdout w)
         (<[name := File (file_present f) (file_rows f ++ rows) (file_fault f)
                      (file_open_r f) (file_open_w f)]> (disk w))).
Proof.
  induction before as [|b before IH]; intros rows e w f R C E D.
  - injection R as <-. cbn [app save_loop]. rewrite C. cbn [negb].
    unfold row_of in E. unfold bind, lift.
    rewrite app_nil_r.
    assert (W : w = World (ledger w) (stdin w) (stdout w)
                      (<[name := File (file_present f) (file_rows f) (file_fault f)
                                   (file_open_r f) (file_open_w f)]> (disk w))).
    { destruct w, f; cbn in *. f_equal. symmetry. now apply insert_id. }
    rewrite <- W.
    destruct (subscript exp "date") as [date|e1]; [|congruence].
    destruct (subscript exp "category") as [category|e1]; [|congruence].
    destruct (subscript exp "amount") as [amount|e1]; [|congruence].
    destruct (py_float amount) as [x|e1]; [|congruence].
    destruct (subscript exp "description") as [description|e1];
      [discriminate | congruence].
  - cbn [app save_loop rows_of] in *. destruct (is_complete_expense b); cbn [negb].
    2:{ now apply IH. }
    unfold row_of in R. unfold bind, lift.
    destruct (subscript b "date") as [date|e1]; [|discriminate].
    destruct (subscript b "category") as [category|e1]; [|discriminate].
    destruct (subscript b "amount") as [amount|e1]; [|discriminate].
    destruct (py_float amount) as [x|e1]; [|discriminate].
    destruct (subscript b "description") as [description|e1]; [|discriminate].
    destruct (rows_of float_repr before) as [rows'|]; [|discriminate].
    injection R as <-.
    rewrite (write_row_run _ _ _ f D).
    erewrite (IH rows'); [|reflexivity|exact C|exact E|cbn; apply lookup_insert_eq].
    cbn. rewrite insert_insert_eq. now rewrite <- app_assoc.
Qed.

(** The file once [open] has emptied it and the header is written. *)
Lemma save_header_run filename w :
  writable filename w ->
  (open_write filename ;; write_row filename CSV_HEADERS) w
  = (Ok tt,
     World (ledger w) (stdin w) (stdout w)
       (<[filename := saved_file filename w []]> (disk w))).
Proof.
  unfold writable, saved_file. intros W. unfold bind at 1.
  rewrite open_write_run.
  destruct (disk w !! filename) as [f|]; [rewrite W|];
    (erewrite write_row_run; [|cbn; apply lookup_insert_eq]);
    cbn; now rewrite insert_insert_eq.
Qed.

Lemma save_expenses_unfold filename w :
  save_expenses float_repr filename w =
  match (open_write filename ;; write_row filename CSV_HEADERS) w with
  | (Ok _, w1) =>
      match save_loop float_repr filename (ledger w1) w1 with
      | (Ok _, w2) => print ("Expenses saved to " +:+ filename) w2
      | (Raise e, w2) => (Raise e, w2)
      end
  | (Raise e, w1) => (Raise e, w1)
  end.
Proof.
  unfold save_expenses, bind, get_ledger.
  destruct (open_write filename w) as [[[]|e] w0]; [|reflexivity].
  destruct (write_row filename CSV_HEADERS w0) as [[[]|e] w1]; [|reflexivity].
  now destruct (save_loop float_repr filename (ledger w1) w1) as [[[]|e] w2].
Qed.

Lemma rows_of_shape expenses :
  forall rows,
    rows_of float_repr expenses = Ok rows ->
    length rows = length (List.filter is_complete_expense expenses)
    /\ Forall (fun row => length row = 4%nat) rows.
Proof.
  induction expenses as [|exp rest IH]; intros rows R.
  - injection R as <-. split; [reflexivity | constructor].
  - cbn [rows_of List.filter] in *. destruct (is_complete_expense exp); [|now apply IH].
    destruct (row_of float_repr exp) as [row|] eqn:E; [|discriminate].
    destruct (rows_of float_repr rest) as [rows'|]; [|discriminate].
    injection R as <-. destruct (IH rows' eq_refl) as [L F].
    split; [cbn; now rewrite L|]. constructor; [|exact F].
    unfold row_of in E.
    repeat match type of E with
    | match ?x with _ => _ end = _ => destruct x; [|discriminate]
    end.
    now injection E as <-.
Qed.

Lemma save_expenses_run filename w rows :
  writable filename w ->
  rows_of float_repr (ledger w) = Ok rows ->
  save_expenses float_repr filename w
  = (Ok tt,
     World (ledger w) (stdin w)
       (stdout w ++ [("Expenses saved to " +:+ filename) +:+ Text.newline])
       (<[filename := saved_file filename w rows]> (disk w))).
Proof.
  intros W R.
  rewrite save_expenses_unfold, save_header_run by assumption.
  cbn [ledger].
  erewrite save_loop_run; [|exact R|cbn; apply lookup_insert_eq].
  unfold print, write_stdout, saved_file. cbn.
  now rewrite insert_insert_eq.
Qed.

End SaveRuns.

(** X3: when the file can be opened for writing and every complete record
    has an amount that [float()] accepts, [save_expenses] returns
    normally, prints that the expenses were saved and leaves a file that
    holds the header and after it one row of four cells for each
    complete record, in the order of the ledger; what the file held
    before is gone, and nothing else has changed. *)
Theorem save_expenses_writes float_repr filename w rows :
  Saving.writable filename w ->
  RoundTrip.rows_of float_repr (ledger w) = Ok rows ->
  save_expenses float_repr filename w
  = (Ok tt,
     World (ledger w) (stdin w)
       (stdout w ++ [("Expenses saved to " +:+ filename) +:+ Text.newline])
       (<[filename := Saving.saved_file filename w rows]> (disk w)))
  /\ length rows = length (List.filter is_complete_expense (ledger w))
  /\ Forall (fun row => length row = 4%nat) rows.
Proof.
  intros W R. split; [|now apply (rows_of_shape float_repr (ledger w))].
  now apply save_expenses_run.
Qed.

Lemma save_expenses_writes_witness :
  let w := World [make_expense "2024-03-01" "Food"
                    (S754_finite false 7036874417766400 (-49)) "Lunch";
                  <["category" := VNone]>
                    (make_expense "2024-03-02" "Rent" Float64.zero "Flat")]
             [] [] {["expenses.csv" := File true [["old"]] None None None]} in
  save_expenses (fun _ => EmptyString) "expenses.csv" w
  = (Ok tt,
     World (ledger w) [] ["Expenses saved to expenses.csv" +:+ Text.newline]
       {["expenses.csv" :=
           File true [CSV_HEADERS; ["2024-03-01"; "Food"; "12.50"; "Lunch"]]
             None None None]}).
Proof.
  intros w.
  destruct (save_expenses_writes (fun _ => EmptyString) "expenses.csv" w
              [["2024-03-01"; "Food"; "12.50"; "Lunch"]]) as [S _];
    [reflexivity | vm_compute; reflexivity |].
  rewrite S. vm_compute. reflexivity.
Defined.

(** X4: when a complete record has an amount that [float()] refuses,
    [save_expenses] raises that error at this record: the file is left
    with the header and the rows of the records before it, the records
    after it are not written, what the file held before is gone and no
    message is printed. *)
Theorem save_expenses_stops_midway float_repr filename w before exp after rows e :
  Saving.writable filename w ->
  ledger w = before ++ exp :: after ->
  RoundTrip.rows_of float_repr before = Ok rows ->
  is_complete_expense exp = true ->
  RoundTrip.row_of float_repr exp = Raise e ->
  save_expenses float_repr filename w
  = (Raise e,
     World (ledger w) (stdin w) (stdout w)
       (<[filename := Saving.saved_file filename w rows]> (disk w))).
Proof.
  intros W L R C E.
  rewrite save_expenses_unfold, save_header_run by assumption.
  cbn [ledger]. rewrite L.
  erewrite save_loop_raises; [|exact R|exact C|exact E|cbn; apply lookup_insert_eq].
  unfold Saving.saved_file. cbn. now rewrite insert_insert_eq.
Qed.

Lemma save_expenses_stops_midway_witness :
  let good := make_expense "2024-03-01" "Food"
                (S754_finite false 7036874417766400 (-49)) "Lunch" in
  let w := World [good; Saving.unreadable_amount; good] [] []
             {["expenses.csv" := File true [["old"]; ["older"]] None None None]} in
  save_expenses (fun _ => EmptyString) "expenses.csv" w
  = (Raise Float64.could_not_convert,
     World (ledger w) [] []
       {["expenses.csv" :=
           File true [CSV_HEADERS; ["2024-03-01"; "Food"; "12.50"; "Lunch"]]
             None None None]}).
Proof.
  intros good w.
  rewrite (save_expenses_stops_midway (fun _ => EmptyString) "expenses.csv" w
             [good] Saving.unreadable_amount [good]
             [["2024-03-01"; "Food"; "12.50"; "Lunch"]] Float64.could_not_convert);
    vm_compute; reflexivity.
Defined.

(** ** How the operations end *)

Section Outcomes.
Import RoundTrip.

Lemma input_run prompt w :
  input prompt w =
  match stdin w with
  | [] => (Raise end_of_input,
           World (ledger w) [] (stdout w ++ [prompt]) (disk w))
  | l :: ls => (Ok l, World (ledger w) ls (stdout w ++ [prompt]) (disk w))
  end.
Proof. unfold input. run. now destruct (stdin w). Qed.

Lemma add_expense_raises w e w' :
  add_expense w = (Raise e, w') ->
  e = end_of_input /\ stdin w' = [] /\ ledger w' = ledger w /\ disk w' = disk w
  /\ (length (stdin w) < 4)%nat.
Proof.
  destruct w as [lg sin sout dk]. unfold add_expense, read_positive_amount. run.
  destruct sin as [|l1 sin]; simpl; [intros [= <- <-]; repeat split; simpl; lia|].
  destruct (is_valid_date (Text.strip l1)) eqn:E1; simpl; [|discriminate].
  destruct sin as [|l2 sin]; simpl; [intros [= <- <-]; repeat split; simpl; lia|].
  destruct (Text.is_empty (Text.strip l2)) eqn:E2; simpl; [discriminate|].
  destruct sin as [|l3 sin]; simpl; [intros [= <- <-]; repeat split; simpl; lia|].
  destruct (Float64.of_string (Text.strip l3)) as [x|e3] eqn:E3; simpl.
  2:{ apply of_string_raises in E3 as ->. simpl. discriminate. }
  destruct (Float64.leb x Float64.zero); simpl; [discriminate|].
  destruct sin as [|l4 sin]; simpl; [intros [= <- <-]; repeat split; simpl; lia|].
  destruct (Text.is_empty (Text.strip l4)) eqn:E4; simpl; discriminate.
Qed.

End Outcomes.

(** X5: [add_expense] raises nothing but the [EOFError] of [input()], and
    only when fewer than four lines are left to read: the input is then
    used up, and neither the ledger nor a file has changed, so no record
    is ever appended in part. *)
Theorem add_expense_raises_only_at_end_of_input w e w' :
  add_expense w = (Raise e, w') ->
  e = end_of_input
  /\ (length (stdin w) < 4)%nat
  /\ stdin w' = [] /\ ledger w' = ledger w /\ disk w' = disk w.
Proof.
  intros H. apply add_expense_raises in H as (E & S & L & D & N).
  repeat split; assumption.
Qed.

Lemma add_expense_raises_only_at_end_of_input_witness :
  let w := World [] ["2024-03-01"; "Food"; "12.5"] [] ∅ in
  (add_expense w).1 = Raise end_of_input
  /\ (length (stdin w) < 4)%nat
  /\ stdin (add_expense w).2 = [] /\ ledger (add_expense w).2 = ledger w
  /\ disk (add_expense w).2 = disk w.
Proof.
  intros w.
  destruct (add_expense_raises_only_at_end_of_input w end_of_input (add_expense w).2)
    as (_ & N & S & L & D); [vm_compute; reflexivity|].
  split; [vm_compute; reflexivity|]. repeat split; assumption.
Defined.

(** ** The listing *)

Section ViewRuns.
Import Listing.

Variable float_repr : float -> string.

Lemma py_str_index idx : 0 <= idx -> py_str float_repr (VInt idx) = Text.decimal idx.
Proof.
  intros H. unfold py_str.
  destruct (idx <? 0) eqn:N; [apply Z.ltb_lt in N; lia|].
  now rewrite Z.abs_eq.
Qed.

Lemma make_expense_fields d c a t :
  make_expense d c a t !! "date" = Some (VStr d)
  /\ make_expense d c a t !! "category" = Some (VStr c)
  /\ make_expense d c a t !! "amount" = Some (VFloat a)
  /\ make_expense d c a t !! "description" = Some (VStr t).
Proof. repeat split; reflexivity. Qed.

Lemma view_loop_run expenses idx lines n :
  listing idx expenses lines n ->
  0 <= idx ->
  forall shown w,
    view_loop float_repr idx expenses shown w
    = (Ok (shown + n), World (ledger w) (stdin w) (stdout w ++ lines) (disk w)).
Proof.
  induction 1 as [idx|idx exp rest lines n C _ IH
                 |idx d c a t rest lines n Hd Hc Ht _ IH];
    intros I shown w.
  - cbn. rewrite app_nil_r, Z.add_0_r. now destruct w.
  - cbn [view_loop]. rewrite C. cbn [negb]. unfold bind at 1.
    rewrite py_str_index by assumption.
    unfold print, write_stdout. cbv beta iota. rewrite IH; [|lia]. cbn.
    now rewrite <- app_assoc.
  - cbn [view_loop].
    rewrite (make_expense_complete d c a t Hd Hc Ht). cbn [negb].
    rewrite py_str_index by assumption.
    destruct (make_expense_fields d c a t) as (Fd & Fc & Fa & Ft).
    unfold bind, lift, subscript. rewrite Fd, Fc, Fa, Ft.
    cbn [py_format_2f py_str]. unfold print, write_stdout. cbv beta iota.
    rewrite IH; [|lia]. cbn [ledger stdin stdout disk].
    rewrite <- app_assoc. do 2 f_equal. lia.
Qed.

Lemma view_expenses_start w :
  view_expenses float_repr w =
  if is_nil (ledger w) then print "No expenses recorded yet." w
  else
    match view_loop float_repr 1 (ledger w) 0
            (World (ledger w) (stdin w) (stdout w ++ [heading +:+ Text.newline])
               (disk w)) with
    | (Ok shown, w') =>
        if shown =? 0 then print "No complete expense entries to display." w'
        else (Ok tt, w')
    | (Raise e, w') => (Raise e, w')
    end.
Proof.
  unfold view_expenses, get_ledger. unfold bind at 1.
  destruct (is_nil (ledger w)); [reflexivity|].
  unfold bind at 1. unfold print at 1, write_stdout. unfold bind at 1.
  destruct (view_loop _ _ _ _ _) as [[shown|e] w']; [|reflexivity].
  now destruct (shown =? 0).
Qed.

Lemma complete_fields exp :
  is_complete_expense exp = true ->
  exists vd vc va vt,
    exp !! "date" = Some vd /\ exp !! "category" = Some vc
    /\ exp !! "amount" = Some va /\ exp !! "description" = Some vt.
Proof.
  unfold is_complete_expense. cbn [forallb].
  destruct (exp !! "date") as [vd|]; [|discriminate].
  destruct (exp !! "category") as [vc|]; [|now rewrite andb_false_r].
  destruct (exp !! "amount") as [va|]; [|now rewrite !andb_false_r].
  destruct (exp !! "description") as [vt|]; [|now rewrite !andb_false_r].
  intros _. now exists vd, vc, va, vt.
Qed.

Lemma view_loop_raises before idx lines n :
  listing idx before lines n ->
  0 <= idx ->
  forall exp after e shown w,
    is_complete_expense exp = true ->
    (forall v, exp !! "amount" = Some v -> py_format_2f v = Raise e) ->
    view_loop float_repr idx (before ++ exp :: after) shown w
    = (Raise e, World (ledger w) (stdin w) (stdout w ++ lines) (disk w)).
Proof.
  induction 1 as [idx|idx b rest lines n C _ IH
                 |idx d c a t rest lines n Hd Hc Ht _ IH];
    intros I exp after e shown w Cx A.
  - cbn [app view_loop]. rewrite Cx. cbn [negb].
    destruct (complete_fields exp Cx) as (vd & vc & va & vt & Fd & Fc & Fa & Ft).
    unfold bind, lift, subscript. rewrite Fd, Fc, Fa, (A va Fa).
    rewrite app_nil_r. now destruct w.
  - cbn [app view_loop]. rewrite C. cbn [negb]. unfold bind at 1.
    unfold print, write_stdout. cbv beta iota.
    rewrite py_str_index by assumption.
    erewrite IH; [|lia|exact Cx|exact A]. cbn. now rewrite <- app_assoc.
  - cbn [app view_loop].
    rewrite (make_expense_complete d c a t Hd Hc Ht). cbn [negb].
    rewrite py_str_index by assumption.
    destruct (make_expense_fields d c a t) as (Fd & Fc & Fa & Ft).
    unfold bind, lift, subscript. rewrite Fd, Fc, Fa, Ft.
    cbn [py_format_2f py_str]. unfold print, write_stdout. cbv beta iota.
    erewrite IH; [|lia|exact Cx|exact A]. cbn [ledger stdin stdout disk].
    now rewrite <- app_assoc.
Qed.

Lemma listing_made expenses :
  Forall RoundTrip.made expenses ->
  forall idx,
    exists lines, listing idx expenses lines (Z.of_nat (length expenses)).
Proof.
  induction 1 as [|exp rest M _ IH]; intros idx; [exists []; constructor|].
  destruct M as (d & c & a & t & -> & E & _).
  destruct E as (_ & _ & _ & _ & V & _ & NC & _ & NT & _).
  destruct (IH (idx + 1)) as [lines L].
  eexists. replace (Z.of_nat (length (_ :: rest)))
    with (Z.of_nat (length rest) + 1) by (cbn [length]; lia).
  apply listing_show; eauto using valid_date_not_empty.
Qed.

Lemma view_expenses_made w :
  Forall RoundTrip.made (ledger w) ->
  exists out,
    view_expenses float_repr w = (Ok tt, World (ledger w) (stdin w) out (disk w)).
Proof.
  intros M. destruct (listing_made _ M 1) as [lines L].
  rewrite view_expenses_start.
  destruct (is_nil (ledger w)); [now eexists|].
  rewrite (view_loop_run _ _ _ _ L) by lia. cbn [ledger stdin stdout disk].
  destruct (_ =? 0); now eexists.
Qed.

(** The loop of [view_expenses] over records whose amounts the format
    takes. *)
Lemma view_loop_printed expenses :
  (forall exp,
      In exp expenses -> is_complete_expense exp = true -> formats exp) ->
  forall idx,
    0 <= idx ->
    exists lines,
      printed float_repr idx expenses lines
      /\ forall shown w,
           view_loop float_repr idx expenses shown w
           = (Ok (shown
                  + Z.of_nat (length (List.filter is_complete_expense expenses))),
              World (ledger w) (stdin w) (stdout w ++ lines) (disk w)).
Proof.
  induction expenses as [|exp rest IH]; intros F idx I.
  - exists []. split; [constructor|]. intros shown w. cbn.
    rewrite app_nil_r, Z.add_0_r. now destruct w.
  - destruct (IH (fun x H => F x (or_intror H)) (idx + 1)) as (lines & P & R);
      [lia|].
    destruct (is_complete_expense exp) eqn:C.
    + destruct (complete_fields exp C) as (vd & vc & va & vt & Fd & Fc & Fa & Ft).
      destruct (F exp (or_introl eq_refl) C) as (v & text & Fv & T).
      rewrite Fa in Fv. injection Fv as <-.
      eexists. split; [eapply printed_show; eassumption|].
      intros shown w. cbn [view_loop List.filter]. rewrite C. cbn [negb length].
      rewrite py_str_index by assumption.
      unfold bind, lift, subscript. rewrite Fd, Fc, Fa, Ft, T.
      unfold print, write_stdout. cbv beta iota. rewrite R.
      cbn [ledger stdin stdout disk]. rewrite <- app_assoc.
      do 2 f_equal. lia.
    + eexists. split; [eapply printed_skip; eassumption|].
      intros shown w. cbn [view_loop List.filter]. rewrite C. cbn [negb].
      unfold bind at 1. rewrite py_str_index by assumption.
      unfold print, write_stdout. cbv beta iota. rewrite R. cbn.
      now rewrite <- app_assoc.
Qed.

End ViewRuns.

(** X6: on a ledger in which the amount of every complete record is one
    the [.2f] format takes (a float, or an integer that a float can
    hold), [view_expenses] returns normally and changes nothing but the
    console.  It prints, for an empty ledger, that nothing is recorded;
    otherwise the heading and then, for each record in the order of the
    ledger, its line under its position (from 1, counting every record)
    or, for a record that is not complete, the message that the entry
    at that position is skipped; and at the end, when no record is
    complete, that there is none to display. *)
Theorem view_expenses_listing float_repr w :
  (forall exp,
      In exp (ledger w) -> is_complete_expense exp = true ->
      Listing.formats exp) ->
  exists lines,
    Listing.printed float_repr 1 (ledger w) lines
    /\ view_expenses float_repr w
       = (Ok tt,
          World (ledger w) (stdin w)
            (stdout w ++
             if is_nil (ledger w)
             then ["No expenses recorded yet." +:+ Text.newline]
             else (Listing.heading +:+ Text.newline) :: lines
                  ++ Listing.closing (ledger w))
            (disk w)).
Proof.
  intros F.
  destruct (view_loop_printed float_repr (ledger w) F 1) as (lines & P & R);
    [lia|].
  exists lines. split; [exact P|].
  rewrite view_expenses_start.
  destruct (is_nil (ledger w)); [reflexivity|].
  rewrite R. cbn [ledger stdin stdout disk]. rewrite Z.add_0_l.
  unfold Listing.closing.
  destruct (List.filter is_complete_expense (ledger w)) as [|x l];
    unfold print, write_stdout; cbn;
    rewrite <- ?app_assoc; cbn; [reflexivity | now rewrite app_nil_r].
Qed.

Lemma view_expenses_listing_witness :
  let w := World [<["category" := VStr ""]>
                    (make_expense "2024-03-02" "Rent" Float64.zero "Flat");
                  make_expense "2024-03-01" "Food"
                    (S754_finite false 7036874417766400 (-49)) "Lunch";
                  <["amount" := VInt 5]>
                    (make_expense "2024-03-03" "Travel" Float64.zero "Bus")]
             [] [] ∅ in
  exists lines,
    Listing.printed (fun _ => EmptyString) 1 (ledger w) lines
    /\ view_expenses (fun _ => EmptyString) w
       = (Ok tt,
          World (ledger w) []
            ((Listing.heading +:+ Text.newline) :: lines ++ []) ∅).
Proof.
  intros w. apply (view_expenses_listing (fun _ => EmptyString) w).
  intros exp [<- | [<- | [<- | []]]] C; [discriminate C| |];
    do 2 eexists; split; reflexivity.
Defined.

(** The listing of the ledger above, as it is printed. *)
Example view_expenses_three_records :
  (view_expenses (fun _ => EmptyString)
     (World [<["category" := VStr ""]>
               (make_expense "2024-03-02" "Rent" Float64.zero "Flat");
             make_expense "2024-03-01" "Food"
               (S754_finite false 7036874417766400 (-49)) "Lunch";
             <["amount" := VInt 5]>
               (make_expense "2024-03-03" "Travel" Float64.zero "Bus")]
        [] [] ∅)).1 = Ok tt
  /\ stdout
       (view_expenses (fun _ => EmptyString)
          (World [<["category" := VStr ""]>
                    (make_expense "2024-03-02" "Rent" Float64.zero "Flat");
                  make_expense "2024-03-01" "Food"
                    (S754_finite false 7036874417766400 (-49)) "Lunch";
                  <["amount" := VInt 5]>
                    (make_expense "2024-03-03" "Travel" Float64.zero "Bus")]
             [] [] ∅)).2
     = [Listing.heading +:+ Text.newline;
        "Skipping incomplete entry at index 1." +:+ Text.newline;
        "2. Date: 2024-03-01 | Category: Food | Amount: 12.50 | Description: Lunch"
          +:+ Text.newline;
        "3. Date: 2024-03-03 | Category: Travel | Amount: 5.00 | Description: Bus"
          +:+ Text.newline].
Proof. split; vm_compute; reflexivity. Qed.

(** X7: [view_expenses] raises at the first complete record whose amount is
    a text, also one that reads as a number: the [.2f] format refuses a
    [str].  The records before it have been listed, nothing else has
    changed. *)
Theorem view_expenses_refuses_text_amount
    float_repr w before exp after lines n s :
  ledger w = before ++ exp :: after ->
  Listing.listing 1 before lines n ->
  is_complete_expense exp = true ->
  exp !! "amount" = Some (VStr s) ->
  view_expenses float_repr w
  = (Raise (Exn ValueError "Unknown format code 'f' for object of type 'str'"),
     World (ledger w) (stdin w)
       (stdout w ++ (Listing.heading +:+ Text.newline) :: lines) (disk w)).
Proof.
  intros E L C A. rewrite view_expenses_start, E.
  replace (is_nil (before ++ exp :: after)) with false by now destruct before.
  erewrite (view_loop_raises float_repr before 1 lines n L); [|lia|exact C|].
  - cbn. now rewrite <- app_assoc.
  - intros v. rewrite A. now intros [= <-].
Qed.

Lemma view_expenses_refuses_text_amount_witness :
  let w := World [<["amount" := VStr "12.5"]>
                    (make_expense "2024-03-01" "Food" Float64.zero "Lunch")]
             [] [] ∅ in
  view_expenses (fun _ => EmptyString) w
  = (Raise (Exn ValueError "Unknown format code 'f' for object of type 'str'"),
     World (ledger w) [] [Listing.heading +:+ Text.newline] ∅).
Proof.
  intros w.
  apply (view_expenses_refuses_text_amount (fun _ => EmptyString) w []
           (<["amount" := VStr "12.5"]>
              (make_expense "2024-03-01" "Food" Float64.zero "Lunch"))
           [] [] 0 "12.5"); try reflexivity.
  constructor.
Defined.

(** ** Amounts and budgets that are taken *)

Section Taken.

Lemma set_budget_run w :
  set_budget w =
  match stdin w with
  | [] =>
      (Raise end_of_input,
       World (ledger w) [] (stdout w ++ ["Enter monthly budget amount: "]) (disk w))
  | line :: rest =>
      let w1 := World (ledger w) rest
                  (stdout w ++ ["Enter monthly budget amount: "]) (disk w) in
      match Float64.of_string (Text.strip line) with
      | Ok x =>
          if Float64.leb x Float64.zero then
            (Ok None,
             World (ledger w) rest
               (stdout w ++ ["Enter monthly budget amount: ";
                             "Budget must be greater than 0." +:+ Text.newline])
               (disk w))
          else (Ok (Some (Float64.round2 x)), w1)
      | Raise _ =>
          (Ok None,
           World (ledger w) rest
             (stdout w ++ ["Enter monthly budget amount: ";
                           "Budget must be a valid number." +:+ Text.newline])
             (disk w))
      end
  end.
Proof.
  unfold set_budget. unfold bind at 1. rewrite input_run.
  destruct (stdin w) as [|line rest]; [reflexivity|].
  unfold bind. cbv zeta.
  destruct (Float64.of_string (Text.strip line)) as [x|e] eqn:E.
  - destruct (Float64.leb x Float64.zero) eqn:L.
    + rewrite (read_positive_amount_not_positive _ _ _ x) by assumption.
      cbn. now rewrite <- app_assoc.
    + now rewrite (read_positive_amount_ok _ _ _ x) by assumption.
  - rewrite read_positive_amount_not_number by (intros x; congruence).
    cbn. now rewrite <- app_assoc.
Qed.

(** A number that is not [<= 0] is not negative once rounded, though it
    may have become zero. *)
Lemma round2_not_negative x :
  Float64.leb x Float64.zero = false ->
  Float64.ltb (Float64.round2 x) Float64.zero = false.
Proof.
  destruct x as [s|[]| |[] m e]; try discriminate; try reflexivity.
  intros _. unfold Float64.round2, Float64.nearest.
  repeat match goal with
  | |- context [if ?b then _ else _] => destruct b
  | |- context [let '(_, _) := ?p in _] => destruct p
  end; reflexivity.
Qed.

End Taken.

(** X8: [set_budget] reads one line.  At the end of the input it raises the
    [EOFError] of [input()]; for a text that is no number, or a number
    [<= 0], it prints the reason and returns [None]; otherwise it
    returns the number rounded to two decimals and prints nothing but
    the prompt.  It keeps the ledger and the disk as they are. *)
Theorem set_budget_cases w :
  (stdin w = [] ->
   set_budget w
   = (Raise end_of_input,
      World (ledger w) [] (stdout w ++ ["Enter monthly budget amount: "]) (disk w)))
  /\ (forall line rest,
        stdin w = line :: rest ->
        (forall x, Float64.of_string (Text.strip line) <> Ok x) ->
        set_budget w
        = (Ok None,
           World (ledger w) rest
             (stdout w ++ ["Enter monthly budget amount: ";
                           "Budget must be a valid number." +:+ Text.newline])
             (disk w)))
  /\ (forall line rest x,
        stdin w = line :: rest ->
        Float64.of_string (Text.strip line) = Ok x ->
        Float64.leb x Float64.zero = true ->
        set_budget w
        = (Ok None,
           World (ledger w) rest
             (stdout w ++ ["Enter monthly budget amount: ";
                           "Budget must be greater than 0." +:+ Text.newline])
             (disk w)))
  /\ (forall line rest x,
        stdin w = line :: rest ->
        Float64.of_string (Text.strip line) = Ok x ->
        Float64.leb x Float64.zero = false ->
        set_budget w
        = (Ok (Some (Float64.round2 x)),
           World (ledger w) rest
             (stdout w ++ ["Enter monthly budget amount: "]) (disk w))).
Proof.
  rewrite set_budget_run. split; [|split; [|split]].
  - now intros ->.
  - intros line rest -> N. cbv zeta.
    destruct (Float64.of_string (Text.strip line)) as [x|e]; [|reflexivity].
    now destruct (N x).
  - intros line rest x -> P L. cbv zeta. now rewrite P, L.
  - intros line rest x -> P L. cbv zeta. now rewrite P, L.
Qed.

Lemma set_budget_cases_witness :
  set_budget (World [] [" 250.456 "; "next"] [] ∅)
  = (Ok (Some (S754_finite false 8812277833368863 (-45))),
     World [] ["next"] ["Enter monthly budget amount: "] ∅).
Proof.
  destruct (set_budget_cases (World [] [" 250.456 "; "next"] [] ∅))
    as (_ & _ & _ & H).
  apply (H " 250.456 " ["next"] (S754_finite false 8812137095880507 (-45)));
    reflexivity.
Defined.

(** X9: the amount that [add_expense] stores and the budget that
    [set_budget] returns are never negative and are fixed by rounding
    to two decimals; they may be zero, as the test [<= 0] is made
    before the rounding: the amount ["0.004"] is stored as [0.0]. *)
Theorem taken_amounts_not_negative :
  (forall lines exp rest,
      Entry.accepted lines exp rest ->
      exists a,
        exp !! "amount" = Some (VFloat a)
        /\ Float64.ltb a Float64.zero = false
        /\ Float64.round2 a = a)
  /\ (forall w b w',
        set_budget w = (Ok (Some b), w') ->
        Float64.ltb b Float64.zero = false /\ Float64.round2 b = b)
  /\ Entry.accepted ["2024-03-01"; "Food"; "0.004"; "Lunch"]
       (make_expense "2024-03-01" "Food" (S754_zero false) "Lunch") [].
Proof.
  split; [|split].
  - intros lines exp rest A. destruct A as [l1 l2 l3 l4 rest x _ _ [P L] _].
    exists (Float64.round2 x). split; [reflexivity|].
    split; [now apply round2_not_negative|].
    apply round2_idempotent. now apply of_string_valid in P.
  - intros w b w'. rewrite set_budget_run.
    destruct (stdin w) as [|line rest]; [discriminate|]. cbv zeta.
    destruct (Float64.of_string (Text.strip line)) as [x|e] eqn:P; [|discriminate].
    destruct (Float64.leb x Float64.zero) eqn:L; [discriminate|].
    intros [= <- _]. split; [now apply round2_not_negative|].
    apply round2_idempotent. now apply of_string_valid in P.
  - apply (Entry.acc_all "2024-03-01" "Food" "0.004" "Lunch" []
             (S754_finite false 4611686018427388 (-60)));
      try reflexivity; try discriminate. split; reflexivity.
Qed.

(** ** How [main] ends *)

Section MainEnds.
Import RoundTrip Saving Totals.

Variable float_repr : float -> string.

Lemma total_loop_made expenses :
  Forall made expenses ->
  forall total w, exists t, total_loop expenses total w = (Ok t, w).
Proof.
  induction 1 as [|exp rest M _ IH]; intros total w; [now eexists|].
  destruct M as (d & c & a & t & -> & E & _).
  destruct E as (_ & _ & _ & _ & V & _ & NC & _ & NT & _).
  rewrite total_step
    by (apply make_expense_complete; eauto using valid_date_not_empty).
  apply IH.
Qed.

Lemma total_expenses_made w :
  Forall made (ledger w) -> exists t, total_expenses w = (Ok t, w).
Proof.
  intros M. unfold total_expenses, get_ledger, bind, ret.
  destruct (total_loop_made _ M Float64.zero w) as [t ->]. now eexists.
Qed.

Lemma rows_of_made expenses :
  Forall made expenses -> exists rows, rows_of float_repr expenses = Ok rows.
Proof.
  induction 1 as [|exp rest M _ [rows IH]]; [now eexists|].
  destruct M as (d & c & a & t & _ & E & _).
  destruct (entered_row float_repr exp d c a t E) as [C W].
  cbn [rows_of]. rewrite C, W, IH. now eexists.
Qed.

(** [track_budget] returns the budget it is given. *)
Lemma track_budget_keeps x w r w' :
  track_budget (Some x) w = (Ok r, w') -> r = Some x.
Proof.
  unfold track_budget, bind, ret. cbv beta iota.
  destruct (total_expenses w) as [[s|e] w1]; [|discriminate].
  unfold print, write_stdout. cbv beta iota.
  destruct (Float64.ltb x s); now intros [= <- _].
Qed.

Lemma track_budget_made budget w r w' :
  Forall made (ledger w) ->
  track_budget budget w = (r, w') ->
  ledger w' = ledger w /\ disk w' = disk w
  /\ match r with
     | Ok _ => True
     | Raise e => e = end_of_input /\ stdin w' = []
     end.
Proof.
  intros M. destruct (total_expenses_made w M) as [t T].
  destruct budget as [x|].
  - rewrite (track_budget_report w x t T). now intros [= <- <-].
  - unfold track_budget. unfold bind at 1. unfold bind at 1.
    unfold print at 1, write_stdout. cbv beta iota. rewrite set_budget_run.
    cbn [ledger stdin stdout disk].
    destruct (stdin w) as [|line rest]; [now intros [= <- <-]|]. cbv zeta.
    destruct (Float64.of_string (Text.strip line)) as [x|e];
      [|now intros [= <- <-]].
    destruct (Float64.leb x Float64.zero); [now intros [= <- <-]|].
    set (w1 := World _ _ _ _).
    assert (M1 : Forall made (ledger w1)) by exact M.
    destruct (total_expenses_made w1 M1) as [t1 T1].
    unfold bind, ret. cbv beta iota. rewrite T1.
    unfold print, write_stdout. cbv beta iota.
    destruct (Float64.ltb _ t1); now intros [= <- <-].
Qed.

Lemma save_expenses_made filename w r w' :
  Forall made (ledger w) ->
  save_expenses float_repr filename w = (r, w') ->
  match r with
  | Ok _ =>
      exists rows,
        rows_of float_repr (ledger w) = Ok rows
        /\ w' = World (ledger w) (stdin w)
                  (stdout w ++ [("Expenses saved to " +:+ filename) +:+ Text.newline])
                  (<[filename := saved_file filename w rows]> (disk w))
  | Raise e =>
      w' = w /\ exists f, disk w !! filename = Some f /\ file_open_w f = Some e
  end.
Proof.
  intros M. destruct (rows_of_made _ M) as [rows R].
  destruct (disk w !! filename) as [f|] eqn:D.
  - destruct (file_open_w f) as [e|] eqn:O.
    + rewrite (save_expenses_denied _ _ _ f e D O). intros [= <- <-]. eauto.
    + rewrite (save_expenses_run float_repr filename w rows);
        [|unfold writable; now rewrite D|exact R].
      intros [= <- <-]. eauto.
  - rewrite (save_expenses_run float_repr filename w rows);
      [|unfold writable; now rewrite D|exact R].
    intros [= <- <-]. eauto.
Qed.

Lemma saved_after filename w rows out :
  rows_of float_repr (ledger w) = Ok rows ->
  Session.saved float_repr
    (World (ledger w) (stdin w) out
       (<["expenses.csv" := saved_file filename w rows]> (disk w))).
Proof.
  intros R. exists rows, (saved_file filename w rows). cbn.
  split; [exact R|]. split; [apply lookup_insert_eq|]. now repeat split.
Qed.

(** One pass of the loop over a ledger of the program's own. *)
Lemma menu_pass_made budget w r w' :
  Forall made (ledger w) ->
  menu_pass float_repr budget w = (r, w') ->
  Forall made (ledger w')
  /\ match r with
     | Ok (Some _) => True
     | Ok None => Session.ending float_repr (Ok tt) w'
     | Raise e => Session.ending float_repr (Raise e) w'
     end.
Proof.
  intros M. destruct w as [lg sin out dk]. unfold menu_pass.
  destruct (show_menu_run lg sin out dk) as (out1 & S).
  unfold bind at 1. rewrite S. unfold bind at 1. rewrite input_run.
  cbn [ledger stdin stdout disk].
  destruct sin as [|line rest].
  { intros [= <- <-]. split; [exact M|]. left. now split. }
  set (w1 := World lg rest _ dk). assert (M1 : Forall made (ledger w1)) by exact M.
  unfold menu_choice.
  destruct (String.eqb (Text.strip line) "1").
  { unfold bind, ret. destruct (add_expense w1) as [[[]|e] w2] eqn:A.
    - intros [= <- <-]. split; [|exact I].
      destruct (add_expense_made w1) as [E | (exp & E & C)];
        rewrite A in E; cbn [snd] in E; rewrite E; [exact M1|].
      apply Forall_app. split; [exact M1 | now repeat constructor].
    - intros [= <- <-].
      apply add_expense_raises in A as (-> & S2 & L & _).
      split; [now rewrite L|]. left. now split. }
  destruct (String.eqb (Text.strip line) "2").
  { unfold bind, ret. destruct (view_expenses_made float_repr w1 M1) as [out2 ->].
    intros [= <- <-]. now split. }
  destruct (String.eqb (Text.strip line) "3").
  { unfold bind, ret. destruct (track_budget budget w1) as [[b|e] w2] eqn:T;
      apply (track_budget_made _ _ _ _ M1) in T as (L & _ & T);
      intros [= <- <-]; (split; [now rewrite L|]); [exact I|].
    left. exact T. }
  destruct (String.eqb (Text.strip line) "4").
  { unfold bind, ret.
    destruct (save_expenses float_repr "expenses.csv" w1) as [[[]|e] w2] eqn:V;
      apply (save_expenses_made _ _ _ _ M1) in V; intros [= <- <-].
    - destruct V as (rows & _ & ->). now split.
    - destruct V as (-> & f & D & O). split; [exact M1|]. right. eauto. }
  destruct (String.eqb (Text.strip line) "5").
  { unfold bind, ret.
    destruct (save_expenses float_repr "expenses.csv" w1) as [[[]|e] w2] eqn:V;
      apply (save_expenses_made _ _ _ _ M1) in V.
    - destruct V as (rows & R & ->). unfold print, write_stdout.
      cbn [ledger stdin stdout disk]. intros [= <- <-].
      split; [exact M1|]. split; [cbn; now rewrite last_snoc|].
      exact (saved_after "expenses.csv" w1 rows _ R).
    - intros [= <- <-]. destruct V as (-> & f & D & O).
      split; [exact M1|]. right. eauto. }
  unfold bind, ret, print, write_stdout. intros [= <- <-]. now split.
Qed.

Lemma main_loop_made fuel :
  forall budget w r w',
    Forall made (ledger w) ->
    main_loop float_repr fuel budget w = Some (r, w') ->
    Forall made (ledger w') /\ Session.ending float_repr r w'.
Proof.
  induction fuel as [|fuel IH]; intros budget w r w' M; [discriminate|].
  cbn [main_loop].
  destruct (menu_pass float_repr budget w) as [[[b|]|e] w1] eqn:P;
    apply (menu_pass_made _ _ _ _ M) in P as [M1 E].
  - now apply IH.
  - now intros [= <- <-].
  - now intros [= <- <-].
Qed.

End MainEnds.

(** X10: [main] ends in one of three ways.  It returns, and then the last
    thing it did was to save the ledger in [expenses.csv] and to say
    goodbye; or the input ran out and it raises the [EOFError] of
    [input()]; or [expenses.csv] could not be opened for writing and it
    raises the error of [open].  Nothing else is ever raised: the
    records that [load_expenses] and [add_expense] make can always be
    listed, summed and written. *)
Theorem main_ends_in_three_ways float_repr w r w' :
  main float_repr w = Some (r, w') -> Session.ending float_repr r w'.
Proof.
  intros H. apply main_start in H as (exps & more & L & H).
  apply (main_loop_made float_repr) in H as [_ E]; [exact E|].
  cbn [ledger].
  destruct (load_expenses "expenses.csv" w) as [r0 w0] eqn:L0.
  cbn [fst] in L. subst r0. now apply load_expenses_made in L0.
Qed.

Lemma main_ends_in_three_ways_witness :
  let w := World [] ["1"; "2024-03-01"; "Food"; "12.5"; "Lunch"; "3"; "100"; "5"]
             [] ∅ in
  exists w',
    main (fun _ => EmptyString) w = Some (Ok tt, w')
    /\ Session.ending (fun _ => EmptyString) (Ok tt) w'.
Proof.
  intros w.
  exists (match main (fun _ => EmptyString) w with
          | Some (_, w') => w'
          | None => w
          end).
  split; [vm_compute; reflexivity|].
  apply (main_ends_in_three_ways (fun _ => EmptyString) w (Ok tt)).
  vm_compute. reflexivity.
Defined.

(** X11: a budget once set stays as it is: a pass of the menu that starts
    with a budget and goes on hands the same budget to the next pass,
    whatever was chosen. *)
Theorem budget_is_kept float_repr x w next w' :
  menu_pass float_repr (Some x) w = (Ok (Some next), w') -> next = Some x.
Proof.
  unfold menu_pass, bind.
  destruct (show_menu w) as [[[]|e] w0]; [|discriminate].
  destruct (input "Choose an option (1-5): " w0) as [[line|e] w1]; [|discriminate].
  unfold menu_choice.
  repeat match goal with
  | |- context [if String.eqb ?a ?b then _ else _] => destruct (String.eqb a b)
  end; unfold bind, ret.
  - destruct (add_expense w1) as [[[]|e] w2]; now intros [= <- _].
  - destruct (view_expenses float_repr w1) as [[[]|e] w2]; now intros [= <- _].
  - destruct (track_budget (Some x) w1) as [[b|e] w2] eqn:T; [|discriminate].
    apply track_budget_keeps in T as ->. now intros [= <- _].
  - destruct (save_expenses float_repr "expenses.csv" w1) as [[[]|e] w2];
      now intros [= <- _].
  - destruct (save_expenses float_repr "expenses.csv" w1) as [[[]|e] w2];
      [|discriminate].
    destruct (print "Goodbye!" w2) as [[[]|e] w3]; discriminate.
  - destruct (print _ w1) as [[[]|e] w2]; now intros [= <- _].
Qed.

Lemma budget_is_kept_witness :
  let w := World (Budget.ledger_of Budget.f_100_01) ["3"; "left"] [] ∅ in
  exists w',
    menu_pass (fun _ => EmptyString) (Some Budget.f_100_00) w
    = (Ok (Some (Some Budget.f_100_00)), w')
    /\ Some Budget.f_100_00 = Some Budget.f_100_00.
Proof.
  intros w.
  exists (menu_pass (fun _ => EmptyString) (Some Budget.f_100_00) w).2.
  split; [vm_compute; reflexivity|].
  apply (budget_is_kept (fun _ => EmptyString) Budget.f_100_00 w
           (Some Budget.f_100_00)
           (menu_pass (fun _ => EmptyString) (Some Budget.f_100_00) w).2).
  vm_compute. reflexivity.
Defined.

(** ** The loop of [main] ends *)

Section MainLoop.

Variable float_repr : float -> string.

Lemma main_loop_step fuel budget w :
  main_loop float_repr (S fuel) budget w =
  match menu_pass float_repr budget w with
  | (Ok None, w') => Some (Ok tt, w')
  | (Ok (Some budget'), w') => main_loop float_repr fuel budget' w'
  | (Raise e, w') => Some (Raise e, w')
  end.
Proof. reflexivity. Qed.

Lemma main_loop_more fuel :
  forall budget w r,
    main_loop float_repr fuel budget w = Some r ->
    main_loop float_repr (S fuel) budget w = Some r.
Proof.
  induction fuel as [|fuel IH]; intros budget w r; [discriminate|].
  rewrite (main_loop_step (S fuel)), (main_loop_step fuel).
  destruct (menu_pass float_repr budget w) as [[[b|]|e] w1]; auto.
Qed.

Lemma main_loop_enough fuel fuel' budget w r :
  (fuel <= fuel')%nat ->
  main_loop float_repr fuel budget w = Some r ->
  main_loop float_repr fuel' budget w = Some r.
Proof.
  induction 1 as [|fuel' _ IH]; [trivial|].
  intros H. apply main_loop_more. now apply IH.
Qed.

End MainLoop.

(** X12: the loop of [main] ends on every input: each pass reads a line, so
    it is over after at most one pass more than there are lines to
    read, and passes allowed beyond that change nothing.  [main], which
    allows that many, always has a result. *)
Theorem main_terminates float_repr w :
  (forall budget,
      exists r,
        forall fuel,
          (length (stdin w) < fuel)%nat ->
          main_loop float_repr fuel budget w = Some r)
  /\ exists r, main float_repr w = Some r.
Proof.
  split; [|apply main_ends].
  intros budget.
  destruct (main_loop_ends float_repr (S (length (stdin w))) budget w) as [r H];
    [lia|].
  exists r. intros fuel L.
  apply (main_loop_enough float_repr (S (length (stdin w)))); [lia | exact H].
Qed.

(** ** Ledgers of the program's own *)

(** X13: every record of a ledger that the program has built, by loading a
    file and by [add_expense], holds exactly the four fields: a date
    that passes [is_valid_date], a category and a description that are
    not empty, all three without blanks around them, and as amount a
    float that rounding to two decimals leaves as it is. *)
Theorem program_records_are_normal expenses exp :
  built_by_program expenses ->
  In exp expenses ->
  exists date category amount description,
    exp = make_expense date category amount description
    /\ is_valid_date date = true /\ Text.strip date = date
    /\ category <> "" /\ Text.strip category = category
    /\ description <> "" /\ Text.strip description = description
    /\ Float64.valid amount = true
    /\ Float64.round2 amount = amount.
Proof.
  intros B I. apply built_by_program_made in B.
  rewrite Forall_forall in B.
  destruct (B exp) as (d & c & a & t & E & N & R); [now apply list_elem_of_In|].
  destruct N as (_ & _ & _ & _ & N).
  exists d, c, a, t. split; [exact E|]. tauto.
Qed.

Lemma program_records_are_normal_witness :
  let w := World [] [" 2024-3-1"; "Food "; "5.999"; "Lunch"] [] ∅ in
  exists date category amount description,
    make_expense "2024-3-1" "Food" (S754_finite false 6755399441055744 (-50)) "Lunch"
    = make_expense date category amount description
    /\ is_valid_date date = true /\ Text.strip date = date
    /\ category <> "" /\ Text.strip category = category
    /\ description <> "" /\ Text.strip description = description
    /\ Float64.valid amount = true
    /\ Float64.round2 amount = amount.
Proof.
  intros w.
  apply (program_records_are_normal (ledger (add_expense w).2)).
  - apply (built_add w (add_expense w).1 (add_expense w).2).
    + apply (built_load "expenses.csv" (World [] [] [] ∅) [] (World [] [] [] ∅)).
      reflexivity.
    + now destruct (add_expense w).
  - vm_compute. left. reflexivity.
Defined.

(** X14: a ledger that the program has built is read back exactly as it is:
    when [save_expenses] returns normally and the file can be read,
    [load_expenses] returns the records of the ledger, all of them,
    unchanged and in order. *)
Theorem program_ledger_is_read_back float_repr filename w w1 :
  built_by_program (ledger w) ->
  save_expenses float_repr filename w = (Ok tt, w1) ->
  RoundTrip.can_be_read_back filename w1 ->
  load_expenses filename w1 = (Ok (ledger w), w1).
Proof.
  intros B. apply save_then_load_ledger. now apply built_by_program_made.
Qed.

Lemma program_ledger_is_read_back_witness :
  let w0 := World [] ["2024-03-01"; "Food"; "5.999"; "Lunch"] [] ∅ in
  let w := (add_expense w0).2 in
  let w1 := (save_expenses (fun _ => EmptyString) "expenses.csv" w).2 in
  ledger w = [make_expense "2024-03-01" "Food"
                (S754_finite false 6755399441055744 (-50)) "Lunch"]
  /\ load_expenses "expenses.csv" w1 = (Ok (ledger w), w1).
Proof.
  intros w0 w w1. split; [vm_compute; reflexivity|].
  apply (program_ledger_is_read_back (fun _ => EmptyString) "expenses.csv" w w1).
  - apply (built_add w0 (add_expense w0).1 w).
    + apply (built_load "expenses.csv" (World [] [] [] ∅) [] (World [] [] [] ∅)).
      reflexivity.
    + now destruct (add_expense w0).
  - vm_compute. reflexivity.
  - intros f D. vm_compute in D. injection D as <-.
    split; [reflexivity | repeat constructor].
Defined.

(** ** Rows that are passed over *)

Section Discards.
Import Loading.

Lemma loaded_unique rows :
  forall exps1 exps2, loaded rows exps1 -> loaded rows exps2 -> exps1 = exps2.
Proof.
  induction rows as [|row rows IH]; intros exps1 exps2 L1 L2.
  - inversion L1. now inversion L2.
  - inversion L1 as [|? ? e1 es1 A1 R1 T1|? ? es1 N1 T1]; subst;
      inversion L2 as [|? ? e2 es2 A2 R2 T2|? ? es2 N2 T2]; subst;
      try contradiction.
    + f_equal; [eapply record_of_unique; eauto | now apply IH].
    + now apply IH.
Qed.

Lemma loaded_none rows exps :
  loaded rows exps -> Forall (fun row => ~ accepts row) rows -> exps = [].
Proof.
  induction 1 as [|row rows exp exps A _ _ _|row rows exps _ _ IH]; intros F.
  - reflexivity.
  - inversion F; subst. contradiction.
  - inversion F; subst. auto.
Qed.

Lemma insert_pairs_lookup pairs :
  forall (d : dict_row) name,
    ~ In name (map fst pairs) ->
    fold_left (fun d kv => <[kv.1 := Some kv.2]> d) pairs d !! name = d !! name.
Proof.
  induction pairs as [|[k v] pairs IH]; intros d name N; [reflexivity|].
  cbn [fold_left]. rewrite IH by (intros H; apply N; now right).
  apply lookup_insert_ne. cbn. intros E. apply N. now left.
Qed.

Lemma insert_none_lookup keys :
  forall (d : dict_row) name,
    ~ In name keys ->
    fold_left (fun d k => <[k := None]> d) keys d !! name = d !! name.
Proof.
  induction keys as [|k keys IH]; intros d name N; [reflexivity|].
  cbn [fold_left]. rewrite IH by (intros H; apply N; now right).
  apply lookup_insert_ne. intros E. apply N. now left.
Qed.

Lemma In_combine_fst {A B} (l : list A) (l' : list B) x :
  In x (map fst (combine l l')) -> In x l.
Proof.
  revert l'. induction l as [|a l IH]; intros [|b l']; cbn; try tauto.
  intros [->|H]; [now left | right; eauto].
Qed.

Lemma In_drop {A} n (l : list A) x : In x (drop n l) -> In x l.
Proof.
  revert l. induction n as [|n IH]; intros [|a l]; cbn; try tauto.
  intros H. right. now apply IH.
Qed.

(** A column whose name the header does not have is empty in every row. *)
Lemma column_missing header cells name :
  ~ In name header -> column (Csv.make_row header cells) name = "".
Proof.
  intros N. unfold column, Csv.get_or_empty, Csv.make_row.
  rewrite insert_none_lookup by (intros H; apply N; eapply In_drop; eauto).
  rewrite insert_pairs_lookup
    by (intros H; apply N; eapply In_combine_fst; eauto).
  reflexivity.
Qed.

Lemma accepts_columns row name :
  In name CSV_HEADERS -> accepts row -> column row name <> "".
Proof.
  intros I (Hd & Hc & Ha & Ht & _).
  repeat (destruct I as [<-|I]; [assumption|]). destruct I.
Qed.

(** Under the header of the program, a row of fewer than four cells
    has no description. *)
Lemma short_row_refused cells :
  (length cells < 4)%nat -> ~ accepts (Csv.make_row CSV_HEADERS cells).
Proof.
  intros L A. apply (accepts_columns _ "description") in A; [|cbn; tauto].
  apply A.
  destruct cells as [|a [|b [|c [|d cells]]]]; try reflexivity.
  cbn in L. lia.
Qed.

(** Cells beyond the fourth are not looked at. *)
Lemma make_row_first_four cells :
  Csv.make_row CSV_HEADERS (take 4 cells) = Csv.make_row CSV_HEADERS cells.
Proof.
  destruct cells as [|a [|b [|c [|d cells]]]]; try reflexivity.
  unfold Csv.make_row. cbn [take combine CSV_HEADERS length drop fold_left].
  now rewrite !drop_nil.
Qed.

Lemma data_rows_first_four rows :
  data_rows (CSV_HEADERS :: map (take 4) rows) = data_rows (CSV_HEADERS :: rows).
Proof.
  cbn [data_rows]. induction rows as [|cells rows IH]; [reflexivity|].
  cbn [map List.filter].
  destruct cells as [|a cells]; [exact IH|].
  cbn [take is_nil negb map]. rewrite IH. f_equal.
  exact (make_row_first_four (a :: cells)).
Qed.

End Discards.

(** X15: [load_expenses] returns no record, and prints nothing, for a file
    whose header lacks one of the four column names, and for a file
    with the header of the program in which every row has fewer than
    four cells. *)
Theorem load_expenses_passes_over w filename f header rest :
  disk w !! filename = Some f ->
  Loading.readable f -> file_fault f = None -> Loading.fields_fit (file_rows f) ->
  file_rows f = header :: rest ->
  (exists name, In name CSV_HEADERS /\ ~ In name header)
  \/ (header = CSV_HEADERS /\ Forall (fun cells => (length cells < 4)%nat) rest) ->
  load_expenses filename w = (Ok [], w).
Proof.
  intros D R N F E H.
  destruct (load_expenses_readable w filename f D R F) as (exps & L & ->).
  rewrite N. f_equal. f_equal.
  apply (loaded_none _ _ L). rewrite E. cbn [Loading.data_rows].
  apply Forall_forall. intros row I. apply list_elem_of_In, in_map_iff in I.
  destruct I as (cells & <- & I). apply filter_In in I as [I _].
  destruct H as [(name & Hn & Hh) | [-> S]].
  - intros A. apply (accepts_columns _ name Hn) in A.
    apply A. now apply column_missing.
  - apply short_row_refused. rewrite Forall_forall in S.
    apply S. now apply list_elem_of_In.
Qed.

Lemma load_expenses_passes_over_witness :
  load_expenses "expenses.csv"
    (World [] [] [] {["expenses.csv" := Foreign.no_description]})
  = (Ok [], World [] [] [] {["expenses.csv" := Foreign.no_description]}).
Proof.
  apply (load_expenses_passes_over _ "expenses.csv" Foreign.no_description
           ["date"; "category"; "amount"] [["2024-03-01"; "Food"; "12.50"]]);
    try reflexivity.
  - split; reflexivity.
  - repeat constructor.
  - left. exists "description". split; [cbn; tauto|].
    cbn. intros [H|[H|[H|[]]]]; discriminate H.
Defined.

(** X16: under the header of the program [load_expenses] looks at the first
    four cells of a row only: a file whose rows are cut after the
    fourth cell gives the same records. *)
Theorem load_expenses_reads_four_cells w v filename f g rows :
  disk w !! filename = Some f -> disk v !! filename = Some g ->
  Loading.readable f -> file_fault f = None -> Loading.fields_fit (file_rows f) ->
  Loading.readable g -> file_fault g = None ->
  file_rows f = CSV_HEADERS :: rows ->
  file_rows g = CSV_HEADERS :: map (take 4) rows ->
  (load_expenses filename v).1 = (load_expenses filename w).1.
Proof.
  intros Df Dg Rf Nf Ff Rg Ng Ef Eg.
  assert (Fg : Loading.fields_fit (file_rows g)).
  { rewrite Eg. rewrite Ef in Ff. unfold Loading.fields_fit in *.
    inversion Ff as [|? ? H0 T]; subst. constructor; [exact H0|].
    apply Forall_fmap. eapply Forall_impl; [exact T|].
    intros cells C. now apply Forall_take. }
  destruct (load_expenses_readable w filename f Df Rf Ff) as (e1 & L1 & ->).
  destruct (load_expenses_readable v filename g Dg Rg Fg) as (e2 & L2 & ->).
  cbn [fst]. f_equal.
  rewrite Ef in L1. rewrite Eg, data_rows_first_four in L2.
  eapply loaded_unique; eauto.
Qed.

Lemma load_expenses_reads_four_cells_witness :
  (load_expenses "expenses.csv"
     (World [] [] [] {["expenses.csv" := Foreign.without_comment]})).1
  = (load_expenses "expenses.csv"
       (World [] [] [] {["expenses.csv" := Foreign.with_comment]})).1.
Proof.
  apply (load_expenses_reads_four_cells
           (World [] [] [] {["expenses.csv" := Foreign.with_comment]})
           (World [] [] [] {["expenses.csv" := Foreign.without_comment]})
           "expenses.csv" Foreign.with_comment Foreign.without_comment
           [["2024-03-01"; "Food"; "12.50"; "Lunch"; "with a client"]]);
    try reflexivity; try (split; reflexivity).
  repeat constructor.
Defined.

(** ** Leaving at once *)

Section Leaving.
Import Loading RoundTrip Saving.

Variable float_repr : float -> string.

(** The pass of the menu in which 5 is chosen, over a ledger of the
    program's own and a file that may be written. *)
Lemma menu_pass_exit budget w line rest rows :
  stdin w = line :: rest -> Text.strip line = "5" ->
  rows_of float_repr (ledger w) = Ok rows ->
  writable "expenses.csv" w ->
  exists out,
    menu_pass float_repr budget w
    = (Ok None,
       World (ledger w) rest out
         (<["expenses.csv" := saved_file "expenses.csv" w rows]> (disk w))).
Proof.
  destruct w as [lg sin out dk]. cbn [stdin ledger disk]. intros -> C R W.
  unfold menu_pass.
  destruct (show_menu_run lg (line :: rest) out dk) as (out1 & S).
  unfold bind at 1. rewrite S. unfold bind at 1. rewrite input_run.
  cbn [ledger stdin stdout disk]. unfold menu_choice. rewrite C.
  cbn [String.eqb Ascii.eqb Bool.eqb]. unfold bind at 1.
  rewrite (save_expenses_run float_repr "expenses.csv" _ rows); [|exact W|exact R].
  unfold bind, print, write_stdout, ret. cbn. now eexists.
Qed.

End Leaving.

(** X17: starting [main] and choosing 5 at once rewrites [expenses.csv]:
    when the file can be read and written, it holds afterwards the
    header of the program and one row for each row that
    [load_expenses] accepted, and the rows that were passed over are
    gone from the file. *)
Theorem main_exit_rewrites_file float_repr w line rest f :
  stdin w = line :: rest -> Text.strip line = "5" ->
  disk w !! "expenses.csv" = Some f ->
  Loading.readable f -> file_fault f = None ->
  Loading.fields_fit (file_rows f) -> file_open_w f = None ->
  exists exps rows w',
    Loading.loaded (Loading.data_rows (file_rows f)) exps
    /\ RoundTrip.rows_of float_repr exps = Ok rows
    /\ length rows = length exps
    /\ main float_repr w = Some (Ok tt, w')
    /\ ledger w' = exps
    /\ disk w' !! "expenses.csv"
       = Some (File true (CSV_HEADERS :: rows) None None None).
Proof.
  intros I C D R N F O.
  destruct (load_expenses_readable w "expenses.csv" f D R F) as (exps & L & E).
  rewrite N in E.
  assert (M : Forall RoundTrip.made exps) by (eapply load_expenses_made; eauto).
  destruct (rows_of_made float_repr exps M) as [rows Rw].
  exists exps, rows.
  assert (Len : length rows = length exps).
  { destruct (rows_of_shape float_repr exps rows Rw) as [Len _]. rewrite Len.
    clear -M float_repr. induction M as [|exp exps Hm _ IH]; [reflexivity|].
    destruct Hm as (d & c & a & t & _ & En & _).
    destruct (entered_row float_repr exp d c a t En) as [Cm _].
    cbn [List.filter]. rewrite Cm. cbn [length]. now rewrite IH. }
  set (start := fun out => World exps (stdin w) out (disk w)).
  assert (P : forall out, exists out',
               menu_pass float_repr None (start out)
               = (Ok None,
                  World exps rest out'
                    (<["expenses.csv" :=
                         Saving.saved_file "expenses.csv" (start out) rows]> (disk w)))).
  { intros out.
    apply (menu_pass_exit float_repr None (start out) line rest rows);
      [exact I | exact C | exact Rw |].
    unfold Saving.writable, start. cbn [disk]. now rewrite D. }
  unfold main, bind at 1. rewrite E. unfold set_ledger, bind, ret.
  cbn [ledger stdin stdout disk].
  assert (Sv : forall out,
             Saving.saved_file "expenses.csv" (start out) rows
             = File true (CSV_HEADERS :: rows) None None None).
  { intros out. unfold Saving.saved_file, start. cbn [disk]. rewrite D.
    destruct R as [_ ->]. reflexivity. }
  destruct (is_nil exps); unfold print, write_stdout; cbn [ledger stdin stdout disk].
  - destruct (P (stdout w)) as [out' Q]. unfold start in Q.
    rewrite main_loop_step, Q. eexists. split; [exact L|]. split; [exact Rw|].
    split; [exact Len|]. split; [reflexivity|]. split; [reflexivity|].
    cbn [disk]. rewrite lookup_insert_eq. f_equal. apply (Sv (stdout w)).
  - match goal with
    | |- context [World exps (stdin w) ?o (disk w)] => destruct (P o) as [out' Q]
    end.
    unfold start in Q.
    rewrite main_loop_step, Q. eexists. split; [exact L|]. split; [exact Rw|].
    split; [exact Len|]. split; [reflexivity|]. split; [reflexivity|].
    cbn [disk]. rewrite lookup_insert_eq. f_equal. apply Sv.
Qed.

Lemma main_exit_rewrites_file_witness :
  let w := World [] [" 5"] [] {["expenses.csv" := Loading.sample_file]} in
  exists exps rows w',
    Loading.loaded (Loading.data_rows (file_rows Loading.sample_file)) exps
    /\ RoundTrip.rows_of (fun _ => EmptyString) exps = Ok rows
    /\ length rows = length exps
    /\ main (fun _ => EmptyString) w = Some (Ok tt, w')
    /\ ledger w' = exps
    /\ disk w' !! "expenses.csv"
       = Some (File true (CSV_HEADERS :: rows) None None None).
Proof.
  intros w.
  apply (main_exit_rewrites_file (fun _ => EmptyString) w " 5" [] Loading.sample_file);
    try reflexivity.
  - split; reflexivity.
  - repeat constructor.
Defined.

(** ** The shape of a valid date *)

Section DateShape.

Lemma length_points s : length (Unicode.points s) = String.length s.
Proof. induction s as [|c s IH]; cbn; congruence. Qed.

(** A console text whose last code point is [e]. *)
Lemma points_last s :
  forall pre e,
    Unicode.points s = pre ++ [e] ->
    exists x z, s = x +:+ String z "" /\ Text.code z = e.
Proof.
  induction s as [|c s IH]; intros pre e H.
  - now destruct pre.
  - destruct pre as [|p pre]; cbn in H.
    + injection H as Hc Hs. destruct s; [|discriminate Hs]. now exists "", c.
    + injection H as _ Hs. apply IH in Hs as (x & z & -> & Hz).
      now exists (String c x), z.
Qed.

(** A decimal digit of the console is an ASCII digit, and no blank. *)
Lemma decimal_not_blank c :
  Unicode.is_decimal (Text.code c) = true -> Text.is_space c = false.
Proof.
  intros D. apply digit_not_blank.
  apply decimal_below_256 in D; [exact D|].
  unfold Text.code. apply N_ascii_bounded.
Qed.

Lemma lenient_month_shape tm :
  DateText.one_of DateText.months_lenient tm -> (1 <= length tm <= 2)%nat.
Proof.
  intros H. vm_compute in H.
  repeat (destruct H as [<-|H]; [cbn; lia|]). contradiction.
Qed.

Lemma lenient_day_shape td :
  DateText.one_of DateText.days_lenient td \/ DateText.wide_day td ->
  (1 <= length td <= 2)%nat
  /\ exists pre e, td = pre ++ [e] /\ Unicode.is_decimal e = true.
Proof.
  intros [H | (a & b & -> & _ & B)].
  - vm_compute in H.
    repeat (destruct H as [<-|H];
            [split; [cbn; lia|];
             first [ now eexists [], _ | now eexists [_], _ ]|]).
    contradiction.
  - split; [cbn; lia|]. now exists [a], b.
Qed.

End DateShape.

(** X18: a text that passes [is_valid_date] has eight to ten characters and
    no blank at either end: stripping it changes nothing. *)
Theorem valid_date_shape (s : string) :
  is_valid_date s = true ->
  (8 <= String.length s <= 10)%nat /\ Text.strip s = s.
Proof.
  intros V. apply valid_date_lenient in V as (ty & tm & td & E & Hy & Hm & Hd & _).
  apply year_numeral_inv in Hy as (a & b & c & d & -> & Da & _).
  apply lenient_month_shape in Hm.
  apply lenient_day_shape in Hd as (Ld & pre & e & -> & De).
  split.
  - rewrite <- length_points, E. rewrite List.length_app in Ld.
    cbn [app length] in *. rewrite !List.length_app. cbn [length].
    rewrite List.length_app. cbn [length]. lia.
  - destruct s as [|ca s']; [discriminate E|].
    assert (Ha : Text.code ca = a) by (cbn in E; congruence).
    assert (L : Unicode.points (String ca s')
                = ([a; b; c; d] ++ Text.code "-" :: tm ++ Text.code "-" :: pre) ++ [e])
      by (rewrite E, <- !app_assoc; cbn [app]; now rewrite <- app_assoc).
    apply points_last in L as (x & z & Es & Hz).
    unfold Text.strip. cbn [Text.lstrip_by].
    rewrite decimal_not_blank by (now rewrite Ha).
    rewrite Es. apply rstrip_keep. apply decimal_not_blank. now rewrite Hz.
Qed.

Lemma valid_date_shape_witness :
  (8 <= String.length "2024-3- 1" <= 10)%nat
  /\ Text.strip "2024-3- 1" = "2024-3- 1".
Proof. apply valid_date_shape. reflexivity. Defined.

(** ** Saving again *)

(** X19: saving a second time changes nothing on the disk: after a save that
    has returned normally, [save_expenses] returns normally again and
    leaves every file as the first save left it. *)
Theorem save_expenses_twice float_repr filename w rows :
  Saving.writable filename w ->
  RoundTrip.rows_of float_repr (ledger w) = Ok rows ->
  let w1 := (save_expenses float_repr filename w).2 in
  (save_expenses float_repr filename w1).1 = Ok tt
  /\ disk (save_expenses float_repr filename w1).2 = disk w1.
Proof.
  intros W R w1. unfold w1.
  rewrite (save_expenses_run float_repr filename w rows W R). cbn [snd].
  set (w2 := World _ _ _ _).
  assert (W2 : Saving.writable filename w2).
  { unfold Saving.writable, w2. cbn [disk]. now rewrite lookup_insert_eq. }
  rewrite (save_expenses_run float_repr filename w2 rows W2 R). cbn [fst snd disk].
  split; [reflexivity|].
  unfold w2 at 2. cbn [disk]. rewrite insert_insert_eq. f_equal.
  unfold Saving.saved_file, w2. cbn [disk]. now rewrite lookup_insert_eq.
Qed.

Lemma save_expenses_twice_witness :
  let w := World [make_expense "2024-03-01" "Food"
                    (S754_finite false 7036874417766400 (-49)) "Lunch"]
             [] [] ∅ in
  let w1 := (save_expenses (fun _ => EmptyString) "expenses.csv" w).2 in
  (save_expenses (fun _ => EmptyString) "expenses.csv" w1).1 = Ok tt
  /\ disk (save_expenses (fun _ => EmptyString) "expenses.csv" w1).2 = disk w1.
Proof.
  intros w.
  apply (save_expenses_twice (fun _ => EmptyString) "expenses.csv" w
           [["2024-03-01"; "Food"; "12.50"; "Lunch"]]).
  - exact I.
  - vm_compute. reflexivity.
Defined.
